(** * KAMIS price-feed ingestion: a shallow embedding of
      [backend/src/services/kamisService.ts]

    The development follows the source file top to bottom:
    - [JsString]: the string primitives the service calls
      ([toLowerCase], [toUpperCase], [trim], [replace], [match] on the
      keyword patterns, [parseFloat]);
    - [Classifier]: [categorizeCrop] and [determineUnit];
    - [JsDate]: [Date] values, [setHours] and the day window;
    - [Store]: the tables the service and the clean-up touch and the
      Prisma calls issued on them, in a state-and-exception monad;
    - [Kamis]: [processKamisFile], [syncKamisData], the sync log and
      [getKamisSyncStatus];
    - [Cron]: [cleanupOldLogs] of the cron service, which prunes the
      SMS log, the anonymous chats and the sync log.

    What the model fixes about the service's surroundings:
    - strings are sequences of 8-bit code units; the case mappings and
      the white-space class are the ASCII ones, which are JavaScript's
      on strings of ASCII characters;
    - a number read by [parseFloat] is kept as the decimal it denotes;
      it counts as finite when that decimal rounds to a finite double;
    - the host's [Date.parse] and its offset from UTC are parameters;
      local time is UTC plus that constant offset;
    - a table is the list of its rows in insertion order and
      [findFirst] returns the earliest match;
    - [{ equals: name, mode: 'insensitive' }] reaches PostgreSQL as
      [ILIKE] with the name as the pattern: [%] and [_] in the name are
      wild cards and a backslash escapes the character after it;
    - [entry_date] is a DATE column: it keeps the UTC calendar date of
      the time value it is given, and a comparison with a time value
      compares calendar dates.  A fact row records the time value the
      service passed; every read of the column goes through [utc_date];
    - which statements the database rejects (constraint violations,
      values a column cannot hold, a malformed pattern) and whether the
      transaction is rejected at its boundary (the timeout elapsed, the
      commit failed) is decided by the environment [Env]; a statement
      rejected inside the transaction leaves it aborted: the statements
      after it are rejected too, and the commit rolls back without an
      error;
    - the client itself refuses an Invalid Date or a non-finite number
      as an argument, before anything is sent;
    - a row object's own properties are modelled; the service reads
      only keys that [Object.prototype] does not define;
    - an [orderBy] on [started_at] puts NULL first when descending and
      keeps rows that tie in table order;
    - of the SMS log and the chat conversations the model keeps the
      columns the clean-up reads; their [created_at] is a nullable
      TIMESTAMPTZ(6) and is kept in microseconds since the epoch;
    - logging has no effect on the state and is left out. *)

From Stdlib Require Import List String Ascii ZArith NArith Bool Arith Lia.
From Stdlib Require Import Permutation Sorted.
Import ListNotations.

Local Open Scope string_scope.

(* ===================================================================== *)
(** ** JavaScript string primitives *)
(* ===================================================================== *)

Module JsString.

Definition in_range (lo hi : nat) (c : ascii) : bool :=
  let n := nat_of_ascii c in (lo <=? n)%nat && (n <=? hi)%nat.

Definition is_upper (c : ascii) : bool := in_range 65 90 c.
Definition is_lower (c : ascii) : bool := in_range 97 122 c.
Definition is_digit (c : ascii) : bool := in_range 48 57 c.

(** The regular-expression class [\s] and the characters [trim] strips:
    TAB, LF, VT, FF, CR and SPACE. *)
Definition is_space (c : ascii) : bool :=
  in_range 9 13 c || (nat_of_ascii c =? 32)%nat.

Definition lower_char (c : ascii) : ascii :=
  if is_upper c then ascii_of_nat (nat_of_ascii c + 32) else c.

Definition upper_char (c : ascii) : ascii :=
  if is_lower c then ascii_of_nat (nat_of_ascii c - 32) else c.

Fixpoint map_chars (f : ascii -> ascii) (s : string) : string :=
  match s with
  | EmptyString => EmptyString
  | String c r => String (f c) (map_chars f r)
  end.

Definition toLowerCase : string -> string := map_chars lower_char.
Definition toUpperCase : string -> string := map_chars upper_char.

Fixpoint trimStart (s : string) : string :=
  match s with
  | String c r => if is_space c then trimStart r else s
  | EmptyString => EmptyString
  end.

(** [trimEnd] keeps a character when it is not a space or when
    something survives to its right. *)
Fixpoint trimEnd (s : string) : string :=
  match s with
  | EmptyString => EmptyString
  | String c r =>
      match trimEnd r with
      | EmptyString => if is_space c then EmptyString else String c EmptyString
      | r' => String c r'
      end
  end.

Definition trim (s : string) : string := trimEnd (trimStart s).

(** [s.replace(/,/g, '')] *)
Fixpoint remove_commas (s : string) : string :=
  match s with
  | EmptyString => EmptyString
  | String c r =>
      if (nat_of_ascii c =? 44)%nat then remove_commas r
      else String c (remove_commas r)
  end.

(** [s.replace(/\s/g, '_')] *)
Definition spaces_to_underscores : string -> string :=
  map_chars (fun c => if is_space c then "_"%char else c).

(** Every character of the string passes the test. *)
Fixpoint all_chars (P : ascii -> bool) (s : string) : bool :=
  match s with
  | EmptyString => true
  | String c r => P c && all_chars P r
  end.

(** A JavaScript string is truthy exactly when it is not empty. *)
Definition nonempty (s : string) : bool :=
  match s with EmptyString => false | _ => true end.

Fixpoint drop (n : nat) (s : string) : string :=
  match n, s with
  | O, _ => s
  | S k, String _ r => drop k r
  | S _, EmptyString => EmptyString
  end.

(** *** The keyword patterns

    Every pattern of the service is an alternation of words; a word is
    literal text, in four places with an optional white-space character
    inside ([ground\s?nut] and the like). *)

Inductive atom : Type :=
| Lit (w : string)
| OptSpace.

Definition word : Type := list atom.
Definition pattern : Type := list word.

Fixpoint match_here (w : word) (s : string) : bool :=
  match w with
  | [] => true
  | Lit l :: w' => prefix l s && match_here w' (drop (String.length l) s)
  | OptSpace :: w' =>
      match s with
      | String c r => (is_space c && match_here w' r) || match_here w' s
      | EmptyString => match_here w' s
      end
  end.

(** [s.match(p)] used as a condition: some word matches at some offset. *)
Fixpoint js_match (p : pattern) (s : string) : bool :=
  existsb (fun w => match_here w s) p
  || match s with
     | EmptyString => false
     | String _ r => js_match p r
     end.

Definition words (l : list string) : pattern := map (fun w => [Lit w]) l.

(** Alternation of two patterns. *)
Definition alt (p q : pattern) : pattern := app p q.
Infix "<|>" := alt (at level 60, right associativity).

(** *** Numbers and [parseFloat]

    A JavaScript number is kept as the decimal it was read from:
    [Dec neg m e] stands for (-1)^neg * m * 10^e.  Rounding to binary64
    is not modelled; the service only asks whether the number is NaN. *)

Inductive jsnum : Type :=
| NaN
| Infinity (neg : bool)
| Dec (neg : bool) (m : N) (e : Z).

Definition isNaN (x : jsnum) : bool :=
  match x with NaN => true | _ => false end.

(** Finite and strictly positive. *)
Definition is_positive (x : jsnum) : bool :=
  match x with
  | Dec false m _ => negb (N.eqb m 0)
  | _ => false
  end.

(** Whether the number, as a double, is finite.  The decimal
    m * 10^e rounds to an infinity exactly when it reaches
    2^1024 - 2^970, half a unit in the last place above the largest
    double. *)
Definition overflow_threshold : Z := (2 ^ 1024 - 2 ^ 970)%Z.

Definition is_finite (x : jsnum) : bool :=
  match x with
  | NaN => false
  | Infinity _ => false
  | Dec _ m e =>
      if (0 <=? e)%Z then (Z.of_N m * 10 ^ e <? overflow_threshold)%Z
      else (Z.of_N m <? overflow_threshold * 10 ^ (- e))%Z
  end.

Definition digit_val (c : ascii) : N := N.of_nat (nat_of_ascii c - 48).

(** Reads the longest run of decimal digits: its value on top of [acc],
    how many digits were read, and the rest of the string. *)
Fixpoint read_digits (s : string) (acc : N) (count : nat)
  : N * nat * string :=
  match s with
  | String c r =>
      if is_digit c then read_digits r (acc * 10 + digit_val c)%N (S count)
      else (acc, count, s)
  | EmptyString => (acc, count, s)
  end.

Definition read_sign (s : string) : bool * string :=
  match s with
  | String "-" r => (true, r)
  | String "+" r => (false, r)
  | _ => (false, s)
  end.

(** The optional ExponentPart: [e] or [E], an optional sign and at
    least one digit; anything shorter is not part of the literal. *)
Definition read_exponent (s : string) : Z :=
  match s with
  | String c r =>
      if (nat_of_ascii c =? 101)%nat || (nat_of_ascii c =? 69)%nat then
        let '(neg, r1) := read_sign r in
        let '(v, n, _) := read_digits r1 0%N 0 in
        match n with
        | O => 0%Z
        | S _ => if neg then (- Z.of_N v)%Z else Z.of_N v
        end
      else 0%Z
  | EmptyString => 0%Z
  end.

(** [parseFloat]: leading white space is skipped, then the longest
    prefix that is a StrDecimalLiteral is read; no such prefix gives
    NaN. *)
Definition parseFloat (input : string) : jsnum :=
  let '(neg, s1) := read_sign (trimStart input) in
  if prefix "Infinity" s1 then Infinity neg
  else
    let '(ip, ni, s2) := read_digits s1 0%N 0 in
    let '(m, nf, s3) :=
      match s2 with
      | String "." r =>
          let '(v, n, r') := read_digits r ip 0 in (v, n, r')
      | _ => (ip, O, s2)
      end in
    match ni, nf with
    | O, O => NaN
    | _, _ => Dec neg m (read_exponent s3 - Z.of_nat nf)
    end.

End JsString.

(* ===================================================================== *)
(** ** Commodity classifier *)
(* ===================================================================== *)

Module Classifier.
Import JsString.

Definition p_farm_inputs : pattern := words ["fertilizer"].
Definition p_animal_feeds : pattern :=
  words ["sunflower cake"; "cotton seed cake"; "bran"; "pollard"].
Definition p_processed_products : pattern := words ["oil"; "cooking fat"].
Definition p_cash_crops : pattern :=
  words ["tea"; "coffee"; "cotton"; "macadamia"; "cashew"; "korosho";
         "sisal"; "pyrethrum"; "sunflower"].
Definition p_livestock : pattern :=
  words ["donkey"; "cattle"; "cow"; "bull"; "goat"; "sheep"; "camel";
         "pig"; "livestock"; "heifer"; "steer"; "rabbit"].
Definition p_poultry : pattern :=
  words ["chicken"; "poultry"; "turkey"; "duck"; "geese"; "hen"].
Definition p_fisheries : pattern :=
  words ["fish"; "tilapia"; "omena"; "nile perch"; "catfish"; "mudfish";
         "haplochromis"; "trout"; "carp"; "protopterus"; "bass"; "labeo";
         "mormyrus"; "eel"; "synodontis"; "alestes"; "barbus"; "snapper";
         "demersal"; "barracuda"; "kasumba"; "tuna"; "mackerel"; "shark";
         "sardine"; "lobster"; "kamba"; "prawn"; "crab"; "kaa"; "shrimp";
         "octopus"; "pweza"; "squid"; "ngisi"; "oyster"; "scavenger";
         "changu"; "tangu"; "grouper"; "grunt"; "taamamba"; "kora";
         "mullet"; "fumi"; "threadfin"; "bream"; "jack"; "trevally";
         "kolekole"; "halfbeak"; "anchov"; "herring"; "marlin"; "pelagic";
         "rockcode"; "tewa"].
Definition p_animal_products : pattern :=
  words ["egg"; "milk"; "honey"; "beef"; "mutton"; "pork"; "meat"].
Definition p_cereals : pattern :=
  words ["maize"; "rice"; "wheat"; "sorghum"; "millet"; "barley"; "oat";
         "cereal"].
Definition p_legumes : pattern :=
  words ["bean"; "pea"; "gram"; "cowpea"; "lentil"; "njahi"; "dolichos";
         "pulse"; "soya"]
  <|> [[Lit "ground"; OptSpace; Lit "nut"]]
  <|> words ["peanut"; "njugu mawe"].
Definition p_roots_tubers : pattern :=
  words ["potato"; "cassava"; "yam"; "arrow root"; "sweet potato";
         "cocoyam"; "tuber"].
Definition p_fruits : pattern :=
  words ["banana"; "mango"; "orange"; "pineapple"; "pawpaw"; "watermelon";
         "avocado"; "passion"; "lemon"; "lime"; "tangerine"; "guava";
         "jackfruit"; "berry"; "berries"; "melon"; "grape"; "apple"]
  <|> [[Lit "dragon"; OptSpace; Lit "fruit"]]
  <|> words ["coconut"].
Definition p_vegetables : pattern :=
  words ["tomato"; "kales"; "sukuma"; "cabbage"; "onion"; "spinach";
         "carrot"; "pepper"; "chilli"; "brinjal"; "lettuce"; "managu";
         "terere"; "vegetable"; "broccoli"; "cauliflower"; "cucumber";
         "kunda"; "mrenda"]
  <|> [[Lit "spider"; OptSpace; Lit "flower"]]
  <|> words ["saga"; "jute"; "pumpkin"; "butternut"; "capsicum";
            "crotolaria"; "mito"; "miro"; "courgette"; "okra"; "gumbo"]
  <|> [[Lit "lady's"; OptSpace; Lit "finger"]].
Definition p_spices_herbs : pattern :=
  words ["ginger"; "garlic"; "coriander"; "dhania"; "chives"; "turmeric";
         "pepper"; "chilies"].

(** [categorizeCrop], lines 23-42: a chain of early returns. *)
Definition categorizeCrop (commodityName : string) : string :=
  let lowerName := toLowerCase commodityName in
  if js_match p_farm_inputs lowerName then "farm_inputs"
  else if js_match p_animal_feeds lowerName then "animal_feeds"
  else if js_match p_processed_products lowerName then "processed_products"
  else if js_match p_cash_crops lowerName then "cash_crops"
  else if js_match p_livestock lowerName then "livestock"
  else if js_match p_poultry lowerName then "poultry"
  else if js_match p_fisheries lowerName then "fisheries"
  else if js_match p_animal_products lowerName then "animal_products"
  else if js_match p_cereals lowerName then "cereals"
  else if js_match p_legumes lowerName then "legumes"
  else if js_match p_roots_tubers lowerName then "roots_tubers"
  else if js_match p_fruits lowerName then "fruits"
  else if js_match p_vegetables lowerName then "vegetables"
  else if js_match p_spices_herbs lowerName then "spices_herbs"
  else "general".

Definition p_litre : pattern :=
  words ["milk"; "oil"; "juice"; "honey"; "yoghurt"].
Definition p_tray : pattern := words ["egg"].
Definition p_piece : pattern :=
  words ["timber"; "post"; "pole"; "pineapple"; "watermelon"; "coconut";
         "pumpkin"; "butternut"; "cabbage"].

(** [determineUnit], lines 44-52. *)
Definition determineUnit (category commodityName : string) : string :=
  let lowerName := toLowerCase commodityName in
  if String.eqb category "livestock" then "head"
  else if String.eqb category "poultry" then "bird"
  else if js_match p_litre lowerName then "litre"
  else if js_match p_tray lowerName then "tray"
  else if js_match p_piece lowerName then "piece"
  else "kg".

(** The same classifier read as the specification words it: an ordered
    list of (pattern, category) rules, the first match deciding. *)
Definition rules : list (pattern * string) :=
  [ (p_farm_inputs, "farm_inputs");
    (p_animal_feeds, "animal_feeds");
    (p_processed_products, "processed_products");
    (p_cash_crops, "cash_crops");
    (p_livestock, "livestock");
    (p_poultry, "poultry");
    (p_fisheries, "fisheries");
    (p_animal_products, "animal_products");
    (p_cereals, "cereals");
    (p_legumes, "legumes");
    (p_roots_tubers, "roots_tubers");
    (p_fruits, "fruits");
    (p_vegetables, "vegetables");
    (p_spices_herbs, "spices_herbs") ].

Fixpoint first_match (rs : list (pattern * string)) (lowered : string)
  : string :=
  match rs with
  | [] => "general"
  | (p, cat) :: rs' =>
      if js_match p lowered then cat else first_match rs' lowered
  end.

End Classifier.

(* ===================================================================== *)
(** ** Dates *)
(* ===================================================================== *)

Module JsDate.
Local Open Scope Z_scope.

(** A [Date] object is its time value in milliseconds since the epoch;
    [None] is the Invalid Date (time value NaN). *)
Definition date : Type := option Z.

Definition msPerDay : Z := 86400000.
Definition max_time : Z := 8640000000000000.

(** The calendar date of a time value in UTC, in days since the epoch:
    what a DATE column keeps of it. *)
Definition utc_date (t : Z) : Z := t / msPerDay.

Definition time_clip (t : Z) : date :=
  if Z.abs t <=? max_time then Some t else None.

(** [new Date(s)] for a string [s], given the host's [Date.parse]. *)
Definition new_Date_of_string (date_parse : string -> option Z)
    (s : string) : date :=
  match date_parse s with
  | Some t => time_clip t
  | None => None
  end.

(** [d.setHours(h, m, s, ms)] in a host whose local time is UTC plus a
    constant [tz] milliseconds. *)
Definition setHours (tz : Z) (d : date) (h m s ms : Z) : date :=
  match d with
  | None => None
  | Some t =>
      let day := (t + tz) / msPerDay in
      time_clip (day * msPerDay
                 + (h * 3600000 + m * 60000 + s * 1000 + ms) - tz)
  end.

(** [d.setDate(d.getDate() - n)] in the same host: the same local
    time of day, [n] days earlier. *)
Definition setDate_back (tz : Z) (d : date) (n : Z) : date :=
  match d with
  | None => None
  | Some t => time_clip ((t + tz) - n * msPerDay - tz)
  end.

(** *** A [Date.parse] for the date-only ISO form

    ECMAScript fixes [YYYY-MM-DD] as midnight UTC of that day; what
    other strings parse to is left to the host.  This instance reads
    the date-only form and nothing else. *)

Definition digit (c : ascii) : option Z :=
  if JsString.is_digit c then Some (Z.of_nat (nat_of_ascii c) - 48)
  else None.

Definition is_leap (y : Z) : bool :=
  ((y mod 4 =? 0) && negb (y mod 100 =? 0)) || (y mod 400 =? 0).

Definition days_in_month (y m : Z) : Z :=
  if m =? 2 then (if is_leap y then 29 else 28)
  else if (m =? 4) || (m =? 6) || (m =? 9) || (m =? 11) then 30
  else 31.

(** Days from 1970-01-01 to the civil date [y]-[m]-[d]. *)
Definition days_from_civil (y m d : Z) : Z :=
  let y' := if m <=? 2 then y - 1 else y in
  let era := y' / 400 in
  let yoe := y' - era * 400 in
  let mp := (m + 9) mod 12 in
  let doy := (153 * mp + 2) / 5 + d - 1 in
  let doe := yoe * 365 + yoe / 4 - yoe / 100 + doy in
  era * 146097 + doe - 719468.

Definition iso_date_only (s : string) : option Z :=
  match s with
  | String y1 (String y2 (String y3 (String y4 (String "-"
      (String m1 (String m2 (String "-"
        (String d1 (String d2 EmptyString))))))))) =>
      match digit y1, digit y2, digit y3, digit y4,
            digit m1, digit m2, digit d1, digit d2 with
      | Some a, Some b, Some c, Some d, Some e, Some f, Some g, Some h =>
          let y := a * 1000 + b * 100 + c * 10 + d in
          let m := e * 10 + f in
          let dd := g * 10 + h in
          if (1 <=? m) && (m <=? 12) && (1 <=? dd)
             && (dd <=? days_in_month y m)
          then Some (days_from_civil y m dd * msPerDay)
          else None
      | _, _, _, _, _, _, _, _ => None
      end
  | _ => None
  end.

End JsDate.

(* ===================================================================== *)
(** ** The store: tables, Prisma calls and the transaction *)
(* ===================================================================== *)

Module Store.
Import JsString JsDate.

(** A thrown value: Prisma's error code, when it has one, and the
    [message] the service reads. *)
Record JsError : Type := mkError {
  code : option string;
  message : string
}.

(** Rows of the tables of [prisma/migrations/0_init/migration.sql],
    with the columns the service reads or writes.  Identifiers are
    naturals handed out by a counter. *)
Record crop : Type := mkCrop {
  crop_id : nat;
  crop_name : string;
  crop_category : string;
  crop_unit : string;
  crop_is_active : bool
}.

Record region : Type := mkRegion {
  region_id : nat;
  region_name : string;
  region_code : string;
  region_is_active : bool
}.

Record market : Type := mkMarket {
  market_id : nat;
  market_name : string;
  market_region_id : nat;
  market_is_active : bool
}.

Record price_entry : Type := mkPriceEntry {
  pe_id : nat;
  pe_crop_id : nat;
  pe_region_id : nat;
  pe_market_id : option nat;
  pe_price : jsnum;
  pe_entry_date : Z;
  pe_source : string;
  pe_is_verified : bool;
  pe_unit : string
}.

Record sync_log : Type := mkSyncLog {
  log_id : nat;
  log_sync_date : date;
  log_records_processed : nat;
  log_records_inserted : nat;
  log_records_updated : nat;
  log_status : string;
  log_error_message : option string;
  log_started_at : date;
  log_completed_at : option date
}.

(** Of [sms_logs] and [chat_conversations], the columns the clean-up
    reads.  [created_at] is in microseconds since the epoch; [None] is
    NULL. *)
Record sms_log : Type := mkSmsLog {
  sms_id : nat;
  sms_created_at : option Z
}.

Record chat_conversation : Type := mkChat {
  chat_id : nat;
  chat_user_id : option nat;
  chat_created_at : option Z
}.

(** Tables are lists in insertion order; [findFirst] without an
    [orderBy] returns the earliest matching row. *)
Record DB : Type := mkDB {
  crops : list crop;
  regions : list region;
  markets : list market;
  price_entries : list price_entry;
  kamis_sync_logs : list sync_log;
  sms_logs : list sms_log;
  chat_conversations : list chat_conversation
}.

(** What the surroundings decide during a run: which statement sent
    through the transaction client ([tx_fault]) or through the global
    client ([prisma_fault]) is rejected and with what error (a
    constraint violation, a storage fault), whether the transaction
    itself is rejected at its boundary ([commit_fault]: the timeout
    elapsed, the commit failed), and what the clock reads. *)
Record Env : Type := mkEnv {
  tx_fault : nat -> option JsError;
  prisma_fault : nat -> option JsError;
  commit_fault : option JsError;
  clock : nat -> Z
}.

(** The state a run threads: the database, the identifier counter, the
    positions in the statement and clock sequences, the three counters
    local to the transaction callback, and whether the transaction in
    progress has been aborted by a rejected statement. *)
Record St : Type := mkSt {
  st_db : DB;
  st_next_id : nat;
  st_tx_ops : nat;
  st_prisma_ops : nat;
  st_reads : nat;
  insertedCount : nat;
  skippedCount : nat;
  errorCount : nat;
  st_aborted : bool
}.

Definition set_db (d : DB) (s : St) : St :=
  mkSt d (st_next_id s) (st_tx_ops s) (st_prisma_ops s) (st_reads s)
       (insertedCount s) (skippedCount s) (errorCount s) (st_aborted s).

Definition bump_id (s : St) : St :=
  mkSt (st_db s) (S (st_next_id s)) (st_tx_ops s) (st_prisma_ops s)
       (st_reads s) (insertedCount s) (skippedCount s) (errorCount s)
       (st_aborted s).

Definition bump_tx (s : St) : St :=
  mkSt (st_db s) (st_next_id s) (S (st_tx_ops s)) (st_prisma_ops s)
       (st_reads s) (insertedCount s) (skippedCount s) (errorCount s)
       (st_aborted s).

Definition bump_prisma (s : St) : St :=
  mkSt (st_db s) (st_next_id s) (st_tx_ops s) (S (st_prisma_ops s))
       (st_reads s) (insertedCount s) (skippedCount s) (errorCount s)
       (st_aborted s).

Definition bump_reads (s : St) : St :=
  mkSt (st_db s) (st_next_id s) (st_tx_ops s) (st_prisma_ops s)
       (S (st_reads s)) (insertedCount s) (skippedCount s) (errorCount s)
       (st_aborted s).

Definition set_counts (i k e : nat) (s : St) : St :=
  mkSt (st_db s) (st_next_id s) (st_tx_ops s) (st_prisma_ops s)
       (st_reads s) i k e (st_aborted s).

Definition set_aborted (b : bool) (s : St) : St :=
  mkSt (st_db s) (st_next_id s) (st_tx_ops s) (st_prisma_ops s)
       (st_reads s) (insertedCount s) (skippedCount s) (errorCount s) b.

(** *** The monad: state plus exceptions *)

Inductive result (A : Type) : Type :=
| Ok (a : A)
| Throw (e : JsError).
Arguments Ok {A} a.
Arguments Throw {A} e.

Definition M (A : Type) : Type := St -> result A * St.

Definition ret {A} (a : A) : M A := fun s => (Ok a, s).

Definition throw {A} (e : JsError) : M A := fun s => (Throw e, s).

Definition bind {A B} (m : M A) (k : A -> M B) : M B :=
  fun s =>
    match m s with
    | (Ok a, s') => k a s'
    | (Throw e, s') => (Throw e, s')
    end.

(** [try { m } catch (e) { h e }]: the handler runs in the state the
    body had reached. *)
Definition try_catch {A} (m : M A) (h : JsError -> M A) : M A :=
  fun s =>
    match m s with
    | (Ok a, s') => (Ok a, s')
    | (Throw e, s') => h e s'
    end.

Definition gets {A} (f : St -> A) : M A := fun s => (Ok (f s), s).
Definition modify (f : St -> St) : M unit := fun s => (Ok tt, f s).

Declare Scope kamis_scope.
Delimit Scope kamis_scope with kamis.
Notation "x <- m ;; k" := (bind m (fun x => k))
  (at level 61, m at next level, right associativity) : kamis_scope.
Notation "m ;; k" := (bind m (fun _ => k))
  (at level 61, right associativity) : kamis_scope.

(** Equality of two names ignoring case. *)
Definition eqb_ci (a b : string) : bool :=
  String.eqb (toLowerCase a) (toLowerCase b).

(** The escape character of a LIKE pattern. *)
Definition backslash : ascii := ascii_of_nat 92.

(** PostgreSQL's [text LIKE pattern]: [%] stands for any run of
    characters, [_] for any one character, a backslash makes the
    character after it stand for itself, and every other character
    stands for itself.  A pattern that ends in a lone backslash matches
    nothing; where PostgreSQL raises an error for it, the statement is
    one the environment rejects. *)
Fixpoint like (pattern : string) : string -> bool :=
  match pattern with
  | EmptyString =>
      fun text => match text with EmptyString => true | String _ _ => false end
  | String c p =>
      if Ascii.eqb c "%" then
        fix any_suffix (text : string) : bool :=
          like p text
          || match text with
             | EmptyString => false
             | String _ r => any_suffix r
             end
      else if Ascii.eqb c "_" then
        fun text =>
          match text with
          | String _ r => like p r
          | EmptyString => false
          end
      else if Ascii.eqb c backslash then
        match p with
        | String d p' =>
            fun text =>
              match text with
              | String x r => Ascii.eqb x d && like p' r
              | EmptyString => false
              end
        | EmptyString => fun _ => false
        end
      else
        fun text =>
          match text with
          | String x r => Ascii.eqb x c && like p r
          | EmptyString => false
          end
  end.

(** [{ equals: name, mode: 'insensitive' }] on a column holding
    [text]: [text ILIKE name], which lower-cases both sides and
    matches the name as a pattern. *)
Definition ilike (name text : string) : bool :=
  like (toLowerCase name) (toLowerCase text).

Definition opt_nat_eqb (a b : option nat) : bool :=
  match a, b with
  | Some x, Some y => Nat.eqb x y
  | None, None => true
  | _, _ => false
  end.

Definition add_crop (c : crop) (s : St) : St :=
  let d := st_db s in
  set_db (mkDB (crops d ++ [c]) (regions d) (markets d) (price_entries d)
               (kamis_sync_logs d) (sms_logs d) (chat_conversations d)) s.

Definition add_region (r : region) (s : St) : St :=
  let d := st_db s in
  set_db (mkDB (crops d) (regions d ++ [r]) (markets d) (price_entries d)
               (kamis_sync_logs d) (sms_logs d) (chat_conversations d)) s.

Definition add_market (m : market) (s : St) : St :=
  let d := st_db s in
  set_db (mkDB (crops d) (regions d) (markets d ++ [m]) (price_entries d)
               (kamis_sync_logs d) (sms_logs d) (chat_conversations d)) s.

Definition add_price_entry (p : price_entry) (s : St) : St :=
  let d := st_db s in
  set_db (mkDB (crops d) (regions d) (markets d) (price_entries d ++ [p])
               (kamis_sync_logs d) (sms_logs d) (chat_conversations d)) s.

Definition add_sync_log (l : sync_log) (s : St) : St :=
  let d := st_db s in
  set_db (mkDB (crops d) (regions d) (markets d) (price_entries d)
               (kamis_sync_logs d ++ [l]) (sms_logs d) (chat_conversations d))
         s.

Definition set_sync_logs (ls : list sync_log) (s : St) : St :=
  let d := st_db s in
  set_db (mkDB (crops d) (regions d) (markets d) (price_entries d) ls
               (sms_logs d) (chat_conversations d)) s.

Definition set_sms_logs (ls : list sms_log) (s : St) : St :=
  let d := st_db s in
  set_db (mkDB (crops d) (regions d) (markets d) (price_entries d)
               (kamis_sync_logs d) ls (chat_conversations d)) s.

Definition set_chat_conversations (cs : list chat_conversation) (s : St)
  : St :=
  let d := st_db s in
  set_db (mkDB (crops d) (regions d) (markets d) (price_entries d)
               (kamis_sync_logs d) (sms_logs d) cs) s.

(** [created_at < t] for a TIMESTAMPTZ(6) column and a [Date] with time
    value [t]; a NULL [created_at] satisfies no comparison. *)
Definition created_before (t : Z) (created_at : option Z) : bool :=
  match created_at with
  | Some c => (c <? t * 1000)%Z
  | None => false
  end.

Definition is_null {A} (o : option A) : bool :=
  match o with
  | None => true
  | Some _ => false
  end.

(** The client refuses an Invalid Date argument, or a number that is
    not finite, before it sends anything. *)
Definition invalid_date_error : JsError :=
  mkError None "Provided Date object is invalid".

Definition invalid_number_error : JsError :=
  mkError None "Provided number is not finite".

(** What PostgreSQL answers to a statement inside a transaction that an
    earlier rejected statement has aborted. *)
Definition transaction_aborted : JsError :=
  mkError None
    "current transaction is aborted, commands ignored until end of transaction block".

(** [update] on a row that does not exist. *)
Definition record_not_found : JsError :=
  mkError (Some "P2025") "Record to update not found".

(** The [where] clauses of the four [findFirst] calls, on a table. *)
Definition lookup_crop (name : string) (l : list crop) : option nat :=
  option_map crop_id (find (fun c => ilike name (crop_name c)) l).

Definition lookup_region (name : string) (l : list region) : option nat :=
  option_map region_id (find (fun r => ilike name (region_name r)) l).

Definition lookup_market (name : string) (regionId : nat) (l : list market)
  : option nat :=
  option_map market_id
    (find (fun m => ilike name (market_name m)
                    && Nat.eqb (market_region_id m) regionId) l).

(** [entry_date: { gte, lte }] on the DATE column: the row's calendar
    date lies between the calendar dates of the two bounds. *)
Definition same_key_in_window (cropId regionId : nat)
    (marketId : option nat) (gte lte : Z) (p : price_entry) : bool :=
  Nat.eqb (pe_crop_id p) cropId
  && Nat.eqb (pe_region_id p) regionId
  && opt_nat_eqb (pe_market_id p) marketId
  && (utc_date gte <=? utc_date (pe_entry_date p))%Z
  && (utc_date (pe_entry_date p) <=? utc_date lte)%Z.

Definition lookup_fact (cropId regionId : nat) (marketId : option nat)
    (gte lte : Z) (l : list price_entry) : option nat :=
  option_map pe_id
    (find (same_key_in_window cropId regionId marketId gte lte) l).

(** [orderBy: { started_at: 'desc' }]: Postgres sorts NULL first in a
    descending order.  [date_ltb a b] says that [a] comes strictly after
    [b] in that order. *)
Definition date_ltb (a b : date) : bool :=
  match a, b with
  | Some x, Some y => (x <? y)%Z
  | Some _, None => true
  | None, _ => false
  end.

(** The first row of the table in descending [started_at] order; among
    rows that tie, the earliest in the table. *)
Fixpoint latest_log (l : list sync_log) : option sync_log :=
  match l with
  | [] => None
  | x :: r =>
      match latest_log r with
      | Some y =>
          if date_ltb (log_started_at x) (log_started_at y) then Some y
          else Some x
      | None => Some x
      end
  end.

(** The whole table in descending [started_at] order, rows that tie in
    table order. *)
Fixpoint insert_desc (x : sync_log) (l : list sync_log) : list sync_log :=
  match l with
  | [] => [x]
  | y :: r =>
      if date_ltb (log_started_at x) (log_started_at y)
      then y :: insert_desc x r
      else x :: l
  end.

Fixpoint sort_desc (l : list sync_log) : list sync_log :=
  match l with
  | [] => []
  | x :: r => insert_desc x (sort_desc r)
  end.

Section Run.
Variable env : Env.

(** A statement sent through the transaction client.  In an aborted
    transaction it is rejected whatever it is; a statement the database
    rejects aborts the transaction. *)
Definition tx_call {A} (q : M A) : M A :=
  fun s =>
    if st_aborted s then (Throw transaction_aborted, bump_tx s)
    else
      match tx_fault env (st_tx_ops s) with
      | Some e => (Throw e, set_aborted true (bump_tx s))
      | None => q (bump_tx s)
      end.

(** A statement sent through the global client. *)
Definition prisma_call {A} (q : M A) : M A :=
  fun s =>
    match prisma_fault env (st_prisma_ops s) with
    | Some e => (Throw e, bump_prisma s)
    | None => q (bump_prisma s)
    end.

(** [new Date()] *)
Definition new_Date : M date :=
  fun s => (Ok (time_clip (clock env (st_reads s))), bump_reads s).

Definition crops_findFirst (name : string) : M (option nat) :=
  tx_call (gets (fun s => lookup_crop name (crops (st_db s)))).

Definition crops_create (name category unit : string) : M nat :=
  tx_call (fun s =>
    let id := st_next_id s in
    (Ok id, add_crop (mkCrop id name category unit true) (bump_id s))).

Definition regions_findFirst (name : string) : M (option nat) :=
  tx_call (gets (fun s => lookup_region name (regions (st_db s)))).

Definition regions_create (name code : string) : M nat :=
  tx_call (fun s =>
    let id := st_next_id s in
    (Ok id, add_region (mkRegion id name code true) (bump_id s))).

Definition markets_findFirst (name : string) (regionId : nat)
  : M (option nat) :=
  tx_call (gets (fun s => lookup_market name regionId (markets (st_db s)))).

Definition markets_create (name : string) (regionId : nat) : M nat :=
  tx_call (fun s =>
    let id := st_next_id s in
    (Ok id, add_market (mkMarket id name regionId true) (bump_id s))).

Definition price_entries_findFirst (cropId regionId : nat)
    (marketId : option nat) (gte lte : date) : M (option nat) :=
  match gte, lte with
  | Some a, Some b =>
      tx_call (gets (fun s =>
        lookup_fact cropId regionId marketId a b (price_entries (st_db s))))
  | _, _ => throw invalid_date_error
  end.

Definition price_entries_create (cropId regionId : nat)
    (marketId : option nat) (price : jsnum) (entry_date : date)
    (source : string) (is_verified : bool) (unit : string) : M nat :=
  match entry_date with
  | Some t =>
      if is_finite price then
        tx_call (fun s =>
          let id := st_next_id s in
          (Ok id,
           add_price_entry
             (mkPriceEntry id cropId regionId marketId price t source
                           is_verified unit)
             (bump_id s)))
      else throw invalid_number_error
  | None => throw invalid_date_error
  end.

Definition kamis_sync_logs_create (status : string)
    (started_at sync_date : date) : M nat :=
  prisma_call (fun s =>
    let id := st_next_id s in
    (Ok id,
     add_sync_log
       (mkSyncLog id sync_date 0 0 0 status None started_at None)
       (bump_id s))).

Definition kamis_sync_logs_update (id processed inserted updated : nat)
    (status : string) (error_message : option string)
    (completed_at : date) : M unit :=
  prisma_call (fun s =>
    let logs := kamis_sync_logs (st_db s) in
    if existsb (fun l => Nat.eqb (log_id l) id) logs then
      (Ok tt,
       set_sync_logs
         (map (fun l =>
                 if Nat.eqb (log_id l) id then
                   mkSyncLog (log_id l) (log_sync_date l) processed
                             inserted updated status error_message
                             (log_started_at l) (Some completed_at)
                 else l) logs) s)
    else (Throw record_not_found, s)).

(** [findMany({ select: { id: true }, orderBy: { started_at: 'desc' },
    take })]: the ids of the first [take] rows in descending order. *)
Definition kamis_sync_logs_findMany_ids (take : nat) : M (list nat) :=
  prisma_call (gets (fun s =>
    map log_id (firstn take (sort_desc (kamis_sync_logs (st_db s)))))).

(** [deleteMany({ where: { id: { notIn: ids } } })] *)
Definition kamis_sync_logs_deleteMany_notIn (ids : list nat) : M unit :=
  prisma_call (modify (fun s =>
    set_sync_logs
      (filter (fun l => existsb (Nat.eqb (log_id l)) ids)
              (kamis_sync_logs (st_db s))) s)).

(** [prisma.sms_logs.deleteMany({ where: { created_at: { lt } } })] *)
Definition sms_logs_deleteMany_lt (lt : date) : M unit :=
  match lt with
  | Some t =>
      prisma_call (modify (fun s =>
        set_sms_logs
          (filter (fun l => negb (created_before t (sms_created_at l)))
                  (sms_logs (st_db s))) s))
  | None => throw invalid_date_error
  end.

(** [prisma.chat_conversations.deleteMany({ where: { user_id: null,
    created_at: { lt } } })] *)
Definition chat_conversations_deleteMany_anonymous_lt (lt : date)
  : M unit :=
  match lt with
  | Some t =>
      prisma_call (modify (fun s =>
        set_chat_conversations
          (filter (fun c => negb (is_null (chat_user_id c)
                                  && created_before t (chat_created_at c)))
                  (chat_conversations (st_db s))) s))
  | None => throw invalid_date_error
  end.

(** [prisma.kamis_sync_logs.findFirst({ orderBy: { started_at: 'desc' } })] *)
Definition kamis_sync_logs_findFirst : M (option sync_log) :=
  prisma_call (gets (fun s => latest_log (kamis_sync_logs (st_db s)))).

(** [prisma.$transaction(cb, { timeout })]: the callback's writes
    reach the database only if the callback returns, the transaction is
    not rejected at its boundary and no statement was rejected inside
    it; otherwise the database is as it was when the transaction
    began.  The commit of an aborted transaction rolls back without an
    error, so the callback's value is still returned. *)
Definition transaction {A} (cb : M A) : M A :=
  fun s =>
    match cb (set_aborted false s) with
    | (Ok a, s') =>
        match commit_fault env with
        | Some e => (Throw e, set_aborted false (set_db (st_db s) s'))
        | None =>
            if st_aborted s'
            then (Ok a, set_aborted false (set_db (st_db s) s'))
            else (Ok a, s')
        end
    | (Throw e, s') => (Throw e, set_aborted false (set_db (st_db s) s'))
    end.

End Run.

End Store.

(* ===================================================================== *)
(** ** The ingestion service *)
(* ===================================================================== *)

Module Kamis.
Import JsString Classifier JsDate Store.
Local Open Scope kamis_scope.

(** *** Rows

    A parsed row is an object whose properties are listed in
    [Object.keys] order; a cell is a string, or [null] for an empty
    spreadsheet cell ([defval: null]). *)

Inductive jsval : Type :=
| JNull
| JStr (s : string).

Definition object : Type := list (string * jsval).

(** [o[k]] for a key that [Object.prototype] does not define, as are
    all the keys the service reads: the own property, [None] for
    [undefined]. *)
Fixpoint get_prop (o : object) (k : string) : option jsval :=
  match o with
  | [] => None
  | (k', v) :: o' => if String.eqb k' k then Some v else get_prop o' k
  end.

(** An own property replaced in place, or added last. *)
Fixpoint define_prop (o : object) (k : string) (v : jsval) : object :=
  match o with
  | [] => [(k, v)]
  | (k', v') :: o' =>
      if String.eqb k' k then (k', v) :: o'
      else (k', v') :: define_prop o' k v
  end.

(** [o[k] = v].  The key [__proto__] goes to the accessor that
    [Object.prototype] defines: no own property is stored. *)
Definition set_prop (o : object) (k : string) (v : jsval) : object :=
  if String.eqb k "__proto__" then o else define_prop o k v.

(** The keys the service reads from a row, lines 131-138. *)
Definition service_keys : list string :=
  ["crop"; "crop_name"; "commodity"; "crop name"; "productname";
   "region"; "region_name"; "county"; "district";
   "market"; "market_name"; "market name";
   "price"; "unit price"; "wholesale"; "retail";
   "entry_date"; "date"].

(** Lines 126-129: the row re-keyed by lower-cased, trimmed header. *)
Definition normalize (rawRow : object) : object :=
  fold_left
    (fun row kv => set_prop row (trim (toLowerCase (fst kv))) (snd kv))
            rawRow [].

(** [a || b || ...]: the first truthy operand, if any.  A cell is
    truthy when it is a non-empty string. *)
Fixpoint first_truthy (vs : list (option jsval)) : option string :=
  match vs with
  | [] => None
  | Some (JStr s) :: vs' => if nonempty s then Some s else first_truthy vs'
  | _ :: vs' => first_truthy vs'
  end.

Definition or_empty (o : option string) : string :=
  match o with Some s => s | None => "" end.

Definition nullish (v : option jsval) : bool :=
  match v with Some (JStr _) => false | _ => true end.

(** [a ?? b] *)
Definition coalesce (a b : option jsval) : option jsval :=
  if nullish a then b else a.

(** [String(v)] *)
Definition js_String (v : option jsval) : string :=
  match v with
  | None => "undefined"
  | Some JNull => "null"
  | Some (JStr s) => s
  end.

(** Lines 131-136: field extraction through the header aliases. *)
Definition cropName_of (row : object) : string :=
  trim (or_empty (first_truthy
    [get_prop row "crop"; get_prop row "crop_name"; get_prop row "commodity";
     get_prop row "crop name"; get_prop row "productname"])).

Definition regionName_of (row : object) : string :=
  trim (or_empty (first_truthy
    [get_prop row "region"; get_prop row "region_name"; get_prop row "county";
     get_prop row "district"])).

Definition marketName_of (row : object) : string :=
  trim (or_empty (first_truthy
    [get_prop row "market"; get_prop row "market_name"; get_prop row "market name"])).

Definition priceRaw_of (row : object) : option jsval :=
  coalesce (coalesce (coalesce (get_prop row "price") (get_prop row "unit price"))
                     (get_prop row "wholesale"))
           (get_prop row "retail").

Definition priceVal_of (row : object) : jsnum :=
  parseFloat (remove_commas (js_String (priceRaw_of row))).

(** Line 138 without its last operand. *)
Definition dateField_of (row : object) : option string :=
  first_truthy [get_prop row "entry_date"; get_prop row "date"; get_prop row "date"].

(** Line 141. *)
Definition fails_validation (cropName regionName : string)
    (priceVal : jsnum) : bool :=
  negb (nonempty cropName) || negb (nonempty regionName) || isNaN priceVal.

Record aggregate : Type := mkAggregate {
  inserted : nat;
  skipped : nat;
  errors : nat;
  total_rows : nat
}.

Record sync_result : Type := mkSyncResult {
  records_synced : nat;
  details : aggregate
}.

(** What [getKamisSyncStatus] returns; [last_sync] is [None] for
    [null]. *)
Record sync_status : Type := mkSyncStatus {
  last_sync : date;
  status_records_synced : nat;
  is_active : bool
}.

(** What the parser libraries make of the bytes: rows, or a failure
    whose text is [String(err)]. *)
Inductive parse_result : Type :=
| ParseFailed (err : string)
| Parsed (rows : list object).

Definition incr_inserted : M unit :=
  modify (fun s => set_counts (S (insertedCount s)) (skippedCount s)
                              (errorCount s) s).
Definition incr_skipped : M unit :=
  modify (fun s => set_counts (insertedCount s) (S (skippedCount s))
                              (errorCount s) s).
Definition incr_errors : M unit :=
  modify (fun s => set_counts (insertedCount s) (skippedCount s)
                              (S (errorCount s)) s).

Section Host.
(** The host's [Date.parse] ([None] for NaN) and its local-time
    offset from UTC in milliseconds. *)
Variable date_parse : string -> option Z.
Variable tz : Z.

Section Run.
Variable env : Env.

(** Lines 146-161. *)
Definition resolveCrop (cropName : string) : M nat :=
  cropRes <- crops_findFirst env cropName ;;
  match cropRes with
  | Some id => ret id
  | None =>
      let cat := categorizeCrop cropName in
      let unit := determineUnit cat cropName in
      crops_create env cropName cat unit
  end.

(** Lines 163-180. *)
Definition resolveRegion (regionName : string) : M nat :=
  regionRes <- regions_findFirst env regionName ;;
  match regionRes with
  | Some id => ret id
  | None =>
      regions_create env regionName
        (spaces_to_underscores (toUpperCase regionName))
  end.

(** Lines 182-200. *)
Definition resolveMarket (marketName : string) (regionId : nat)
  : M (option nat) :=
  if nonempty marketName then
    marketRes <- markets_findFirst env marketName regionId ;;
    match marketRes with
    | Some id => ret (Some id)
    | None =>
        id <- markets_create env marketName regionId ;;
        ret (Some id)
    end
  else ret None.

(** Lines 138-139: [new Date(dateRaw)], reading the clock only
    when the row has no date. *)
Definition entryDate_of (row : object) : M date :=
  match dateField_of row with
  | Some s => ret (new_Date_of_string date_parse s)
  | None => new_Date env
  end.

(** Lines 202-234: the same-day duplicate check and the insert. *)
Definition insertUnlessDuplicate (cropId regionId : nat)
    (marketId : option nat) (priceVal : jsnum) (entryDate : date) : M unit :=
  let startOfDay := setHours tz entryDate 0 0 0 0 in
  let endOfDay := setHours tz entryDate 23 59 59 999 in
  dupCheck <- price_entries_findFirst env cropId regionId marketId
                startOfDay endOfDay ;;
  match dupCheck with
  | None =>
      _ <- price_entries_create env cropId regionId marketId
             priceVal entryDate "kamis" true "kg" ;;
      incr_inserted
  | Some _ => incr_skipped
  end.

(** Lines 126-234: the body of the per-row [try]. *)
Definition row_body (rawRow : object) : M unit :=
  let row := normalize rawRow in
  let cropName := cropName_of row in
  let regionName := regionName_of row in
  let marketName := marketName_of row in
  let priceVal := priceVal_of row in
  entryDate <- entryDate_of row ;;
  if fails_validation cropName regionName priceVal then incr_skipped
  else
    cropId <- resolveCrop cropName ;;
    regionId <- resolveRegion regionName ;;
    marketId <- resolveMarket marketName regionId ;;
    insertUnlessDuplicate cropId regionId marketId priceVal entryDate.

(** Lines 125-239: one iteration of the loop. *)
Definition processRow (rawRow : object) : M unit :=
  try_catch (row_body rawRow) (fun _ => incr_errors).

Fixpoint for_rows (rows : list object) : M unit :=
  match rows with
  | [] => ret tt
  | rawRow :: rest => processRow rawRow ;; for_rows rest
  end.

(** Lines 119-247: the transaction callback. *)
Definition tx_callback (rows : list object) : M aggregate :=
  modify (set_counts 0 0 0) ;;
  for_rows rows ;;
  gets (fun s => mkAggregate (insertedCount s) (skippedCount s)
                             (errorCount s) (List.length rows)).

(** Lines 94-251. *)
Definition processKamisFile (parsed : parse_result) : M aggregate :=
  match parsed with
  | ParseFailed err =>
      throw (mkError None ("Failed to parse file: " ++ err))
  | Parsed rows => transaction env (tx_callback rows)
  end.

(** Lines 254-263. *)
Definition startSyncLog : M nat :=
  started_at <- new_Date env ;;
  sync_date <- new_Date env ;;
  kamis_sync_logs_create env "running" started_at sync_date.

(** Lines 265-277; [errorMessage || null] turns an absent or empty
    message into [null]. *)
Definition updateSyncLog (id processed inserted updated : nat)
    (status : string) (errorMessage : option string) : M unit :=
  completed_at <- new_Date env ;;
  kamis_sync_logs_update env id processed inserted updated status
    (match errorMessage with
     | Some m => if nonempty m then Some m else None
     | None => None
     end)
    completed_at.

(** Lines 55-92.  [latest] is what the scraper left behind: no
    file, or a file and what the parsers make of it; [LATEST_FILE]
    is the file's path. *)
Definition syncKamisData (LATEST_FILE : string)
    (latest : option parse_result) : M sync_result :=
  syncId <- startSyncLog ;;
  try_catch
    (parsed <- match latest with
               | None =>
                   throw (mkError None
                     ("Scraper finished but no output file found at "
                      ++ LATEST_FILE))
               | Some p => ret p
               end ;;
     result <- processKamisFile parsed ;;
     updateSyncLog syncId (total_rows result) (inserted result) 0
                   "completed" None ;;
     ret (mkSyncResult (inserted result) result))
    (fun error =>
       updateSyncLog syncId 0 0 0 "failed" (Some (message error)) ;;
       throw error).

(** Lines 279-295. *)
Definition getKamisSyncStatus : M sync_status :=
  try_catch
    (row <- kamis_sync_logs_findFirst env ;;
     match row with
     | None => ret (mkSyncStatus None 0 false)
     | Some r =>
         ret (mkSyncStatus (log_started_at r)
                (log_records_inserted r + log_records_updated r)
                (String.eqb (log_status r) "running"))
     end)
    (fun _ => ret (mkSyncStatus None 0 false)).

End Run.
End Host.

End Kamis.

(* ===================================================================== *)
(** ** The weekly clean-up of the cron service *)
(* ===================================================================== *)

Module Cron.
Import JsDate Store.
Local Open Scope kamis_scope.

Section Run.
Variable tz : Z.
Variable env : Env.

(** [cleanupOldLogs]: two cut-off dates are taken from the clock; SMS
    logs created before the first and anonymous chats created before
    the second are deleted; when the sync log holds at least a hundred
    rows all but the hundred most recent are deleted.  The statements
    are not in a transaction.  Whatever is thrown is logged and thrown
    again. *)
Definition cleanupOldLogs : M unit :=
  try_catch
    (now90 <- new_Date env ;;
     let ninetyDaysAgo := setDate_back tz now90 90 in
     now30 <- new_Date env ;;
     let thirtyDaysAgo := setDate_back tz now30 30 in
     sms_logs_deleteMany_lt env ninetyDaysAgo ;;
     chat_conversations_deleteMany_anonymous_lt env thirtyDaysAgo ;;
     idsToKeep <- kamis_sync_logs_findMany_ids env 100 ;;
     if Nat.eqb (List.length idsToKeep) 100
     then kamis_sync_logs_deleteMany_notIn env idsToKeep
     else ret tt)
    (fun error => throw error).

End Run.

End Cron.

(* ===================================================================== *)
(** ** Reasoning about runs *)
(* ===================================================================== *)

Import JsString Classifier JsDate Store Kamis Cron.
Local Open Scope kamis_scope.
Local Open Scope list_scope.

Arguments categorizeCrop : simpl never.
Arguments determineUnit : simpl never.
Arguments normalize : simpl never.
Arguments cropName_of : simpl never.
Arguments regionName_of : simpl never.
Arguments marketName_of : simpl never.
Arguments priceVal_of : simpl never.
Arguments dateField_of : simpl never.
Arguments setHours : simpl never.
Arguments time_clip : simpl never.
Arguments new_Date_of_string : simpl never.
Arguments eqb_ci : simpl never.
Arguments ilike : simpl never.
Arguments is_finite : simpl never.
Arguments utc_date : simpl never.
Arguments lookup_crop : simpl never.
Arguments lookup_region : simpl never.
Arguments lookup_market : simpl never.
Arguments lookup_fact : simpl never.
Arguments spaces_to_underscores : simpl never.
Arguments toUpperCase : simpl never.

(** [triple m s Q E]: run from [s], [m] either returns [a] in a state
    satisfying [Q a] or throws [e] in a state satisfying [E e]. *)
Definition triple {A} (m : M A) (s : St)
    (Q : A -> St -> Prop) (E : JsError -> St -> Prop) : Prop :=
  match m s with
  | (Ok a, s') => Q a s'
  | (Throw e, s') => E e s'
  end.

(** *** Counters *)

Definition counted (s : St) : nat :=
  insertedCount s + skippedCount s + errorCount s.

(** Exactly one of the three counters went up by one between [s] and
    [s']; the other two kept their value. *)
Definition one_counter_incremented (s s' : St) : Prop :=
  (insertedCount s' = S (insertedCount s)
   /\ skippedCount s' = skippedCount s /\ errorCount s' = errorCount s)
  \/ (insertedCount s' = insertedCount s
      /\ skippedCount s' = S (skippedCount s) /\ errorCount s' = errorCount s)
  \/ (insertedCount s' = insertedCount s
      /\ skippedCount s' = skippedCount s /\ errorCount s' = S (errorCount s)).


(** *** What a batch may do to the tables *)

(** A crop row as the resolver creates it. *)
Definition created_by_resolver (c : crop) : Prop :=
  crop_category c = categorizeCrop (crop_name c)
  /\ crop_unit c = determineUnit (crop_category c) (crop_name c)
  /\ crop_is_active c = true.

(** A fact row as the batch creates it. *)
Definition kamis_fact (p : price_entry) : Prop :=
  pe_unit p = "kg" /\ pe_source p = "kamis" /\ pe_is_verified p = true.

(** [d'] is [d] with rows appended to the reference and fact tables;
    the sync log is untouched. *)
Definition grows (d d' : DB) : Prop :=
  exists lc lr lm lp,
    crops d' = crops d ++ lc
    /\ regions d' = regions d ++ lr
    /\ markets d' = markets d ++ lm
    /\ price_entries d' = price_entries d ++ lp
    /\ kamis_sync_logs d' = kamis_sync_logs d
    /\ Forall created_by_resolver lc
    /\ Forall kamis_fact lp.

(** *** Sample data

    A host in Nairobi (UTC+3) that parses date-only ISO strings, an
    uneventful environment whose clock reads 2024-01-10T15:20:00Z, an
    empty store and a store seeded as [database/seed.ts] seeds it. *)

Definition nairobi : Z := 10800000.

Definition quiet : Env :=
  mkEnv (fun _ => None) (fun _ => None) None (fun _ => 1704900000000%Z).

Definition empty_store : St :=
  mkSt (mkDB [] [] [] [] [] [] []) 0 0 0 0 0 0 0 false.

Definition seeded_store : St :=
  mkSt (mkDB [mkCrop 0 "Maize" "cereals" "kg" true]
             [mkRegion 1 "Central Kenya" "CENTRAL" true]
             [] [] [] [] [])
       2 0 0 0 0 0 0 false.

Definition maize_4550 : object :=
  [("crop", JStr "Maize"); ("region", JStr "Central Kenya");
   ("price", JStr "45.50"); ("date", JStr "2024-01-10")].

Definition maize_4600 : object :=
  [("crop", JStr "Maize"); ("region", JStr "Central Kenya");
   ("price", JStr "46.00"); ("date", JStr "2024-01-10")].

Definition maize_undated : object :=
  [("crop", JStr "Maize"); ("region", JStr "Central Kenya");
   ("price", JStr "45.50")].


Definition maize_negative : object :=
  [("crop", JStr "Maize"); ("region", JStr "Central Kenya");
   ("price", JStr "-5"); ("date", JStr "2024-01-10")].

Definition priceless : object :=
  [("crop", JStr "Maize"); ("region", JStr "Central Kenya");
   ("price", JStr "abc"); ("date", JStr "2024-01-10")].

(** No statement of the transaction is rejected. *)
Definition tx_fault_free (env : Env) : Prop :=
  forall n, tx_fault env n = None.

(** The second statement of the transaction (for a crop not yet in the
    store: [tx.crops.create]) is rejected with Prisma's
    unique-constraint error. *)
Definition unique_violation : JsError :=
  mkError (Some "P2002")
          "Unique constraint failed on the fields: (`name`)".

Definition racing : Env :=
  mkEnv (fun n => if Nat.eqb n 1 then Some unique_violation else None)
        (fun _ => None) None (fun _ => 1704900000000%Z).


(** The sixth statement of the transaction is rejected with the
    unique-constraint error: for a Maize row and then a Beans row on
    the seeded store, the [tx.crops.create] of the second row. *)
Definition late_race : Env :=
  mkEnv (fun n => if Nat.eqb n 5 then Some unique_violation else None)
        (fun _ => None) None (fun _ => 1704900000000%Z).

Definition beans_120 : object :=
  [("crop", JStr "Beans"); ("region", JStr "Central Kenya");
   ("price", JStr "120"); ("date", JStr "2024-01-10")].

(** No statement sent through the global client (the sync log's
    statements) is rejected. *)
Definition prisma_fault_free (env : Env) : Prop :=
  forall n, prisma_fault env n = None.

(** The transaction is rejected at its boundary by the timeout. *)
Definition timed_out : Env :=
  mkEnv (fun _ => None) (fun _ => None)
        (Some (mkError (Some "P2028") "Transaction already closed"))
        (fun _ => 1704900000000%Z).

(** The transaction in progress has not been aborted. *)
Definition tx_open (s : St) : Prop := st_aborted s = false.

(** From [s] to [s']: the transaction is still open only if it was and
    every statement sent in between was accepted; the error counter has
    not gone down, and has gone up if the transaction was aborted in
    between. *)
Definition abort_tracked (env : Env) (s s' : St) : Prop :=
  st_tx_ops s <= st_tx_ops s'
  /\ errorCount s <= errorCount s'
  /\ (st_aborted s' = false ->
      st_aborted s = false
      /\ forall n, st_tx_ops s <= n < st_tx_ops s' -> tx_fault env n = None)
  /\ (st_aborted s = false -> st_aborted s' = true ->
      errorCount s < errorCount s').

(** A name of ASCII characters only: on these the model's case
    mappings and white-space class are JavaScript's. *)
Definition is_ascii (name : string) : bool :=
  all_chars (fun c => Nat.ltb (nat_of_ascii c) 128) name.

(** *** Names as patterns *)

(** A name without a backslash: as a pattern it matches itself. *)
Definition backslash_free (name : string) : bool :=
  all_chars (fun c => negb (Ascii.eqb c backslash)) name.

(** A name without [%], [_] and backslash: as a pattern it matches
    exactly the texts equal to it. *)
Definition plain_name (name : string) : bool :=
  all_chars (fun c => negb (Ascii.eqb c "%") && negb (Ascii.eqb c "_")
                      && negb (Ascii.eqb c backslash)) name.

(** [name] is [text], up to case, with some characters replaced by an
    underscore; it holds no [%] and no backslash. *)
Fixpoint masks (name text : string) : bool :=
  match name, text with
  | EmptyString, EmptyString => true
  | String a name', String b text' =>
      (Ascii.eqb a "_"
       || (negb (Ascii.eqb a "%") && negb (Ascii.eqb a backslash)
           && Ascii.eqb (lower_char a) (lower_char b)))
      && masks name' text'
  | _, _ => false
  end.

(** The crop, region and market names of a row all satisfy [ok]. *)
Definition names_satisfy (ok : string -> Prop) (rawRow : object) : Prop :=
  let row := normalize rawRow in
  ok (cropName_of row) /\ ok (regionName_of row) /\ ok (marketName_of row).

(** The crop, region and market names of a row hold no backslash. *)
Definition names_backslash_free (rawRow : object) : Prop :=
  names_satisfy (fun name => backslash_free name = true) rawRow.

(** *** Days and settled rows *)

(** The local calendar day a time value falls in. *)
Definition local_day (tz t : Z) : Z := ((t + tz) / msPerDay)%Z.

(** The first and the last millisecond of the local day of [t]. *)
Definition day_start (tz t : Z) : Z := (local_day tz t * msPerDay - tz)%Z.
Definition day_end (tz t : Z) : Z :=
  (local_day tz t * msPerDay + 86399999 - tz)%Z.

(** The calendar date of the fact lies between the calendar dates of
    the time values [a] and [b]: what the DATE column makes of the
    range [a .. b]. *)
Definition on_date_between (a b : Z) (p : price_entry) : Prop :=
  (utc_date a <= utc_date (pe_entry_date p) <= utc_date b)%Z.


(** Lines 202-203: the day window of an entry date, when both ends are
    valid dates. *)
Definition day_window (tz : Z) (entryDate : date) : option (Z * Z) :=
  match setHours tz entryDate 0 0 0 0, setHours tz entryDate 23 59 59 999 with
  | Some a, Some b => Some (a, b)
  | _, _ => None
  end.

(** What [resolveMarket] returns when it has nothing to create. *)
Definition resolved_market (name : string) (regionId : nat)
    (l : list market) : option (option nat) :=
  if nonempty name then option_map Some (lookup_market name regionId l)
  else Some None.

Section Settled.
Variable date_parse : string -> option Z.
Variable tz : Z.

(** The entry date of a row when the clock reads [c]. *)
Definition row_entry_date (row : object) (c : Z) : date :=
  match dateField_of row with
  | Some str => new_Date_of_string date_parse str
  | None => time_clip c
  end.

(** A row is settled in a database when processing it (with the clock
    at [c]) cannot insert anything: it fails validation, or its crop,
    region and market are there and a fact with their ids lies in the
    row's day window. *)
Definition settled (d : DB) (rawRow : object) (c : Z) : Prop :=
  let row := normalize rawRow in
  fails_validation (cropName_of row) (regionName_of row) (priceVal_of row)
  = true
  \/ exists cid rid mid a b fid,
       lookup_crop (cropName_of row) (crops d) = Some cid
       /\ lookup_region (regionName_of row) (regions d) = Some rid
       /\ resolved_market (marketName_of row) rid (markets d) = Some mid
       /\ day_window tz (row_entry_date row c) = Some (a, b)
       /\ lookup_fact cid rid mid a b (price_entries d) = Some fid.

End Settled.

(** *** Invariants of the tables *)

(** No two crops, and no two regions, share a name ignoring case; no two
    markets of one region do. *)
Definition names_unique (d : DB) : Prop :=
  NoDup (map (fun c => toLowerCase (crop_name c)) (crops d))
  /\ NoDup (map (fun r => toLowerCase (region_name r)) (regions d))
  /\ NoDup (map (fun m => (toLowerCase (market_name m), market_region_id m))
                (markets d)).

(** What the duplicate check compares: crop, region, market and the
    local calendar day. *)
Definition fact_key (tz : Z) (p : price_entry)
  : nat * nat * option nat * Z :=
  (pe_crop_id p, pe_region_id p, pe_market_id p,
   local_day tz (pe_entry_date p)).

(** No two facts share crop, region, market and local day. *)
Definition facts_unique (tz : Z) (d : DB) : Prop :=
  NoDup (map (fact_key tz) (price_entries d)).

(** A fact of the same crop, region and market on the local day of [t]. *)
Definition same_key_same_day (tz : Z) (cid rid : nat) (mid : option nat)
    (t : Z) (p : price_entry) : bool :=
  Nat.eqb (pe_crop_id p) cid
  && Nat.eqb (pe_region_id p) rid
  && opt_nat_eqb (pe_market_id p) mid
  && (local_day tz (pe_entry_date p) =? local_day tz t)%Z.

(** A fact of the same crop, region and market whose calendar date is
    one of [d1 .. d2]. *)
Definition same_key_on_dates (cid rid : nat) (mid : option nat)
    (d1 d2 : Z) (p : price_entry) : bool :=
  Nat.eqb (pe_crop_id p) cid
  && Nat.eqb (pe_region_id p) rid
  && opt_nat_eqb (pe_market_id p) mid
  && (d1 <=? utc_date (pe_entry_date p))%Z
  && (utc_date (pe_entry_date p) <=? d2)%Z.

(** The calendar dates the duplicate check covers for an entry whose
    local calendar day is [day], on a host [tz] milliseconds ahead of
    UTC: the day itself; the day before it too when the host is ahead
    of UTC; the day after it too when the host is behind. *)
Definition first_date_checked (tz day : Z) : Z :=
  if (0 <? tz)%Z then (day - 1)%Z else day.
Definition last_date_checked (tz day : Z) : Z :=
  if (tz <? 0)%Z then (day + 1)%Z else day.

(** The seeded store with one Maize fact for Central Kenya, no market,
    dated 2024-01-09. *)
Definition seeded_with_fact : St :=
  mkSt (mkDB [mkCrop 0 "Maize" "cereals" "kg" true]
             [mkRegion 1 "Central Kenya" "CENTRAL" true]
             []
             [mkPriceEntry 2 0 1 None (Dec false 44 0) 1704758400000
                           "kamis" true "kg"]
             [] [] [])
       3 0 0 0 0 0 0 false.

(** The seeded store with a second region. *)
Definition two_region_store : St :=
  mkSt (mkDB [mkCrop 0 "Maize" "cereals" "kg" true]
             [mkRegion 1 "Central Kenya" "CENTRAL" true;
              mkRegion 2 "Nairobi" "NAIROBI" true]
             [] [] [] [] [])
       3 0 0 0 0 0 0 false.

(** [m] keeps [I]: from a database satisfying [I] it leaves one
    satisfying [I], whether it returns or throws. *)
Definition keeps (I : DB -> Prop) {A} (m : M A) : Prop :=
  forall s, I (st_db s) ->
    triple m s (fun _ s' => I (st_db s')) (fun _ s' => I (st_db s')).

(** A region row as the resolver creates it. *)
Definition region_created_by_resolver (r : region) : Prop :=
  region_code r = spaces_to_underscores (toUpperCase (region_name r))
  /\ region_is_active r = true.

(** [d'] is [d] with resolver-made rows appended to the region and market
    tables. *)
Definition reference_rows_appended (d d' : DB) : Prop :=
  exists lr lm,
    regions d' = regions d ++ lr
    /\ markets d' = markets d ++ lm
    /\ Forall region_created_by_resolver lr
    /\ Forall (fun m => market_is_active m = true) lm.

(** *** The sync log *)

(** The row [startSyncLog] creates from state [s]. *)
Definition running_log (env : Env) (s : St) : sync_log :=
  mkSyncLog (st_next_id s) (time_clip (clock env (S (st_reads s)))) 0 0 0
            "running" None (time_clip (clock env (st_reads s))) None.

(** What [updateSyncLog] makes of a row: the row with id [id] gets the
    final counts, status, message and completion time. *)
Definition finalize_log (id processed inserted updated : nat)
    (status : string) (error_message : option string) (completed_at : date)
    (l : sync_log) : sync_log :=
  if Nat.eqb (log_id l) id then
    mkSyncLog (log_id l) (log_sync_date l) processed inserted updated status
              error_message (log_started_at l) (Some completed_at)
  else l.

(** [errorMessage || null] *)
Definition message_or_null (errorMessage : option string) : option string :=
  match errorMessage with
  | Some m => if nonempty m then Some m else None
  | None => None
  end.

(** The state in which [syncKamisData] enters its [try] block. *)
Definition after_start (env : Env) (s : St) : St :=
  add_sync_log (running_log env s)
    (bump_id (bump_prisma (bump_reads (bump_reads s)))).

(** The message of the error a sync run raises before any row is
    looked at: no file was left behind, or the file does not parse. *)
Definition no_rows_message (path : string) (latest : option parse_result)
  : option string :=
  match latest with
  | None =>
      Some ("Scraper finished but no output file found at " ++ path)%string
  | Some (ParseFailed err) => Some ("Failed to parse file: " ++ err)%string
  | Some (Parsed _) => None
  end.

(** Only the second statement the global client sends (in a sync run,
    the write of the "completed" log row) is rejected. *)
Definition log_write_fails : Env :=
  mkEnv (fun _ => None)
        (fun n => if Nat.eqb n 1
                  then Some (mkError (Some "P1001") "Can't reach database")
                  else None)
        None (fun _ => 1704900000000%Z).

(** *** Rows and names *)

(** The value of the last column of a raw row whose header, lower-cased
    and trimmed, is [key]. *)
Fixpoint last_binding (raw : object) (key : string) : option jsval :=
  match raw with
  | [] => None
  | (k, v) :: rest =>
      match last_binding rest key with
      | Some v' => Some v'
      | None =>
          if String.eqb (trim (toLowerCase k)) key then Some v else None
      end
  end.

(** A row with the price under two headers and a column headed
    [__proto__]. *)
Definition price_twice : object :=
  [("Price ", JStr "10"); ("__proto__", JStr "x"); (" PRICE", JStr "12")].

Definition price_in_retail_only : object :=
  [("crop", JStr "Maize"); ("region", JStr "Central Kenya");
   ("price", JStr ""); ("retail", JStr "50")].

(** *** The clean-up of the sync log *)

(** The sync log has one row per identifier (its primary key). *)
Definition log_ids_unique (s : St) : Prop :=
  NoDup (map log_id (kamis_sync_logs (st_db s))).

(** [k] does not come after [d] in descending [started_at] order: [k]
    has no start time, or [d] has one that is not later. *)
Definition not_older (k d : sync_log) : Prop :=
  date_ltb (log_started_at k) (log_started_at d) = false.

(** The four reference and fact tables are the same in both states. *)
Definition feed_tables_kept (s s' : St) : Prop :=
  crops (st_db s') = crops (st_db s)
  /\ regions (st_db s') = regions (st_db s)
  /\ markets (st_db s') = markets (st_db s)
  /\ price_entries (st_db s') = price_entries (st_db s).

(** The cut-off dates of a clean-up that starts in [s]: ninety days
    before its first reading of the clock and thirty days before its
    second. *)
Definition sms_cutoff (tz : Z) (env : Env) (s : St) : date :=
  setDate_back tz (time_clip (clock env (st_reads s))) 90.

Definition chat_cutoff (tz : Z) (env : Env) (s : St) : date :=
  setDate_back tz (time_clip (clock env (S (st_reads s)))) 30.

Definition cutoffs_valid (tz : Z) (env : Env) (s : St) : Prop :=
  sms_cutoff tz env s <> None /\ chat_cutoff tz env s <> None.

(** The rows the first and the second statement of the clean-up leave,
    given their cut-off. *)
Definition keep_sms (cutoff : date) (l : sms_log) : bool :=
  match cutoff with
  | Some t => negb (created_before t (sms_created_at l))
  | None => true
  end.

Definition keep_chat (cutoff : date) (c : chat_conversation) : bool :=
  match cutoff with
  | Some t => negb (is_null (chat_user_id c)
                    && created_before t (chat_created_at c))
  | None => true
  end.

(** [created_at] (microseconds) is a time more than [n] days before the
    time [now] (milliseconds). *)
Definition older_than_days (n now : Z) (created_at : option Z) : Prop :=
  exists c, created_at = Some c /\ (c < (now - n * msPerDay) * 1000)%Z.

(** A finished run with identifier and start time [n]. *)
Definition past_run (n : nat) : sync_log :=
  mkSyncLog n (Some (Z.of_nat n)) 0 0 0 "completed" None
            (Some (Z.of_nat n)) (Some (Some (Z.of_nat n))).

(** A store whose sync log holds [n] finished runs, oldest first. *)
Definition store_with_runs (n : nat) : St :=
  mkSt (mkDB [] [] [] [] (map past_run (seq 0 n)) [] [])
       n 0 0 0 0 0 0 false.

(** A store with three SMS-log rows (one of July 2023, one of November
    2023, one without a creation time) and three chats (an anonymous
    one and a user's of July 2023, an anonymous one of December 2023),
    and two finished runs in the sync log. *)
Definition store_with_messages : St :=
  mkSt (mkDB [] [] [] [] (map past_run (seq 0 2))
             [mkSmsLog 2 (Some 1690000000000000%Z);
              mkSmsLog 3 (Some 1700000000000000%Z);
              mkSmsLog 4 None]
             [mkChat 5 None (Some 1690000000000000%Z);
              mkChat 6 (Some 9) (Some 1690000000000000%Z);
              mkChat 7 None (Some 1704000000000000%Z)])
       10 0 0 0 0 0 0 false.
Section Rules.
Context {A B : Type}.
Variable env : Env.

Lemma triple_ret (a : A) s Q E : Q a s -> triple (ret a) s Q E.
Proof. exact (fun H => H). Qed.

Lemma triple_throw (e : JsError) s (Q : A -> St -> Prop) E :
  E e s -> triple (throw e) s Q E.
Proof. exact (fun H => H). Qed.

Lemma triple_gets (f : St -> A) s Q E : Q (f s) s -> triple (gets f) s Q E.
Proof. exact (fun H => H). Qed.

Lemma triple_bind (m : M A) (k : A -> M B) s Q E :
  triple m s (fun a s' => triple (k a) s' Q E) E ->
  triple (bind m k) s Q E.
Proof.
  unfold triple, bind. destruct (m s) as [[a|e] s']; auto.
Qed.

Lemma triple_try_catch (m : M A) (h : JsError -> M A) s Q E :
  triple m s Q (fun e s' => triple (h e) s' Q E) ->
  triple (try_catch m h) s Q E.
Proof.
  unfold triple, try_catch. destruct (m s) as [[a|e] s']; auto.
Qed.

Lemma triple_tx_call (q : M A) s Q E :
  (st_aborted s = true -> E transaction_aborted (bump_tx s)) ->
  (forall e, st_aborted s = false -> tx_fault env (st_tx_ops s) = Some e ->
             E e (set_aborted true (bump_tx s))) ->
  (st_aborted s = false -> tx_fault env (st_tx_ops s) = None ->
   triple q (bump_tx s) Q E) ->
  triple (tx_call env q) s Q E.
Proof.
  unfold triple at 2, tx_call. intros Ha Hf Hq.
  destruct (st_aborted s); [apply Ha; reflexivity|].
  destruct (tx_fault env (st_tx_ops s)) as [e|]; [apply Hf | apply Hq];
    reflexivity.
Qed.

Lemma triple_prisma_call (q : M A) s Q E :
  (forall e, prisma_fault env (st_prisma_ops s) = Some e ->
             E e (bump_prisma s)) ->
  (prisma_fault env (st_prisma_ops s) = None ->
   triple q (bump_prisma s) Q E) ->
  triple (prisma_call env q) s Q E.
Proof.
  unfold triple at 2, prisma_call. intros Hf Hq.
  destruct (prisma_fault env (st_prisma_ops s)) as [e|];
    [apply Hf | apply Hq]; reflexivity.
Qed.

Lemma triple_weaken (m : M A) s (Q Q' : A -> St -> Prop)
    (E E' : JsError -> St -> Prop) :
  triple m s Q E ->
  (forall a s', Q a s' -> Q' a s') ->
  (forall e s', E e s' -> E' e s') ->
  triple m s Q' E'.
Proof.
  unfold triple. destruct (m s) as [[a|e] s']; auto.
Qed.

Lemma triple_run (m : M A) s Q E r s' :
  triple m s Q E -> m s = (r, s') ->
  match r with Ok a => Q a s' | Throw e => E e s' end.
Proof. unfold triple. intros H Heq. rewrite Heq in H. exact H. Qed.
End Rules.

(** [transaction] in terms of its callback. *)
Lemma triple_transaction {A} env (cb : M A) s Q E :
  triple cb (set_aborted false s)
    (fun a s' =>
       match commit_fault env with
       | Some e => E e (set_aborted false (set_db (st_db s) s'))
       | None =>
           if st_aborted s'
           then Q a (set_aborted false (set_db (st_db s) s'))
           else Q a s'
       end)
    (fun e s' => E e (set_aborted false (set_db (st_db s) s'))) ->
  triple (transaction env cb) s Q E.
Proof.
  unfold triple, transaction.
  destruct (cb (set_aborted false s)) as [[a|e] s']; [|auto].
  destruct (commit_fault env); [auto|]. destruct (st_aborted s'); auto.
Qed.

Lemma triple_modify (f : St -> St) s Q E :
  Q tt (f s) -> triple (modify f) s Q E.
Proof. exact (fun H => H). Qed.

Lemma triple_new_Date env s Q E :
  Q (time_clip (clock env (st_reads s))) (bump_reads s) ->
  triple (new_Date env) s Q E.
Proof. exact (fun H => H). Qed.

Ltac st_simpl :=
  cbn [st_db st_next_id st_tx_ops st_prisma_ops st_reads insertedCount
       skippedCount errorCount st_aborted set_db bump_id bump_tx
       bump_prisma bump_reads set_counts set_aborted add_crop add_region
       add_market add_price_entry add_sync_log set_sync_logs set_sms_logs
       set_chat_conversations sms_logs chat_conversations crops regions
       markets price_entries kamis_sync_logs fst snd] in *.

(** A closed fact settled by evaluating it. *)
Ltac evaluate :=
  first [ reflexivity
        | exact eq_refl
        | intro; reflexivity
        | vm_compute; reflexivity ].

(** One step of symbolic execution of a service function. *)
Ltac wp_step :=
  lazymatch goal with
  | |- triple (ret _) _ _ _ => apply triple_ret
  | |- triple (throw _) _ _ _ => apply triple_throw
  | |- triple (gets _) _ _ _ => apply triple_gets
  | |- triple (modify _) _ _ _ => apply triple_modify
  | |- triple (new_Date _) _ _ _ => apply triple_new_Date
  | |- triple (bind _ _) _ _ _ => apply triple_bind
  | |- triple (try_catch _ _) _ _ _ => apply triple_try_catch
  | |- triple (tx_call _ _) _ _ _ =>
      apply triple_tx_call; [intros ? | intros ? ? ? | intros ? ?]
  | |- triple (prisma_call _ _) _ _ _ =>
      apply triple_prisma_call; [intros ? ? | intros ?]
  | |- triple (match ?x with _ => _ end) _ _ _ => destruct x eqn:?
  | |- triple (processRow _ _ _ _) _ _ _ => unfold processRow
  | |- triple (row_body _ _ _ _) _ _ _ => unfold row_body
  | |- triple (entryDate_of _ _ _) _ _ _ => unfold entryDate_of
  | |- triple (insertUnlessDuplicate _ _ _ _ _ _ _) _ _ _ =>
      unfold insertUnlessDuplicate
  | |- triple (resolveCrop _ _) _ _ _ => unfold resolveCrop
  | |- triple (resolveRegion _ _) _ _ _ => unfold resolveRegion
  | |- triple (resolveMarket _ _ _) _ _ _ => unfold resolveMarket
  | |- triple (crops_findFirst _ _) _ _ _ => unfold crops_findFirst
  | |- triple (crops_create _ _ _ _) _ _ _ => unfold crops_create
  | |- triple (regions_findFirst _ _) _ _ _ => unfold regions_findFirst
  | |- triple (regions_create _ _ _) _ _ _ => unfold regions_create
  | |- triple (markets_findFirst _ _ _) _ _ _ => unfold markets_findFirst
  | |- triple (markets_create _ _ _) _ _ _ => unfold markets_create
  | |- triple (price_entries_findFirst _ _ _ _ _ _) _ _ _ =>
      unfold price_entries_findFirst
  | |- triple (price_entries_create _ _ _ _ _ _ _ _ _) _ _ _ =>
      unfold price_entries_create
  | |- triple incr_inserted _ _ _ => unfold incr_inserted
  | |- triple incr_skipped _ _ _ => unfold incr_skipped
  | |- triple incr_errors _ _ _ => unfold incr_errors
  | |- triple (startSyncLog _) _ _ _ => unfold startSyncLog
  | |- triple (updateSyncLog _ _ _ _ _ _ _) _ _ _ => unfold updateSyncLog
  | |- triple (kamis_sync_logs_create _ _ _ _) _ _ _ =>
      unfold kamis_sync_logs_create
  | |- triple (kamis_sync_logs_update _ _ _ _ _ _ _ _) _ _ _ =>
      unfold kamis_sync_logs_update
  | |- triple (fun s => _) _ _ _ => unfold triple at 1
  end.

Ltac wp := repeat wp_step; st_simpl.

Section Counters.
Variable date_parse : string -> option Z.
Variable tz : Z.
Variable env : Env.

Lemma processRow_counts rawRow s :
  triple (processRow date_parse tz env rawRow) s
    (fun _ s' => one_counter_incremented s s') (fun _ _ => False).
Proof.
  wp; unfold one_counter_incremented; st_simpl; intuition lia.
Qed.

Lemma one_counter_counted s s' :
  one_counter_incremented s s' -> counted s' = S (counted s).
Proof. unfold one_counter_incremented, counted. lia. Qed.

Lemma for_rows_counted rows : forall s,
  triple (for_rows date_parse tz env rows) s
    (fun _ s' => counted s' = List.length rows + counted s)
    (fun _ _ => False).
Proof.
  induction rows as [|rawRow rest IH]; intros s; cbn [for_rows List.length].
  - apply triple_ret. reflexivity.
  - apply triple_bind.
    eapply triple_weaken; [apply processRow_counts | | auto].
    intros ? s1 H1. apply one_counter_counted in H1.
    eapply triple_weaken; [apply IH | | auto].
    cbn beta. intros ? s2 H2. lia.
Qed.

Lemma tx_callback_counted rows s :
  triple (tx_callback date_parse tz env rows) s
    (fun agg _ =>
       total_rows agg = List.length rows
       /\ inserted agg + skipped agg + errors agg = total_rows agg)
    (fun _ _ => False).
Proof.
  unfold tx_callback. apply triple_bind, triple_modify, triple_bind.
  eapply triple_weaken; [apply for_rows_counted | | auto].
  cbn beta. intros ? s1 H1. apply triple_gets.
  cbn [total_rows inserted skipped errors].
  unfold counted in H1. st_simpl. lia.
Qed.
End Counters.

(** C9.  Whenever [processKamisFile] returns an aggregate, the input
    parsed to rows, [total_rows] is their number and
    [inserted + skipped + errors = total_rows]; each row moves exactly
    one of the three counters, by one. *)
Theorem aggregate_counts_partition_rows :
  forall date_parse tz env parsed s agg s',
    processKamisFile date_parse tz env parsed s = (Ok agg, s') ->
    (exists rows,
        parsed = Parsed rows /\ total_rows agg = List.length rows)
    /\ inserted agg + skipped agg + errors agg = total_rows agg
    /\ forall rawRow s0,
         fst (processRow date_parse tz env rawRow s0) = Ok tt
         /\ one_counter_incremented s0
              (snd (processRow date_parse tz env rawRow s0)).
Proof.
  intros date_parse tz env [err|rows] s agg s' Hrun; [discriminate Hrun|].
  assert (Hcb := tx_callback_counted date_parse tz env rows
                   (set_aborted false s)).
  unfold processKamisFile, transaction in Hrun. unfold triple in Hcb.
  destruct (tx_callback date_parse tz env rows (set_aborted false s))
    as [[a|e] s1]; [|contradiction].
  destruct (commit_fault env); [discriminate|].
  assert (a = agg) as -> by (destruct (st_aborted s1); congruence).
  clear Hrun. destruct Hcb as [Ht Hs].
  split; [exists rows; split; [reflexivity | exact Ht]|].
  split; [exact Hs|].
  intros rawRow s0.
  assert (H := processRow_counts date_parse tz env rawRow s0).
  unfold triple in H.
  destruct (processRow date_parse tz env rawRow s0) as [[[]|e] s2];
    [split; [reflexivity | exact H] | contradiction].
Qed.

Lemma aggregate_counts_partition_rows_witness :
  let agg := mkAggregate 1 1 0 2 in
  (exists rows,
      Parsed [maize_4550; maize_4600] = Parsed rows
      /\ total_rows agg = List.length rows)
  /\ inserted agg + skipped agg + errors agg = total_rows agg
  /\ forall rawRow s0,
       fst (processRow iso_date_only nairobi quiet rawRow s0) = Ok tt
       /\ one_counter_incremented s0
            (snd (processRow iso_date_only nairobi quiet rawRow s0)).
Proof.
  apply (aggregate_counts_partition_rows iso_date_only nairobi quiet
           (Parsed [maize_4550; maize_4600]) seeded_store
           (mkAggregate 1 1 0 2)
           (snd (processKamisFile iso_date_only nairobi quiet
                   (Parsed [maize_4550; maize_4600]) seeded_store))).
  vm_compute. reflexivity.
Defined.

(** *** Tables only grow *)

Lemma grows_refl d : grows d d.
Proof.
  exists [], [], [], []. rewrite !app_nil_r. repeat split; constructor.
Qed.

Lemma grows_trans d1 d2 d3 : grows d1 d2 -> grows d2 d3 -> grows d1 d3.
Proof.
  intros (lc & lr & lm & lp & Hc & Hr & Hm & Hp & Hl & Fc & Fp)
         (lc' & lr' & lm' & lp' & Hc' & Hr' & Hm' & Hp' & Hl' & Fc' & Fp').
  exists (lc ++ lc'), (lr ++ lr'), (lm ++ lm'), (lp ++ lp').
  rewrite Hc', Hr', Hm', Hp', Hl', Hc, Hr, Hm, Hp, Hl, !app_assoc.
  repeat split; trivial; apply Forall_app; split; trivial.
Qed.

Ltac solve_grows :=
  unfold grows; st_simpl; do 4 eexists;
  repeat match goal with
         | |- _ /\ _ => split
         | |- ?l ++ _ = ?l ++ _ => reflexivity
         | |- ?l = ?l ++ _ => symmetry; apply app_nil_r
         | |- ?l = ?l => reflexivity
         | |- Forall _ [] => constructor
         | |- Forall _ [_] => constructor; [|constructor]
         | |- created_by_resolver _ =>
             unfold created_by_resolver; cbn; repeat split
         | |- kamis_fact _ => unfold kamis_fact; cbn; repeat split
         end.

Section Growth.
Variable date_parse : string -> option Z.
Variable tz : Z.
Variable env : Env.

Lemma processRow_grows rawRow s :
  triple (processRow date_parse tz env rawRow) s
    (fun _ s' => grows (st_db s) (st_db s')) (fun _ _ => False).
Proof.
  wp; solve_grows.
Qed.

Lemma for_rows_grows rows : forall s,
  triple (for_rows date_parse tz env rows) s
    (fun _ s' => grows (st_db s) (st_db s')) (fun _ _ => False).
Proof.
  induction rows as [|rawRow rest IH]; intros s; cbn [for_rows].
  - apply triple_ret, grows_refl.
  - apply triple_bind.
    eapply triple_weaken; [apply processRow_grows | | auto].
    cbn beta. intros ? s1 H1.
    eapply triple_weaken; [apply IH | | auto].
    cbn beta. intros ? s2 H2. eapply grows_trans; eassumption.
Qed.

Lemma tx_callback_grows rows s :
  triple (tx_callback date_parse tz env rows) s
    (fun _ s' => grows (st_db s) (st_db s')) (fun _ _ => False).
Proof.
  unfold tx_callback. apply triple_bind, triple_modify, triple_bind.
  eapply triple_weaken; [apply for_rows_grows | | auto].
  cbn beta. intros ? s1 H1. apply triple_gets. exact H1.
Qed.

Lemma processKamisFile_grows parsed s :
  grows (st_db s) (st_db (snd (processKamisFile date_parse tz env parsed s))).
Proof.
  destruct parsed as [err|rows]; cbn [processKamisFile].
  - apply grows_refl.
  - assert (H := tx_callback_grows rows (set_aborted false s)).
    unfold triple in H. unfold transaction.
    destruct (tx_callback date_parse tz env rows (set_aborted false s))
      as [[a|e] s1]; [|contradiction].
    st_simpl.
    destruct (commit_fault env); [cbn [snd]; st_simpl; apply grows_refl|].
    destruct (st_aborted s1); cbn [snd]; st_simpl;
      [apply grows_refl | exact H].
Qed.
End Growth.

(** C10.  Whatever the input, [processKamisFile] only appends to the
    fact table, and every fact row it appends has unit "kg", source
    "kamis" and is verified.  The unit [determineUnit] computes goes to
    the crop rows the batch creates and nowhere else. *)
Theorem created_facts_are_kg_kamis_verified :
  forall date_parse tz env parsed s,
    let s' := snd (processKamisFile date_parse tz env parsed s) in
    exists new_facts new_crops,
      price_entries (st_db s') = price_entries (st_db s) ++ new_facts
      /\ Forall (fun p => pe_unit p = "kg" /\ pe_source p = "kamis"
                          /\ pe_is_verified p = true) new_facts
      /\ crops (st_db s') = crops (st_db s) ++ new_crops
      /\ Forall (fun c => crop_unit c
                          = determineUnit (categorizeCrop (crop_name c))
                                          (crop_name c)) new_crops.
Proof.
  intros date_parse tz env parsed s s'.
  destruct (processKamisFile_grows date_parse tz env parsed s)
    as (lc & lr & lm & lp & Hc & Hr & Hm & Hp & Hl & Fc & Fp).
  exists lp, lc. repeat split; trivial.
  eapply Forall_impl; [|exact Fc].
  intros c (Hcat & Hunit & _). rewrite <- Hcat. exact Hunit.
Qed.

(** *** The classifier as an ordered rule list *)

Lemma categorizeCrop_rules name :
  categorizeCrop name = first_match rules (toLowerCase name).
Proof. reflexivity. Qed.

Lemma first_match_earliest lowered pat cat post : forall pre,
  forallb (fun r => negb (js_match (fst r) lowered)) pre = true ->
  js_match pat lowered = true ->
  first_match (pre ++ (pat, cat) :: post) lowered = cat.
Proof.
  induction pre as [|[p c] pre IH]; cbn [app first_match forallb fst].
  - intros _ ->. reflexivity.
  - intros Hpre Hpat. apply andb_true_iff in Hpre as [Hp Hpre].
    apply negb_true_iff in Hp. rewrite Hp. auto.
Qed.

(** C6.  [categorizeCrop] is the ordered rule list read top to bottom
    on the lower-cased name: the first matching rule decides, whatever
    later rules match, and no match gives "general".  The three names of
    the specification classify as it says, and a name with both "oil"
    and a cash-crop keyword is a processed product. *)
Theorem categorizeCrop_first_rule_wins :
  (forall name, categorizeCrop name = first_match rules (toLowerCase name))
  /\ (forall name pre pat cat post,
        rules = pre ++ (pat, cat) :: post ->
        forallb (fun r => negb (js_match (fst r) (toLowerCase name))) pre
        = true ->
        js_match pat (toLowerCase name) = true ->
        categorizeCrop name = cat)
  /\ (forall name,
        forallb (fun r => negb (js_match (fst r) (toLowerCase name))) rules
        = true ->
        categorizeCrop name = "general")
  /\ categorizeCrop "Free range chicken" = "poultry"
  /\ categorizeCrop "White Maize" = "cereals"
  /\ categorizeCrop "Widget XJ-9" = "general"
  /\ (js_match p_processed_products (toLowerCase "Sunflower Oil") = true
      /\ js_match p_cash_crops (toLowerCase "Sunflower Oil") = true
      /\ categorizeCrop "Sunflower Oil" = "processed_products").
Proof.
  split; [exact categorizeCrop_rules|].
  split.
  { intros name pre pat cat post Hrules Hpre Hpat.
    rewrite categorizeCrop_rules, Hrules.
    apply first_match_earliest; assumption. }
  split.
  { intros name Hnone. rewrite categorizeCrop_rules.
    induction rules as [|[p c] rs IH]; [reflexivity|].
    cbn [forallb first_match fst] in *.
    apply andb_true_iff in Hnone as [Hp Hrs].
    apply negb_true_iff in Hp. rewrite Hp. auto. }
  repeat split; vm_compute; reflexivity.
Qed.

(** The rule order at work: "Sunflower Oil" stops at the third rule
    although the fourth matches too. *)
Lemma categorizeCrop_first_rule_wins_witness :
  categorizeCrop "Sunflower Oil" = "processed_products".
Proof.
  apply (proj1 (proj2 categorizeCrop_first_rule_wins) "Sunflower Oil"
           [(p_farm_inputs, "farm_inputs"); (p_animal_feeds, "animal_feeds")]
           p_processed_products "processed_products"
           (skipn 3 rules)); reflexivity.
Defined.

(** *** Validation *)

Section Validation.
Variable date_parse : string -> option Z.
Variable tz : Z.
Variable env : Env.

Lemma row_fails_validation rawRow s :
  fails_validation (cropName_of (normalize rawRow))
                   (regionName_of (normalize rawRow))
                   (priceVal_of (normalize rawRow)) = true ->
  triple (processRow date_parse tz env rawRow) s
    (fun _ s' =>
       skippedCount s' = S (skippedCount s)
       /\ insertedCount s' = insertedCount s
       /\ errorCount s' = errorCount s
       /\ st_db s' = st_db s
       /\ st_tx_ops s' = st_tx_ops s
       /\ st_aborted s' = st_aborted s)
    (fun _ _ => False).
Proof.
  intros Hv. unfold processRow, row_body. rewrite Hv.
  wp; repeat split.
Qed.
End Validation.

Lemma nonempty_false s : nonempty s = false <-> s = "".
Proof. destruct s; cbn; split; congruence. Qed.

Lemma isNaN_true x : isNaN x = true <-> x = NaN.
Proof. destruct x; cbn; split; congruence. Qed.

(** C2, as the code has it.  A row with no crop name, no region name or
    a price that [parseFloat] reads as NaN is counted in [skipped] and
    in nothing else; no statement is sent for it and the store is left
    as it was. *)
Theorem unvalidated_rows_are_skipped :
  forall date_parse tz env rawRow s,
    cropName_of (normalize rawRow) = ""
    \/ regionName_of (normalize rawRow) = ""
    \/ priceVal_of (normalize rawRow) = NaN ->
    let out := processRow date_parse tz env rawRow s in
    fst out = Ok tt
    /\ skippedCount (snd out) = S (skippedCount s)
    /\ insertedCount (snd out) = insertedCount s
    /\ errorCount (snd out) = errorCount s
    /\ st_db (snd out) = st_db s
    /\ st_tx_ops (snd out) = st_tx_ops s.
Proof.
  intros date_parse tz env rawRow s H out. subst out.
  assert (Hv : fails_validation (cropName_of (normalize rawRow))
                 (regionName_of (normalize rawRow))
                 (priceVal_of (normalize rawRow)) = true).
  { unfold fails_validation.
    destruct H as [-> | [-> | ->]]; cbn;
      rewrite ?orb_true_r; reflexivity. }
  assert (T := row_fails_validation date_parse tz env rawRow s Hv).
  unfold triple in T.
  destruct (processRow date_parse tz env rawRow s) as [[[]|e] s'];
    [|contradiction].
  cbn [fst snd]. tauto.
Qed.

Lemma unvalidated_rows_are_skipped_witness :
  let out := processRow iso_date_only nairobi quiet priceless empty_store in
  fst out = Ok tt
  /\ skippedCount (snd out) = 1
  /\ insertedCount (snd out) = 0
  /\ errorCount (snd out) = 0
  /\ st_db (snd out) = st_db empty_store
  /\ st_tx_ops (snd out) = 0.
Proof.
  apply (unvalidated_rows_are_skipped iso_date_only nairobi quiet priceless
           empty_store).
  right. right. vm_compute. reflexivity.
Defined.

(** C2 as stated fails: a row priced "-5" is not strictly positive, yet
    it passes validation and is inserted. *)
Lemma nonpositive_price_is_inserted :
  ~ (forall date_parse tz env rawRow s,
       is_positive (priceVal_of (normalize rawRow)) = false ->
       let s' := snd (processRow date_parse tz env rawRow s) in
       skippedCount s' = S (skippedCount s)
       /\ insertedCount s' = insertedCount s
       /\ price_entries (st_db s') = price_entries (st_db s)).
Proof.
  intros H.
  specialize (H iso_date_only nairobi quiet maize_negative seeded_store
                eq_refl).
  vm_compute in H. destruct H as [H _]. discriminate H.
Qed.

(** *** Rejected statements *)

Ltac ops_cases :=
  let n := fresh "n" in
  intro n; intros;
  repeat match goal with
         | H : tx_fault _ ?k = None |- tx_fault _ n = None =>
             destruct (Nat.eq_dec n k) as [->|?]; [exact H | clear H]
         end;
  exfalso; lia.

Section Faults.
Variable date_parse : string -> option Z.
Variable tz : Z.
Variable env : Env.

(** If the row's body returns, every statement it sent was accepted;
    if it throws, every statement but possibly the last was accepted,
    and neither the counters nor the fact table have changed. *)
Lemma row_body_statements rawRow s :
  triple (row_body date_parse tz env rawRow) s
    (fun _ s' =>
       st_tx_ops s <= st_tx_ops s'
       /\ forall n, st_tx_ops s <= n < st_tx_ops s' ->
                    tx_fault env n = None)
    (fun _ s' =>
       st_tx_ops s <= st_tx_ops s'
       /\ (forall n, st_tx_ops s <= n -> S n < st_tx_ops s' ->
                     tx_fault env n = None)
       /\ insertedCount s' = insertedCount s
       /\ skippedCount s' = skippedCount s
       /\ errorCount s' = errorCount s
       /\ price_entries (st_db s') = price_entries (st_db s)).
Proof.
  wp; repeat split; try lia; try ops_cases.
Qed.
End Faults.

(** C8, as the code has it.  When a statement the row sends is rejected
    (a create that hits a unique constraint, or any other), nothing is
    re-fetched: the rejected statement is the last one the row sends,
    the row is counted in [errors], and it inserts no fact. *)
Theorem rejected_statement_fails_the_row :
  forall date_parse tz env rawRow s n e,
    let s' := snd (processRow date_parse tz env rawRow s) in
    st_tx_ops s <= n < st_tx_ops s' ->
    tx_fault env n = Some e ->
    st_tx_ops s' = S n
    /\ errorCount s' = S (errorCount s)
    /\ insertedCount s' = insertedCount s
    /\ skippedCount s' = skippedCount s
    /\ price_entries (st_db s') = price_entries (st_db s).
Proof.
  intros date_parse tz env rawRow s n e s' Hn He. subst s'.
  assert (T := row_body_statements date_parse tz env rawRow s).
  unfold processRow, try_catch in *. unfold triple in T.
  destruct (row_body date_parse tz env rawRow s) as [[[]|e'] s1];
    cbn [snd incr_errors modify] in *; st_simpl.
  - destruct T as [_ T]. rewrite (T n Hn) in He. discriminate.
  - destruct T as (Hle & T & Hi & Hk & Her & Hp).
    repeat split; try congruence.
    destruct (Nat.eq_dec (st_tx_ops s1) (S n)) as [|Hne]; [assumption|].
    rewrite T in He; [discriminate | lia | lia].
Qed.

Lemma rejected_statement_fails_the_row_witness :
  let s' := snd (processRow iso_date_only nairobi racing maize_4550
                   empty_store) in
  st_tx_ops s' = 2
  /\ errorCount s' = 1
  /\ insertedCount s' = 0
  /\ skippedCount s' = 0
  /\ price_entries (st_db s') = [].
Proof.
  apply (rejected_statement_fails_the_row iso_date_only nairobi racing
           maize_4550 empty_store 1 unique_violation).
  - vm_compute. split; repeat constructor.
  - reflexivity.
Defined.

(** C8 as stated fails: the crop is not in the store, [tx.crops.create]
    is rejected with a unique-constraint violation, and the row ends in
    [errors]. *)
Lemma unique_violation_is_not_refetched :
  ~ (forall date_parse tz env rawRow s e,
       fails_validation (cropName_of (normalize rawRow))
                        (regionName_of (normalize rawRow))
                        (priceVal_of (normalize rawRow)) = false ->
       lookup_crop (cropName_of (normalize rawRow)) (crops (st_db s)) = None ->
       tx_fault env (st_tx_ops s) = None ->
       tx_fault env (S (st_tx_ops s)) = Some e ->
       code e = Some "P2002" ->
       errorCount (snd (processRow date_parse tz env rawRow s))
       = errorCount s).
Proof.
  intros H.
  specialize (H iso_date_only nairobi racing maize_4550 empty_store
                unique_violation eq_refl eq_refl eq_refl eq_refl eq_refl).
  vm_compute in H. discriminate H.
Qed.

(** *** Dates *)


Lemma find_none_of_lookup {A} (f : A -> bool) (id : A -> nat) l :
  option_map id (find f l) = None -> find f l = None.
Proof. destruct (find f l); [discriminate | reflexivity]. Qed.

Lemma opt_nat_eqb_refl m : opt_nat_eqb m m = true.
Proof. destruct m; cbn; [apply Nat.eqb_refl | reflexivity]. Qed.

Lemma same_key_in_window_date c r m a b p :
  same_key_in_window c r m a b p = true -> on_date_between a b p.
Proof.
  unfold same_key_in_window, on_date_between.
  rewrite !andb_true_iff, !Z.leb_le. tauto.
Qed.


(** Discharges the branches in which a statement is rejected, given
    that the environment rejects none and the transaction is open. *)
Ltac quiet_run Hfree Hopen :=
  repeat match goal with
         | H : tx_fault _ _ = Some _ |- _ =>
             rewrite Hfree in H; discriminate H
         | H : st_aborted _ = true |- _ =>
             rewrite Hopen in H; discriminate H
         end.

Section Dates.
Variable date_parse : string -> option Z.
Variable tz : Z.
Variable env : Env.


End Dates.




(** *** Names as patterns *)

Lemma find_app {A} (f : A -> bool) l1 l2 :
  find f (l1 ++ l2)
  = match find f l1 with Some x => Some x | None => find f l2 end.
Proof.
  induction l1 as [|x l1 IH]; cbn; [reflexivity|].
  destruct (f x); [reflexivity | exact IH].
Qed.

Lemma find_pointwise {A} (f g : A -> bool) l :
  (forall x, f x = g x) -> find f l = find g l.
Proof.
  intros Hfg. induction l as [|x l IH]; cbn; [reflexivity|].
  rewrite Hfg, IH. reflexivity.
Qed.

Lemma filter_find_none {A} (f : A -> bool) l :
  find f l = None -> filter f l = [].
Proof.
  induction l as [|x l IH]; cbn; [reflexivity|].
  destruct (f x); [discriminate | exact IH].
Qed.

(** Lower-casing touches none of the three pattern characters. *)
Lemma lower_char_pattern c :
  Ascii.eqb (lower_char c) "%" = Ascii.eqb c "%"
  /\ Ascii.eqb (lower_char c) "_" = Ascii.eqb c "_"
  /\ Ascii.eqb (lower_char c) backslash = Ascii.eqb c backslash.
Proof. destruct c as [[] [] [] [] [] [] [] []]; repeat split. Qed.

Lemma backslash_free_lower name :
  backslash_free (toLowerCase name) = backslash_free name.
Proof.
  unfold backslash_free, toLowerCase.
  induction name as [|c r IH]; cbn [map_chars all_chars]; [reflexivity|].
  rewrite IH. destruct (lower_char_pattern c) as (_ & _ & ->). reflexivity.
Qed.

Lemma plain_name_lower name :
  plain_name (toLowerCase name) = plain_name name.
Proof.
  unfold plain_name, toLowerCase.
  induction name as [|c r IH]; cbn [map_chars all_chars]; [reflexivity|].
  rewrite IH. destruct (lower_char_pattern c) as (-> & -> & ->). reflexivity.
Qed.

Lemma like_percent p text :
  like (String "%" p) text
  = like p text
    || match text with
       | EmptyString => false
       | String _ r => like (String "%" p) r
       end.
Proof. destruct text; reflexivity. Qed.

(** A pattern without a backslash matches itself. *)
Lemma like_refl p : backslash_free p = true -> like p p = true.
Proof.
  unfold backslash_free.
  induction p as [|c p IH]; [reflexivity|].
  cbn [all_chars]. intros H. apply andb_true_iff in H. destruct H as [Hc Hp].
  apply negb_true_iff in Hc. specialize (IH Hp).
  destruct (Ascii.eqb c "%") eqn:E1.
  - apply Ascii.eqb_eq in E1. subst c.
    rewrite like_percent, (like_percent p p), IH.
    apply orb_true_r.
  - cbn [like]. rewrite E1.
    destruct (Ascii.eqb c "_") eqn:E2; [exact IH|].
    rewrite Hc, Ascii.eqb_refl. exact IH.
Qed.

(** A pattern without wild cards and escapes matches the texts equal to
    it and no other. *)
Lemma like_plain p : plain_name p = true ->
  forall text, like p text = String.eqb p text.
Proof.
  unfold plain_name.
  induction p as [|c p IH]; intros H text.
  - destruct text; reflexivity.
  - cbn [all_chars] in H. rewrite !andb_true_iff, !negb_true_iff in H.
    destruct H as [[[E1 E2] E3] Hp].
    cbn [like]. rewrite E1, E2, E3.
    destruct text as [|x r]; [reflexivity|].
    cbn [String.eqb]. rewrite (IH Hp), Ascii.eqb_sym.
    destruct (Ascii.eqb c x); reflexivity.
Qed.

Lemma ilike_lowered a b text :
  toLowerCase a = toLowerCase b -> ilike a text = ilike b text.
Proof. unfold ilike. intros ->. reflexivity. Qed.

(** A name without a backslash matches every text that equals it
    ignoring case. *)
Lemma ilike_same name text :
  backslash_free name = true ->
  toLowerCase name = toLowerCase text -> ilike name text = true.
Proof.
  unfold ilike. intros Hb <-. apply like_refl.
  rewrite backslash_free_lower. exact Hb.
Qed.

(** For a name without wild cards, matching is equality ignoring
    case. *)
Lemma ilike_plain name text :
  plain_name name = true -> ilike name text = eqb_ci text name.
Proof.
  unfold ilike, eqb_ci. intros Hp.
  rewrite like_plain by (rewrite plain_name_lower; exact Hp).
  apply String.eqb_sym.
Qed.

(** An underscore in a name stands for any character of the stored
    name. *)
Lemma masks_ilike name : forall text,
  masks name text = true -> ilike name text = true.
Proof.
  unfold ilike, toLowerCase.
  induction name as [|a name IH]; intros [|b text]; cbn [masks];
    try discriminate; [reflexivity|].
  rewrite andb_true_iff. intros [Ha Hm]. specialize (IH text Hm).
  cbn [map_chars like].
  destruct (lower_char_pattern a) as (-> & -> & ->).
  destruct (Ascii.eqb a "_") eqn:E2.
  - apply Ascii.eqb_eq in E2. subst a. cbn. exact IH.
  - cbn [orb] in Ha. rewrite !andb_true_iff, !negb_true_iff in Ha.
    destruct Ha as [[-> ->] Hc].
    rewrite Ascii.eqb_sym, Hc. exact IH.
Qed.

Lemma find_finds {A} (f : A -> bool) l x :
  In x l -> f x = true -> exists y, find f l = Some y.
Proof.
  induction l as [|a l IH]; cbn; [tauto|].
  intros [->|Hx] Hf.
  - rewrite Hf. eauto.
  - destruct (f a); eauto.
Qed.

(** *** Crop resolution *)

(** C7.  Two names that differ only in case (and hold no backslash)
    resolve to the same crop id, if no statement is rejected, and the
    second resolution creates nothing.  When the name is of ASCII
    characters and no crop of the store matched it beforehand, the first
    resolution appends one crop, named as first seen, and afterwards
    that crop is the only one the name matches - for a name without
    wild cards: the only crop of that name, ignoring case. *)
Theorem resolveCrop_is_case_insensitive :
  forall env s name1 name2,
    tx_fault_free env ->
    tx_open s ->
    backslash_free name1 = true ->
    toLowerCase name1 = toLowerCase name2 ->
    let r1 := resolveCrop env name1 s in
    let r2 := resolveCrop env name2 (snd r1) in
    exists id,
      fst r1 = Ok id
      /\ fst r2 = Ok id
      /\ crops (st_db (snd r2)) = crops (st_db (snd r1))
      /\ (is_ascii name1 = true ->
          lookup_crop name1 (crops (st_db s)) = None ->
          let created :=
            mkCrop id name1 (categorizeCrop name1)
                   (determineUnit (categorizeCrop name1) name1) true in
          crops (st_db (snd r2)) = crops (st_db s) ++ [created]
          /\ filter (fun c => ilike name1 (crop_name c))
                    (crops (st_db (snd r2))) = [created]
          /\ (plain_name name1 = true ->
              filter (fun c => eqb_ci (crop_name c) name1)
                     (crops (st_db (snd r2))) = [created])).
Proof.
  intros env s name1 name2 Hfree Hopen Hbs Hci r1 r2. subst r1 r2.
  unfold tx_open in Hopen.
  assert (Hfind : forall l,
             find (fun c => ilike name2 (crop_name c)) l
             = find (fun c => ilike name1 (crop_name c)) l).
  { intros l. apply find_pointwise. intros c.
    apply ilike_lowered. symmetry. exact Hci. }
  assert (Hself : ilike name1 name1 = true)
    by (apply ilike_same; [exact Hbs | reflexivity]).
  unfold resolveCrop, crops_findFirst, crops_create, bind, tx_call, gets, ret,
  lookup_crop.
  rewrite Hopen, !Hfree. st_simpl.
  destruct (find (fun c => ilike name1 (crop_name c)) (crops (st_db s)))
    as [c|] eqn:Hc; cbn [option_map].
  - repeat (rewrite ?Hopen, ?Hfree; st_simpl).
    rewrite Hfind, Hc. cbn [option_map fst snd].
    exists (crop_id c). repeat split; discriminate.
  - repeat (rewrite ?Hopen, ?Hfree; st_simpl).
    rewrite Hfind, find_app, Hc. cbn [find crop_name].
    rewrite Hself. cbn [option_map fst snd crop_id].
    exists (st_next_id s). split; [reflexivity|]. split; [reflexivity|].
    split; [reflexivity|].
    intros _ _. cbv zeta. st_simpl. split; [reflexivity|].
    assert (Hone : filter (fun c => ilike name1 (crop_name c))
                     (crops (st_db s)
                      ++ [mkCrop (st_next_id s) name1 (categorizeCrop name1)
                            (determineUnit (categorizeCrop name1) name1)
                            true])
                   = [mkCrop (st_next_id s) name1 (categorizeCrop name1)
                        (determineUnit (categorizeCrop name1) name1) true]).
    { rewrite filter_app, (filter_find_none _ _ Hc).
      cbn [filter crop_name app]. rewrite Hself. reflexivity. }
    split; [exact Hone|].
    intros Hplain. rewrite <- Hone at 2. apply filter_ext.
    intros c. symmetry. apply ilike_plain. exact Hplain.
Qed.

Lemma resolveCrop_is_case_insensitive_witness :
  let r1 := resolveCrop quiet "Maize" empty_store in
  let r2 := resolveCrop quiet "MAIZE" (snd r1) in
  exists id,
    fst r1 = Ok id
    /\ fst r2 = Ok id
    /\ crops (st_db (snd r2)) = crops (st_db (snd r1))
    /\ (is_ascii "Maize" = true ->
        lookup_crop "Maize" [] = None ->
        let created :=
          mkCrop id "Maize" (categorizeCrop "Maize")
                 (determineUnit (categorizeCrop "Maize") "Maize") true in
        crops (st_db (snd r2)) = [] ++ [created]
        /\ filter (fun c => ilike "Maize" (crop_name c))
                  (crops (st_db (snd r2))) = [created]
        /\ (plain_name "Maize" = true ->
            filter (fun c => eqb_ci (crop_name c) "Maize")
                   (crops (st_db (snd r2))) = [created])).
Proof.
  apply (resolveCrop_is_case_insensitive quiet empty_store "Maize" "MAIZE");
    evaluate.
Defined.

(** X24.  A crop name is matched as a pattern.  A name that is the name
    of a stored crop with some characters replaced by underscores
    resolves, if no statement is rejected, to a crop of the store that
    it matches, and creates nothing - although the store may hold no
    crop of that name. *)
Theorem underscore_name_reuses_a_crop :
  forall env s name c,
    tx_fault_free env ->
    tx_open s ->
    In c (crops (st_db s)) ->
    masks name (crop_name c) = true ->
    let r := resolveCrop env name s in
    crops (st_db (snd r)) = crops (st_db s)
    /\ exists c',
         In c' (crops (st_db s))
         /\ ilike name (crop_name c') = true
         /\ fst r = Ok (crop_id c').
Proof.
  intros env s name c Hfree Hopen Hin Hm r. subst r.
  unfold tx_open in Hopen.
  destruct (find_finds (fun c => ilike name (crop_name c))
              (crops (st_db s)) c Hin (masks_ilike _ _ Hm)) as [c' Hc'].
  unfold resolveCrop, crops_findFirst, bind, tx_call, gets, ret, lookup_crop.
  rewrite Hopen, Hfree. st_simpl. rewrite Hc'. cbn [option_map fst snd].
  st_simpl. split; [reflexivity|].
  apply find_some in Hc'. exists c'. tauto.
Qed.

(** "Ma_ze" resolves to Maize. *)
Lemma underscore_name_reuses_a_crop_witness :
  let r := resolveCrop quiet "Ma_ze" seeded_store in
  fst r = Ok 0
  /\ crops (st_db (snd r)) = crops (st_db seeded_store)
  /\ filter (fun c => eqb_ci (crop_name c) "Ma_ze")
            (crops (st_db (snd r))) = [].
Proof.
  cbv zeta. split; [vm_compute; reflexivity|].
  split; [|vm_compute; reflexivity].
  apply (underscore_name_reuses_a_crop quiet seeded_store "Ma_ze"
           (mkCrop 0 "Maize" "cereals" "kg" true)).
  - intros n. reflexivity.
  - reflexivity.
  - left. reflexivity.
  - reflexivity.
Defined.

(** *** The sync run *)

Section Sync.
Variable date_parse : string -> option Z.
Variable tz : Z.
Variable env : Env.

(** A transaction rejected at its boundary throws that error and
    leaves the database as it found it. *)
Lemma rejected_transaction_rolls_back rows s e :
  commit_fault env = Some e ->
  triple (processKamisFile date_parse tz env (Parsed rows)) s
    (fun _ _ => False)
    (fun e' s' => e' = e /\ st_db s' = st_db s).
Proof.
  intros He. cbn [processKamisFile]. apply triple_transaction.
  rewrite He.
  eapply triple_weaken;
    [apply (tx_callback_grows date_parse tz env rows) | | intros ? ? []].
  cbn beta. intros ? ? _. split; reflexivity.
Qed.

Lemma failed_sync rows path s e :
  commit_fault env = Some e ->
  prisma_fault_free env ->
  triple (syncKamisData date_parse tz env path (Some (Parsed rows))) s
    (fun _ _ => False)
    (fun e' s' =>
       e' = e
       /\ crops (st_db s') = crops (st_db s)
       /\ regions (st_db s') = regions (st_db s)
       /\ markets (st_db s') = markets (st_db s)
       /\ price_entries (st_db s') = price_entries (st_db s)
       /\ exists run,
            In run (kamis_sync_logs (st_db s'))
            /\ log_id run = st_next_id s
            /\ log_status run = "failed"
            /\ log_error_message run
               = (if nonempty (message e) then Some (message e) else None)
            /\ log_records_processed run = 0
            /\ log_records_inserted run = 0
            /\ log_records_updated run = 0
            /\ log_completed_at run <> None).
Proof.
  intros He Hfree. unfold syncKamisData. cbv iota.
  repeat (wp_step; try (rewrite Hfree in *; discriminate)).
  eapply triple_weaken;
    [apply rejected_transaction_rolls_back; exact He
    | intros ? ? []
    | cbn beta].
  intros e' s1 [-> Hdb].
  repeat (wp_step; try (rewrite Hfree in *; discriminate)).
  st_simpl. rewrite Hdb. st_simpl.
  rewrite existsb_app. cbn [existsb log_id orb].
  rewrite Nat.eqb_refl, orb_true_r. cbv beta iota.
  wp. rewrite Hdb. st_simpl. repeat split.
  eexists. split.
  { rewrite map_app. apply in_or_app. right. cbn [map log_id].
    rewrite Nat.eqb_refl. left. reflexivity. }
  cbn. repeat split. discriminate.
Qed.
End Sync.

(** C3, as the code has it.  When the batch transaction is rejected at
    its boundary (the timeout elapsed, the commit failed) and the sync
    log itself can be written, [syncKamisData] throws the transaction's
    error instead of returning an aggregate, the reference and fact
    tables are as they were before the run, and the run's log row is
    finalized with status "failed", zero counts, a completion time and
    the error's message ([errorMessage || null]: null only for an empty
    message). *)
Theorem failed_transaction_commits_nothing :
  forall date_parse tz env path rows s e,
    commit_fault env = Some e ->
    prisma_fault_free env ->
    let out := syncKamisData date_parse tz env path (Some (Parsed rows)) s in
    fst out = Throw e
    /\ crops (st_db (snd out)) = crops (st_db s)
    /\ regions (st_db (snd out)) = regions (st_db s)
    /\ markets (st_db (snd out)) = markets (st_db s)
    /\ price_entries (st_db (snd out)) = price_entries (st_db s)
    /\ exists run,
         In run (kamis_sync_logs (st_db (snd out)))
         /\ log_id run = st_next_id s
         /\ log_status run = "failed"
         /\ log_error_message run
            = (if nonempty (message e) then Some (message e) else None)
         /\ log_records_processed run = 0
         /\ log_records_inserted run = 0
         /\ log_records_updated run = 0
         /\ log_completed_at run <> None.
Proof.
  intros date_parse tz env path rows s e He Hfree out. subst out.
  assert (T := failed_sync date_parse tz env rows path s e He Hfree).
  unfold triple in T.
  destruct (syncKamisData date_parse tz env path (Some (Parsed rows)) s)
    as [[a|e'] s']; [contradiction|].
  cbn [fst snd]. destruct T as [-> T]. split; [reflexivity | exact T].
Qed.

Lemma failed_transaction_commits_nothing_witness :
  let out := syncKamisData iso_date_only nairobi timed_out "kamis_latest.csv"
               (Some (Parsed [maize_4550; maize_4600])) seeded_store in
  fst out = Throw (mkError (Some "P2028") "Transaction already closed")
  /\ crops (st_db (snd out)) = crops (st_db seeded_store)
  /\ regions (st_db (snd out)) = regions (st_db seeded_store)
  /\ markets (st_db (snd out)) = markets (st_db seeded_store)
  /\ price_entries (st_db (snd out)) = price_entries (st_db seeded_store)
  /\ exists run,
       In run (kamis_sync_logs (st_db (snd out)))
       /\ log_id run = st_next_id seeded_store
       /\ log_status run = "failed"
       /\ log_error_message run
          = (if nonempty "Transaction already closed"
             then Some "Transaction already closed" else None)
       /\ log_records_processed run = 0
       /\ log_records_inserted run = 0
       /\ log_records_updated run = 0
       /\ log_completed_at run <> None.
Proof.
  apply (failed_transaction_commits_nothing iso_date_only nairobi timed_out
           "kamis_latest.csv" [maize_4550; maize_4600] seeded_store
           (mkError (Some "P2028") "Transaction already closed")).
  - reflexivity.
  - intros n. reflexivity.
Defined.

(** C3 as stated fails: an error raised inside the transaction by a
    rejected statement is caught by the handler of its row.  Here
    [tx.crops.create] is rejected; the run returns its aggregate instead
    of throwing. *)
Lemma row_error_does_not_fail_the_run :
  ~ (forall date_parse tz env path rows s n e,
       prisma_fault_free env ->
       let out :=
         syncKamisData date_parse tz env path (Some (Parsed rows)) s in
       st_tx_ops s <= n < st_tx_ops (snd out) ->
       tx_fault env n = Some e ->
       (exists e', fst out = Throw e')
       /\ exists run,
            In run (kamis_sync_logs (st_db (snd out)))
            /\ log_id run = st_next_id s
            /\ log_status run = "failed"
            /\ log_error_message run <> None).
Proof.
  intros H.
  assert (Hsent : 0 <= 1
                  < st_tx_ops
                      (snd (syncKamisData iso_date_only nairobi racing
                              "kamis_latest.csv"
                              (Some (Parsed [maize_4550])) empty_store))).
  { vm_compute. split; repeat constructor. }
  destruct (H iso_date_only nairobi racing "kamis_latest.csv" [maize_4550]
              empty_store 1 unique_violation (fun _ => eq_refl) Hsent
              eq_refl) as [[e' He'] _].
  vm_compute in He'. discriminate He'.
Qed.

(** *** Lookups in growing tables *)

Lemma find_app_some {A} (f : A -> bool) l l' x :
  find f l = Some x -> find f (l ++ l') = Some x.
Proof. intros H. rewrite find_app, H. reflexivity. Qed.

Lemma lookup_app {A} (f : A -> bool) (id : A -> nat) l l' n :
  option_map id (find f l) = Some n ->
  option_map id (find f (l ++ l')) = Some n.
Proof.
  destruct (find f l) as [x|] eqn:Hx; [|discriminate].
  rewrite (find_app_some _ _ _ _ Hx). trivial.
Qed.

Lemma lookup_new {A} (f : A -> bool) (id : A -> nat) l x :
  option_map id (find f l) = None -> f x = true ->
  option_map id (find f (l ++ [x])) = Some (id x).
Proof.
  destruct (find f l) as [y|] eqn:Hy; [discriminate|].
  intros _ Hx. rewrite find_app, Hy. cbn. rewrite Hx. reflexivity.
Qed.

Lemma lookup_crop_grows d d' name id :
  grows d d' ->
  lookup_crop name (crops d) = Some id ->
  lookup_crop name (crops d') = Some id.
Proof.
  intros (lc & _ & _ & _ & -> & _). unfold lookup_crop. apply lookup_app.
Qed.

Lemma lookup_region_grows d d' name id :
  grows d d' ->
  lookup_region name (regions d) = Some id ->
  lookup_region name (regions d') = Some id.
Proof.
  intros (_ & lr & _ & _ & _ & -> & _). unfold lookup_region.
  apply lookup_app.
Qed.

Lemma resolved_market_grows d d' name rid mid :
  grows d d' ->
  resolved_market name rid (markets d) = Some mid ->
  resolved_market name rid (markets d') = Some mid.
Proof.
  intros (_ & _ & lm & _ & _ & _ & -> & _). unfold resolved_market.
  destruct (nonempty name); [|trivial].
  unfold lookup_market.
  destruct (option_map market_id _) as [m|] eqn:Hm; [|discriminate].
  intros [= <-]. erewrite lookup_app by exact Hm. reflexivity.
Qed.

Lemma lookup_fact_grows d d' c r m a b id :
  grows d d' ->
  lookup_fact c r m a b (price_entries d) = Some id ->
  lookup_fact c r m a b (price_entries d') = Some id.
Proof.
  intros (_ & _ & _ & lp & _ & _ & _ & -> & _). unfold lookup_fact.
  apply lookup_app.
Qed.

Lemma settled_grows date_parse tz d d' rawRow c :
  grows d d' ->
  settled date_parse tz d rawRow c -> settled date_parse tz d' rawRow c.
Proof.
  intros G [Hv | (cid & rid & mid & a & b & fid & Hc & Hr & Hm & Hw & Hf)];
    [left; exact Hv | right].
  exists cid, rid, mid, a, b, fid.
  repeat split;
    eauto using lookup_crop_grows, lookup_region_grows,
      resolved_market_grows, lookup_fact_grows.
Qed.

(** *** Day windows *)

Lemma setHours_start tz t :
  setHours tz (Some t) 0 0 0 0
  = time_clip (local_day tz t * msPerDay - tz)%Z.
Proof. unfold setHours, local_day. f_equal; lia. Qed.

Lemma setHours_end tz t :
  setHours tz (Some t) 23 59 59 999
  = time_clip (local_day tz t * msPerDay + 86399999 - tz)%Z.
Proof. unfold setHours, local_day. f_equal; lia. Qed.

Lemma time_clip_some t u : time_clip t = Some u -> u = t /\ (Z.abs t <= max_time)%Z.
Proof.
  unfold time_clip. destruct (Z.abs t <=? max_time)%Z eqn:H; [|discriminate].
  intros [= <-]. apply Z.leb_le in H. auto.
Qed.

Lemma time_clip_in_range t : (Z.abs t <= max_time)%Z -> time_clip t = Some t.
Proof. unfold time_clip. intros H. apply Z.leb_le in H. rewrite H. trivial. Qed.

Lemma local_day_bounds tz t :
  (local_day tz t * msPerDay - tz <= t
   <= local_day tz t * msPerDay + 86399999 - tz)%Z.
Proof.
  unfold local_day, msPerDay.
  pose proof (Z.mul_div_le (t + tz) 86400000 eq_refl).
  pose proof (Z.mul_succ_div_gt (t + tz) 86400000 eq_refl).
  lia.
Qed.

(** The window of a valid date contains it. *)
Lemma day_window_contains tz t a b :
  day_window tz (Some t) = Some (a, b) -> (a <= t <= b)%Z.
Proof.
  unfold day_window. rewrite setHours_start, setHours_end.
  destruct (time_clip _) as [a'|] eqn:Ha; [|discriminate].
  destruct (time_clip (_ + 86399999 - tz)%Z) as [b'|] eqn:Hb; [|discriminate].
  intros [= <- <-].
  apply time_clip_some in Ha as [-> _]. apply time_clip_some in Hb as [-> _].
  apply local_day_bounds.
Qed.

(** Two clock readings on the same local day have the same window. *)
Lemma day_window_same_day tz c c' w :
  local_day tz c = local_day tz c' ->
  day_window tz (time_clip c) = Some w ->
  day_window tz (time_clip c') = Some w.
Proof.
  intros Hday Hw.
  destruct (time_clip c) as [t|] eqn:Hc; [|discriminate Hw].
  apply time_clip_some in Hc as [-> _].
  assert (Hc' : time_clip c' = Some c').
  { apply time_clip_in_range.
    destruct w as [a b].
    unfold day_window in Hw. rewrite setHours_start, setHours_end in Hw.
    destruct (time_clip _) as [a'|] eqn:Ha in Hw; [|discriminate].
    destruct (time_clip (_ + 86399999 - tz)%Z) as [b'|] eqn:Hb in Hw;
      [|discriminate].
    apply time_clip_some in Ha as [_ Ha]. apply time_clip_some in Hb as [_ Hb].
    pose proof (local_day_bounds tz c'). rewrite <- Hday in *. lia. }
  rewrite Hc'. unfold day_window in *.
  rewrite setHours_start, setHours_end in *. rewrite <- Hday. exact Hw.
Qed.

Lemma settled_same_day date_parse tz d rawRow c c' :
  local_day tz c = local_day tz c' ->
  settled date_parse tz d rawRow c -> settled date_parse tz d rawRow c'.
Proof.
  intros Hday [Hv | (cid & rid & mid & a & b & fid & Hc & Hr & Hm & Hw & Hf)];
    [left; exact Hv | right].
  exists cid, rid, mid, a, b, fid. repeat split; trivial.
  unfold row_entry_date in *.
  destruct (dateField_of (normalize rawRow)); [exact Hw|].
  eapply day_window_same_day; eassumption.
Qed.

(** *** What a row that did not fail leaves behind *)

Lemma utc_date_mono a b : (a <= b)%Z -> (utc_date a <= utc_date b)%Z.
Proof.
  intros H. unfold utc_date, msPerDay. apply Z.div_le_mono; [lia | exact H].
Qed.

(** A time value between two others has its calendar date between
    theirs. *)
Lemma same_key_in_window_new c r m a b id v t src ver u :
  (a <= t <= b)%Z ->
  same_key_in_window c r m a b (mkPriceEntry id c r m v t src ver u) = true.
Proof.
  intros [Ha Hb]. unfold same_key_in_window. cbn [pe_crop_id pe_region_id
    pe_market_id pe_entry_date].
  rewrite !Nat.eqb_refl, opt_nat_eqb_refl.
  apply utc_date_mono, Z.leb_le in Ha. apply utc_date_mono, Z.leb_le in Hb.
  rewrite Ha, Hb. reflexivity.
Qed.

Section Settling.
Variable date_parse : string -> option Z.
Variable tz : Z.
Variable env : Env.

Lemma resolveCrop_ok name s :
  backslash_free name = true ->
  triple (resolveCrop env name) s
    (fun id s' =>
       lookup_crop name (crops (st_db s')) = Some id
       /\ grows (st_db s) (st_db s')
       /\ errorCount s' = errorCount s
       /\ st_aborted s' = st_aborted s)
    (fun _ s' => errorCount s' = errorCount s).
Proof.
  intros Hb.
  wp; try reflexivity;
    (split; [|split; [solve_grows | split; reflexivity]]).
  - assumption.
  - unfold lookup_crop in *. apply (lookup_new _ crop_id); [assumption|].
    apply ilike_same; [exact Hb | reflexivity].
Qed.

Lemma resolveRegion_ok name s :
  backslash_free name = true ->
  triple (resolveRegion env name) s
    (fun id s' =>
       lookup_region name (regions (st_db s')) = Some id
       /\ grows (st_db s) (st_db s')
       /\ errorCount s' = errorCount s
       /\ st_aborted s' = st_aborted s)
    (fun _ s' => errorCount s' = errorCount s).
Proof.
  intros Hb.
  wp; try reflexivity;
    (split; [|split; [solve_grows | split; reflexivity]]).
  - assumption.
  - unfold lookup_region in *. apply (lookup_new _ region_id); [assumption|].
    apply ilike_same; [exact Hb | reflexivity].
Qed.

Lemma resolveMarket_ok name rid s :
  backslash_free name = true ->
  triple (resolveMarket env name rid) s
    (fun mid s' =>
       resolved_market name rid (markets (st_db s')) = Some mid
       /\ grows (st_db s) (st_db s')
       /\ errorCount s' = errorCount s
       /\ st_aborted s' = st_aborted s)
    (fun _ s' => errorCount s' = errorCount s).
Proof.
  intros Hb.
  wp; try reflexivity;
    (split; [|split; [solve_grows | split; reflexivity]]);
    unfold resolved_market;
    match goal with H : nonempty name = _ |- _ => rewrite H end.
  - match goal with H : lookup_market _ _ _ = _ |- _ => rewrite H end.
    reflexivity.
  - unfold lookup_market in *.
    erewrite (lookup_new _ market_id); [reflexivity | assumption |].
    cbn [market_name market_region_id].
    rewrite Nat.eqb_refl, (ilike_same name name Hb eq_refl). reflexivity.
  - reflexivity.
Qed.

Lemma insertUnlessDuplicate_ok cid rid mid priceVal entryDate s :
  triple (insertUnlessDuplicate tz env cid rid mid priceVal entryDate) s
    (fun _ s' =>
       (exists a b fid,
           day_window tz entryDate = Some (a, b)
           /\ lookup_fact cid rid mid a b (price_entries (st_db s')) = Some fid)
       /\ grows (st_db s) (st_db s')
       /\ errorCount s' = errorCount s
       /\ st_aborted s' = st_aborted s)
    (fun _ s' => errorCount s' = errorCount s).
Proof.
  unfold insertUnlessDuplicate, price_entries_findFirst.
  destruct (setHours tz entryDate 0 0 0 0) as [a|] eqn:Ha;
    [|wp; reflexivity].
  destruct (setHours tz entryDate 23 59 59 999) as [b|] eqn:Hb;
    [|wp; reflexivity].
  assert (Hw : day_window tz entryDate = Some (a, b)).
  { unfold day_window. rewrite Ha, Hb. reflexivity. }
  wp; try reflexivity;
    (split; [|split; [solve_grows | split; reflexivity]]).
  - exists a, b. eexists. split; [exact Hw | eassumption].
  - exists a, b. eexists. split; [exact Hw|].
    unfold lookup_fact in *. apply (lookup_new _ pe_id); [assumption|].
    apply same_key_in_window_new. subst entryDate.
    apply (day_window_contains tz). exact Hw.
Qed.

Lemma entryDate_of_ok rawRow s :
  triple (entryDate_of date_parse env (normalize rawRow)) s
    (fun d s' =>
       d = row_entry_date date_parse (normalize rawRow) (clock env (st_reads s))
       /\ st_db s' = st_db s
       /\ st_tx_ops s' = st_tx_ops s
       /\ insertedCount s' = insertedCount s
       /\ skippedCount s' = skippedCount s
       /\ errorCount s' = errorCount s
       /\ st_aborted s' = st_aborted s)
    (fun _ _ => False).
Proof.
  unfold row_entry_date.
  wp; repeat split.
Qed.

(** If the body of the row returns, no statement of it was rejected and
    the row is settled in the database it leaves; thrown or not, the
    error counter is untouched. *)
Lemma row_body_settles rawRow s :
  names_backslash_free rawRow ->
  triple (row_body date_parse tz env rawRow) s
    (fun _ s' =>
       errorCount s' = errorCount s
       /\ st_aborted s' = st_aborted s
       /\ settled date_parse tz (st_db s') rawRow (clock env (st_reads s)))
    (fun _ s' => errorCount s' = errorCount s).
Proof.
  intros (Hbc & Hbr & Hbm).
  unfold row_body. apply triple_bind.
  eapply triple_weaken;
    [apply entryDate_of_ok | cbn beta | cbn beta; contradiction].
  intros d s1 (-> & Hdb & _ & _ & _ & He1 & Ha1).
  destruct (fails_validation _ _ _) eqn:Hv.
  { wp. split; [assumption|]. split; [assumption | left; exact Hv]. }
  apply triple_bind.
  eapply triple_weaken;
    [apply resolveCrop_ok; exact Hbc | cbn beta | cbn beta; congruence].
  intros cid s2 (Hc & G2 & He2 & Ha2).
  apply triple_bind.
  eapply triple_weaken;
    [apply resolveRegion_ok; exact Hbr | cbn beta | cbn beta; congruence].
  intros rid s3 (Hr & G3 & He3 & Ha3).
  apply triple_bind.
  eapply triple_weaken;
    [apply resolveMarket_ok; exact Hbm | cbn beta | cbn beta; congruence].
  intros mid s4 (Hm & G4 & He4 & Ha4).
  eapply triple_weaken;
    [apply insertUnlessDuplicate_ok | cbn beta | cbn beta; congruence].
  intros [] s5 ((a & b & fid & Hw & Hf) & G5 & He5 & Ha5).
  split; [congruence|]. split; [congruence|]. right.
  exists cid, rid, mid, a, b, fid. repeat split; trivial.
  - eapply lookup_crop_grows; [|exact Hc].
    exact (grows_trans _ _ _ G3 (grows_trans _ _ _ G4 G5)).
  - eapply lookup_region_grows; [|exact Hr].
    exact (grows_trans _ _ _ G4 G5).
  - eapply resolved_market_grows; [|exact Hm]. exact G5.
Qed.

(** A row either raises the error counter or is settled afterwards,
    with the transaction as it was. *)
Lemma processRow_settles rawRow s :
  names_backslash_free rawRow ->
  triple (processRow date_parse tz env rawRow) s
    (fun _ s' =>
       errorCount s' = S (errorCount s)
       \/ (errorCount s' = errorCount s
           /\ st_aborted s' = st_aborted s
           /\ settled date_parse tz (st_db s') rawRow
                (clock env (st_reads s))))
    (fun _ _ => False).
Proof.
  intros Hb.
  unfold processRow. apply triple_try_catch.
  eapply triple_weaken;
    [apply row_body_settles; exact Hb | cbn beta | cbn beta].
  - intros _ s' H. right. exact H.
  - intros _ s' H. wp. left. congruence.
Qed.

End Settling.

(** *** What a settled row does *)

Section Skipping.
Variable date_parse : string -> option Z.
Variable tz : Z.
Variable env : Env.
Hypothesis Hfree : tx_fault_free env.

Lemma resolveCrop_found name s id :
  tx_open s ->
  lookup_crop name (crops (st_db s)) = Some id ->
  resolveCrop env name s = (Ok id, bump_tx s).
Proof.
  intros Ho H. unfold resolveCrop, bind, crops_findFirst, tx_call, gets.
  rewrite Ho, Hfree. st_simpl. rewrite H. reflexivity.
Qed.

Lemma resolveRegion_found name s id :
  tx_open s ->
  lookup_region name (regions (st_db s)) = Some id ->
  resolveRegion env name s = (Ok id, bump_tx s).
Proof.
  intros Ho H. unfold resolveRegion, bind, regions_findFirst, tx_call, gets.
  rewrite Ho, Hfree. st_simpl. rewrite H. reflexivity.
Qed.

Lemma resolveMarket_found name rid s mid :
  tx_open s ->
  resolved_market name rid (markets (st_db s)) = Some mid ->
  resolveMarket env name rid s
  = (Ok mid, if nonempty name then bump_tx s else s).
Proof.
  intros Ho. unfold resolved_market, resolveMarket.
  destruct (nonempty name); [|intros [= <-]; reflexivity].
  destruct (lookup_market name rid (markets (st_db s))) as [m|] eqn:Hm;
    [|discriminate].
  intros [= <-]. unfold bind, markets_findFirst, tx_call, gets.
  rewrite Ho, Hfree. st_simpl. rewrite Hm. reflexivity.
Qed.

Lemma insertUnlessDuplicate_dup cid rid mid priceVal entryDate s a b fid :
  tx_open s ->
  day_window tz entryDate = Some (a, b) ->
  lookup_fact cid rid mid a b (price_entries (st_db s)) = Some fid ->
  insertUnlessDuplicate tz env cid rid mid priceVal entryDate s
  = (Ok tt,
     set_counts (insertedCount s) (S (skippedCount s)) (errorCount s)
                (bump_tx s)).
Proof.
  intros Ho.
  unfold day_window, insertUnlessDuplicate, price_entries_findFirst.
  destruct (setHours tz entryDate 0 0 0 0) as [a'|]; [|discriminate].
  destruct (setHours tz entryDate 23 59 59 999) as [b'|]; [|discriminate].
  intros [= -> ->] Hf. unfold bind, tx_call, gets.
  rewrite Ho, Hfree. st_simpl. rewrite Hf. reflexivity.
Qed.

(** In an environment that rejects no statement and a transaction that
    is open, a settled row is counted in [skipped] and leaves the
    database as it is. *)
Lemma settled_row_is_skipped rawRow s :
  tx_open s ->
  settled date_parse tz (st_db s) rawRow (clock env (st_reads s)) ->
  triple (processRow date_parse tz env rawRow) s
    (fun _ s' =>
       st_db s' = st_db s
       /\ skippedCount s' = S (skippedCount s)
       /\ insertedCount s' = insertedCount s
       /\ errorCount s' = errorCount s
       /\ tx_open s')
    (fun _ _ => False).
Proof.
  intros Ho Hs. unfold tx_open in *.
  destruct (fails_validation (cropName_of (normalize rawRow))
              (regionName_of (normalize rawRow))
              (priceVal_of (normalize rawRow))) eqn:Hv.
  { eapply triple_weaken;
      [apply row_fails_validation; exact Hv | cbn beta | auto].
    intros _ s' (H1 & H2 & H3 & H4 & _ & H6).
    repeat split; try assumption. congruence. }
  destruct Hs as [Hv' | (cid & rid & mid & a & b & fid
                         & Hc & Hr & Hm & Hw & Hf)];
    [congruence|].
  assert (T := entryDate_of_ok date_parse env rawRow s).
  unfold triple, processRow, try_catch, row_body, bind in *.
  destruct (entryDate_of date_parse env (normalize rawRow) s)
    as [[d|e] s1]; [|contradiction].
  destruct T as (-> & Hdb & _ & Hi & Hk & He & Ha).
  assert (Ho1 : st_aborted s1 = false) by congruence.
  rewrite Hv.
  rewrite (resolveCrop_found _ s1 cid Ho1) by (rewrite Hdb; exact Hc).
  rewrite (resolveRegion_found _ (bump_tx s1) rid Ho1)
    by (st_simpl; rewrite Hdb; exact Hr).
  rewrite (resolveMarket_found _ rid (bump_tx (bump_tx s1)) mid Ho1)
    by (st_simpl; rewrite Hdb; exact Hm).
  destruct (nonempty (marketName_of (normalize rawRow)));
    erewrite insertUnlessDuplicate_dup
      by (first [exact Ho1 | st_simpl; rewrite ?Hdb; eassumption]);
    st_simpl; auto.
Qed.

End Skipping.

(** *** Running the same rows twice *)

Lemma triple_and {A} (m : M A) s (Q1 Q2 : A -> St -> Prop)
    (E1 E2 : JsError -> St -> Prop) :
  triple m s Q1 E1 -> triple m s Q2 E2 ->
  triple m s (fun a s' => Q1 a s' /\ Q2 a s') (fun e s' => E1 e s' /\ E2 e s').
Proof.
  unfold triple. destruct (m s) as [[a|e] s']; auto.
Qed.

Section Twice.
Variable date_parse : string -> option Z.
Variable tz : Z.

(** First run: if the error counter did not move, no statement was
    rejected and every row is settled in the database the loop
    leaves. *)
Lemma for_rows_settles env rows :
  Forall names_backslash_free rows ->
  forall s,
  triple (for_rows date_parse tz env rows) s
    (fun _ s' =>
       errorCount s <= errorCount s'
       /\ grows (st_db s) (st_db s')
       /\ (errorCount s' = errorCount s ->
           st_aborted s' = st_aborted s
           /\ Forall (fun r => exists i,
                        settled date_parse tz (st_db s') r (clock env i))
                     rows))
    (fun _ _ => False).
Proof.
  induction 1 as [|rawRow rest Hb Hbs IH]; intros s; cbn [for_rows].
  - apply triple_ret. split; [lia|]. split; [apply grows_refl|].
    intros _. split; [reflexivity | constructor].
  - apply triple_bind.
    eapply triple_weaken;
      [apply triple_and;
         [apply processRow_settles; exact Hb | apply processRow_grows]
      | cbn beta | cbn beta; tauto].
    intros ? s1 [Hrow G1].
    eapply triple_weaken; [apply IH | cbn beta | auto].
    intros ? s2 (Hle & G2 & Hrest).
    split; [destruct Hrow as [Hr | [Hr _]]; lia|].
    split; [eapply grows_trans; eassumption|].
    intros Heq.
    destruct Hrow as [Hr | (Hr & Ha & Hset)]; [lia|].
    destruct Hrest as [Ha2 Hrest]; [lia|].
    split; [congruence|].
    constructor.
    + exists (st_reads s). eapply settled_grows; eassumption.
    + exact Hrest.
Qed.

(** Second run: rows that are all settled are all skipped, and the
    database stays as it is. *)
Lemma for_rows_skips env rows d :
  tx_fault_free env ->
  Forall (fun r => forall j, settled date_parse tz d r (clock env j)) rows ->
  forall s, st_db s = d -> tx_open s ->
    triple (for_rows date_parse tz env rows) s
      (fun _ s' =>
         st_db s' = d
         /\ skippedCount s' = List.length rows + skippedCount s
         /\ insertedCount s' = insertedCount s
         /\ errorCount s' = errorCount s
         /\ tx_open s')
      (fun _ _ => False).
Proof.
  intros Hfree Hall. induction Hall as [|rawRow rest Hrow Hrest IH];
    intros s Hd Ho; cbn [for_rows List.length].
  - apply triple_ret. auto.
  - apply triple_bind.
    eapply triple_weaken;
      [apply settled_row_is_skipped;
         [exact Hfree | exact Ho | rewrite Hd; apply Hrow]
      | cbn beta | auto].
    intros ? s1 (Hd1 & Hk1 & Hi1 & He1 & Ho1).
    eapply triple_weaken; [apply IH; [congruence | exact Ho1] | cbn beta | auto].
    intros ? s2 (Hd2 & Hk2 & Hi2 & He2 & Ho2).
    repeat split; try congruence. lia.
Qed.

End Twice.

(** C4.  Take a file whose first run returned an aggregate with no
    errors.  Run the same rows again on the database the first run
    left, on the same local day, with no statement rejected: the second
    run returns [inserted = 0] with every row in [skipped], and leaves
    the database as it found it.  The names in the file hold no
    backslash, so that each of them, sent as a pattern, finds the row
    that was created for it: the identities resolved are the same in
    both runs. *)
Theorem reingesting_the_same_file_inserts_nothing :
  forall date_parse tz env1 env2 rows s1 agg1 s1' s2,
    Forall names_backslash_free rows ->
    processKamisFile date_parse tz env1 (Parsed rows) s1 = (Ok agg1, s1') ->
    errors agg1 = 0 ->
    st_db s2 = st_db s1' ->
    tx_fault_free env2 ->
    commit_fault env2 = None ->
    (forall i j,
        local_day tz (clock env1 i) = local_day tz (clock env2 j)) ->
    let out := processKamisFile date_parse tz env2 (Parsed rows) s2 in
    fst out = Ok (mkAggregate 0 (List.length rows) 0 (List.length rows))
    /\ st_db (snd out) = st_db s1'.
Proof.
  intros date_parse tz env1 env2 rows s1 agg1 s1' s2
         Hnames Hrun1 Herr Hdb Hfree Hcommit Hday out. subst out.
  (* the first run settles every row *)
  assert (Hall : Forall (fun r => forall j,
                     settled date_parse tz (st_db s1') r (clock env2 j))
                   rows).
  { cbn [processKamisFile] in Hrun1. unfold transaction, tx_callback in Hrun1.
    unfold bind at 1, modify in Hrun1.
    assert (T := for_rows_settles date_parse tz env1 rows Hnames
                   (set_counts 0 0 0 (set_aborted false s1))).
    unfold triple in T. unfold bind at 1 in Hrun1.
    destruct (for_rows date_parse tz env1 rows
                (set_counts 0 0 0 (set_aborted false s1)))
      as [[[]|e] s'] eqn:Hfor; [|contradiction].
    unfold gets in Hrun1.
    destruct (commit_fault env1); [discriminate|].
    destruct T as (_ & _ & T). st_simpl.
    assert (Hagg : agg1 = mkAggregate (insertedCount s') (skippedCount s')
                            (errorCount s') (List.length rows))
      by (destruct (st_aborted s'); congruence).
    rewrite Hagg in Herr. cbn [errors] in Herr.
    destruct (T Herr) as [Ha T']. rewrite Ha in Hrun1.
    injection Hrun1 as _ <-.
    eapply Forall_impl; [|exact T'].
    intros r [i Hr] j. eapply settled_same_day; [apply Hday | exact Hr]. }
  (* the second run skips them all *)
  assert (T := for_rows_skips date_parse tz env2 rows (st_db s1') Hfree Hall
                 (set_counts 0 0 0 (set_aborted false s2)) Hdb eq_refl).
  unfold triple in T.
  cbn [processKamisFile]. unfold transaction, tx_callback, bind, modify, gets.
  destruct (for_rows date_parse tz env2 rows
              (set_counts 0 0 0 (set_aborted false s2)))
    as [[[]|e] s'] eqn:Hfor; [|contradiction].
  rewrite Hcommit.
  destruct T as (Hd & Hk & Hi & He & Ho). unfold tx_open in Ho.
  rewrite Ho. cbn [fst snd]. st_simpl.
  rewrite Hk, Hi, He, Nat.add_0_r. split; [reflexivity | exact Hd].
Qed.

Lemma reingesting_the_same_file_inserts_nothing_witness :
  let rows := [maize_4550; maize_undated] in
  let s1' := snd (processKamisFile iso_date_only nairobi quiet (Parsed rows)
                    seeded_store) in
  let out := processKamisFile iso_date_only nairobi quiet (Parsed rows) s1' in
  fst out = Ok (mkAggregate 0 (List.length rows) 0 (List.length rows))
  /\ st_db (snd out) = st_db s1'.
Proof.
  intros rows s1'.
  apply (reingesting_the_same_file_inserts_nothing iso_date_only nairobi
           quiet quiet rows seeded_store (mkAggregate 1 1 0 2) s1' s1').
  - repeat constructor.
  - vm_compute. reflexivity.
  - reflexivity.
  - reflexivity.
  - intros n. reflexivity.
  - reflexivity.
  - intros i j. reflexivity.
Defined.

(** *** A fresh row *)

Lemma day_window_valid tz t :
  (Z.abs t <= max_time - 86399999)%Z ->
  day_window tz (Some t)
  = Some ((local_day tz t * msPerDay - tz)%Z,
          (local_day tz t * msPerDay + 86399999 - tz)%Z).
Proof.
  intros Ht. unfold day_window. rewrite setHours_start, setHours_end.
  pose proof (local_day_bounds tz t).
  rewrite !time_clip_in_range by lia. reflexivity.
Qed.

Lemma lookup_fact_none c r m a b l :
  Forall (fun p => ~ on_date_between a b p) l ->
  lookup_fact c r m a b l = None.
Proof.
  intros Hall. unfold lookup_fact.
  destruct (find _ l) as [p|] eqn:Hp; [|reflexivity].
  apply find_some in Hp as [Hin Hp].
  apply same_key_in_window_date in Hp.
  rewrite Forall_forall in Hall. destruct (Hall p Hin Hp).
Qed.

Section Fresh.
Variable date_parse : string -> option Z.
Variable tz : Z.
Variable env : Env.
Hypothesis Hfree : tx_fault_free env.

(** With no statement rejected, the resolvers return and touch neither
    the fact table nor the counters. *)
Lemma resolveCrop_quiet name s :
  tx_open s ->
  triple (resolveCrop env name) s
    (fun _ s' =>
       price_entries (st_db s') = price_entries (st_db s)
       /\ insertedCount s' = insertedCount s
       /\ skippedCount s' = skippedCount s
       /\ errorCount s' = errorCount s
       /\ tx_open s')
    (fun _ _ => False).
Proof.
  unfold tx_open. intros Ho. wp; quiet_run Hfree Ho; repeat split; exact Ho.
Qed.

Lemma resolveRegion_quiet name s :
  tx_open s ->
  triple (resolveRegion env name) s
    (fun _ s' =>
       price_entries (st_db s') = price_entries (st_db s)
       /\ insertedCount s' = insertedCount s
       /\ skippedCount s' = skippedCount s
       /\ errorCount s' = errorCount s
       /\ tx_open s')
    (fun _ _ => False).
Proof.
  unfold tx_open. intros Ho. wp; quiet_run Hfree Ho; repeat split; exact Ho.
Qed.

Lemma resolveMarket_quiet name rid s :
  tx_open s ->
  triple (resolveMarket env name rid) s
    (fun mid s' =>
       (nonempty name = false -> mid = None)
       /\ price_entries (st_db s') = price_entries (st_db s)
       /\ insertedCount s' = insertedCount s
       /\ skippedCount s' = skippedCount s
       /\ errorCount s' = errorCount s
       /\ tx_open s')
    (fun _ _ => False).
Proof.
  unfold tx_open. intros Ho.
  wp; quiet_run Hfree Ho; (split; [congruence | repeat split; exact Ho]).
Qed.

Lemma insertUnlessDuplicate_fresh cid rid mid priceVal t s a b :
  tx_open s ->
  is_finite priceVal = true ->
  day_window tz (Some t) = Some (a, b) ->
  lookup_fact cid rid mid a b (price_entries (st_db s)) = None ->
  triple (insertUnlessDuplicate tz env cid rid mid priceVal (Some t)) s
    (fun _ s' =>
       price_entries (st_db s')
       = price_entries (st_db s)
         ++ [mkPriceEntry (st_next_id s) cid rid mid priceVal t
                          "kamis" true "kg"]
       /\ insertedCount s' = S (insertedCount s)
       /\ skippedCount s' = skippedCount s
       /\ errorCount s' = errorCount s
       /\ tx_open s')
    (fun _ _ => False).
Proof.
  unfold tx_open. intros Ho Hfin.
  unfold day_window, insertUnlessDuplicate, price_entries_findFirst,
    price_entries_create.
  destruct (setHours tz (Some t) 0 0 0 0) as [a'|]; [|discriminate].
  destruct (setHours tz (Some t) 23 59 59 999) as [b'|]; [|discriminate].
  intros [= -> ->] Hnone. rewrite Hfin.
  wp; quiet_run Hfree Ho; try congruence. repeat split. exact Ho.
Qed.

(** A valid row with a finite price whose day window holds no fact yet
    is inserted. *)
Lemma fresh_row_is_inserted rawRow s t a b :
  tx_open s ->
  fails_validation (cropName_of (normalize rawRow))
                   (regionName_of (normalize rawRow))
                   (priceVal_of (normalize rawRow)) = false ->
  is_finite (priceVal_of (normalize rawRow)) = true ->
  row_entry_date date_parse (normalize rawRow) (clock env (st_reads s))
  = Some t ->
  day_window tz (Some t) = Some (a, b) ->
  Forall (fun p => ~ on_date_between a b p) (price_entries (st_db s)) ->
  triple (processRow date_parse tz env rawRow) s
    (fun _ s' =>
       (exists id cid rid mid,
           (nonempty (marketName_of (normalize rawRow)) = false -> mid = None)
           /\ price_entries (st_db s')
              = price_entries (st_db s)
                ++ [mkPriceEntry id cid rid mid
                                 (priceVal_of (normalize rawRow))
                                 t "kamis" true "kg"])
       /\ insertedCount s' = S (insertedCount s)
       /\ skippedCount s' = skippedCount s
       /\ errorCount s' = errorCount s)
    (fun _ _ => False).
Proof.
  intros Ho Hv Hfin Hdate Hw Hnone.
  unfold processRow. apply triple_try_catch.
  unfold row_body. apply triple_bind.
  eapply triple_weaken;
    [apply entryDate_of_ok | cbn beta | cbn beta; contradiction].
  intros d s1 (-> & Hdb & _ & Hi1 & Hk1 & He1 & Ha1). rewrite Hv, Hdate.
  assert (Ho1 : tx_open s1) by (unfold tx_open in *; congruence).
  apply triple_bind.
  eapply triple_weaken;
    [apply resolveCrop_quiet; exact Ho1 | cbn beta | cbn beta; contradiction].
  intros cid s2 (Hp2 & Hi2 & Hk2 & He2 & Ho2).
  apply triple_bind.
  eapply triple_weaken;
    [apply resolveRegion_quiet; exact Ho2
    | cbn beta | cbn beta; contradiction].
  intros rid s3 (Hp3 & Hi3 & Hk3 & He3 & Ho3).
  apply triple_bind.
  eapply triple_weaken;
    [apply resolveMarket_quiet; exact Ho3
    | cbn beta | cbn beta; contradiction].
  intros mid s4 (Hmid & Hp4 & Hi4 & Hk4 & He4 & Ho4).
  assert (Hp : price_entries (st_db s4) = price_entries (st_db s))
    by congruence.
  eapply triple_weaken;
    [apply (insertUnlessDuplicate_fresh cid rid mid _ t s4 a b Ho4 Hfin Hw);
       rewrite Hp; apply lookup_fact_none; exact Hnone
    | cbn beta | cbn beta; contradiction].
  intros [] s5 (Hp5 & Hi5 & Hk5 & He5 & _).
  split; [|repeat split; congruence].
  exists (st_next_id s4), cid, rid, mid.
  split; [exact Hmid|]. rewrite Hp5, Hp. reflexivity.
Qed.

End Fresh.

(** C5.  On a host that parses "2024-01-10" as ECMAScript prescribes,
    with no statement rejected, the transaction committed and no fact
    in the store on a calendar date that the local day of
    2024-01-10T00:00Z touches (east of UTC: the 9th and the 10th): of
    the two Maize / Central Kenya rows of 2024-01-10 the first is
    inserted (at 45.50), the second is skipped as its duplicate, and
    the aggregate is {inserted: 1, skipped: 1, errors: 0,
    total_rows: 2}. *)
Theorem same_day_pair_inserts_once :
  forall date_parse tz env s,
    tx_fault_free env ->
    commit_fault env = None ->
    date_parse "2024-01-10" = Some 1704844800000%Z ->
    Forall (fun p => ~ on_date_between (day_start tz 1704844800000)
                                       (day_end tz 1704844800000) p)
           (price_entries (st_db s)) ->
    let out := processKamisFile date_parse tz env
                 (Parsed [maize_4550; maize_4600]) s in
    fst out = Ok (mkAggregate 1 1 0 2)
    /\ exists id cid rid,
         price_entries (st_db (snd out))
         = price_entries (st_db s)
           ++ [mkPriceEntry id cid rid None (Dec false 4550 (-2))
                            1704844800000 "kamis" true "kg"].
Proof.
  intros date_parse tz env s Hfree Hcommit Hparse Hstore out. subst out.
  set (t := 1704844800000%Z) in *.
  assert (Ht : (Z.abs t <= max_time - 86399999)%Z)
    by (unfold t, max_time; lia).
  assert (Hw := day_window_valid tz t Ht).
  fold (day_start tz t) (day_end tz t) in Hw.
  assert (Hdate : forall c,
             row_entry_date date_parse (normalize maize_4550) c = Some t).
  { intros c. unfold row_entry_date.
    change (dateField_of (normalize maize_4550)) with (Some "2024-01-10").
    unfold new_Date_of_string. rewrite Hparse. reflexivity. }
  set (s0 := set_counts 0 0 0 (set_aborted false s)).
  assert (Hnames : names_backslash_free maize_4550)
    by (repeat split; vm_compute; reflexivity).
  (* first row *)
  assert (T1 := triple_and _ _ _ _ _ _
                  (fresh_row_is_inserted date_parse tz env Hfree maize_4550
                     s0 t _ _ eq_refl eq_refl eq_refl (Hdate _) Hw Hstore)
                  (processRow_settles date_parse tz env maize_4550
                     s0 Hnames)).
  unfold triple in T1.
  cbn [processKamisFile]. unfold transaction, tx_callback.
  cbn [for_rows]. unfold bind, modify, gets, ret. fold s0.
  destruct (processRow date_parse tz env maize_4550 s0)
    as [[[]|e] sA]; [|destruct T1; contradiction].
  destruct T1 as [((id & cid & rid & mid & Hmid & HpA) & HiA & HkA & HeA)
                    Hset].
  rewrite (Hmid eq_refl) in HpA. clear Hmid.
  destruct Hset as [Hbad | (_ & HoA & Hset)]; [lia|].
  (* second row *)
  assert (T2 := settled_row_is_skipped date_parse tz env Hfree maize_4600 sA
                  HoA).
  unfold triple in T2.
  destruct (processRow date_parse tz env maize_4600 sA)
    as [[[]|e] sB]; [|exfalso; apply T2; exact Hset].
  destruct (T2 Hset) as (HdB & HkB & HiB & HeB & HoB).
  unfold tx_open in HoB.
  rewrite Hcommit, HoB. cbn [fst snd]. st_simpl.
  rewrite HkB, HiB, HeB, HkA, HiA, HeA, HdB. split; [reflexivity|].
  exists id, cid, rid. rewrite HpA. reflexivity.
Qed.

Lemma same_day_pair_inserts_once_witness :
  let out := processKamisFile iso_date_only nairobi quiet
               (Parsed [maize_4550; maize_4600]) seeded_store in
  fst out = Ok (mkAggregate 1 1 0 2)
  /\ exists id cid rid,
       price_entries (st_db (snd out))
       = price_entries (st_db seeded_store)
         ++ [mkPriceEntry id cid rid None (Dec false 4550 (-2))
                          1704844800000 "kamis" true "kg"].
Proof.
  apply (same_day_pair_inserts_once iso_date_only nairobi quiet seeded_store).
  - intros n. reflexivity.
  - reflexivity.
  - vm_compute. reflexivity.
  - constructor.
Defined.

(* ===================================================================== *)
(** ** Further properties of the service *)
(* ===================================================================== *)

(** *** Invariants kept by a batch *)

Section Keeping.
Variable I : DB -> Prop.

Lemma keeps_bind {A B} (m : M A) (k : A -> M B) :
  keeps I m -> (forall a, keeps I (k a)) -> keeps I (bind m k).
Proof.
  intros Hm Hk s HI. apply triple_bind.
  eapply triple_weaken; [apply Hm; exact HI | cbn beta | auto].
  intros a s' HI'. apply Hk. exact HI'.
Qed.

Lemma keeps_try_catch {A} (m : M A) (h : JsError -> M A) :
  keeps I m -> (forall e, keeps I (h e)) -> keeps I (try_catch m h).
Proof.
  intros Hm Hh s HI. apply triple_try_catch.
  eapply triple_weaken; [apply Hm; exact HI | auto | cbn beta].
  intros e s' HI'. apply Hh. exact HI'.
Qed.

(** A computation that leaves the database alone keeps everything. *)
Lemma keeps_still {A} (m : M A) :
  (forall s, st_db (snd (m s)) = st_db s) -> keeps I m.
Proof.
  intros Hm s HI. unfold triple. specialize (Hm s).
  destruct (m s) as [[a|e] s']; cbn [snd] in Hm; rewrite Hm; exact HI.
Qed.

Lemma keeps_ret {A} (a : A) : keeps I (ret a).
Proof. apply keeps_still. reflexivity. Qed.

Lemma keeps_counts (f : St -> St) :
  (forall s, st_db (f s) = st_db s) -> keeps I (modify f).
Proof. intros Hf. apply keeps_still. exact Hf. Qed.

Section Batch.
Variable date_parse : string -> option Z.
Variable tz : Z.
Variable env : Env.
Variable ok : string -> Prop.
Hypothesis Hcrop : forall name, ok name -> keeps I (resolveCrop env name).
Hypothesis Hregion : forall name, ok name -> keeps I (resolveRegion env name).
Hypothesis Hmarket : forall name rid,
    ok name -> keeps I (resolveMarket env name rid).
Hypothesis Hfact : forall c r m v d,
    keeps I (insertUnlessDuplicate tz env c r m v d).

Lemma keeps_processRow rawRow :
  names_satisfy ok rawRow ->
  keeps I (processRow date_parse tz env rawRow).
Proof.
  intros (Hc & Hr & Hm).
  unfold processRow, row_body.
  apply keeps_try_catch;
    [|intros e; apply keeps_counts; reflexivity].
  apply keeps_bind.
  { apply keeps_still. intros s. unfold entryDate_of.
    destruct (dateField_of _); reflexivity. }
  intros d. destruct (fails_validation _ _ _).
  { apply keeps_counts. reflexivity. }
  apply keeps_bind; [apply Hcrop; exact Hc|]. intros cid.
  apply keeps_bind; [apply Hregion; exact Hr|]. intros rid.
  apply keeps_bind; [apply Hmarket; exact Hm|]. intros mid.
  apply Hfact.
Qed.

Lemma keeps_for_rows rows :
  Forall (names_satisfy ok) rows ->
  keeps I (for_rows date_parse tz env rows).
Proof.
  induction 1 as [|rawRow rest Hrow Hrest IH]; cbn [for_rows].
  - apply keeps_ret.
  - apply keeps_bind; [apply keeps_processRow; exact Hrow | intros _; exact IH].
Qed.

Lemma keeps_processKamisFile parsed :
  (forall rows, parsed = Parsed rows -> Forall (names_satisfy ok) rows) ->
  keeps I (processKamisFile date_parse tz env parsed).
Proof.
  destruct parsed as [err|rows]; cbn [processKamisFile]; intros Hrows.
  - apply keeps_still. reflexivity.
  - intros s HI.
    assert (T : keeps I (tx_callback date_parse tz env rows)).
    { unfold tx_callback.
      apply keeps_bind; [apply keeps_counts; reflexivity | intros _].
      apply keeps_bind;
        [apply keeps_for_rows, Hrows; reflexivity | intros _].
      apply keeps_still. reflexivity. }
    specialize (T (set_aborted false s) HI).
    apply triple_transaction.
    eapply triple_weaken; [exact T | cbn beta | cbn beta].
    + intros a s' HI'. destruct (commit_fault env); [exact HI|].
      destruct (st_aborted s'); [exact HI | exact HI'].
    + intros e s' _. exact HI.
Qed.

End Batch.
End Keeping.

Lemma NoDup_map_snoc {A B} (f : A -> B) l x :
  NoDup (map f l) -> ~ In (f x) (map f l) -> NoDup (map f (l ++ [x])).
Proof.
  intros Hl Hx. rewrite map_app. cbn [map].
  apply NoDup_app; [exact Hl | repeat constructor; intros [] |].
  intros y Hy [<- | []]. exact (Hx Hy).
Qed.

Lemma lookup_none_not_in {A B} (f : A -> bool) (id : A -> nat)
    (g : A -> B) (k : B) l :
  option_map id (find f l) = None ->
  (forall x, g x = k -> f x = true) ->
  ~ In k (map g l).
Proof.
  intros Hnone Hf Hin. apply in_map_iff in Hin as (x & Hx & Hin).
  destruct (find f l) as [y|] eqn:Hy; [discriminate|].
  pose proof (find_none _ _ Hy x Hin) as Hfalse.
  rewrite (Hf x Hx) in Hfalse. discriminate.
Qed.

(** A valid day window starts and ends with the local day. *)
Lemma day_window_bounds tz t a b :
  day_window tz (Some t) = Some (a, b) ->
  a = day_start tz t /\ b = day_end tz t.
Proof.
  unfold day_window. rewrite setHours_start, setHours_end.
  destruct (time_clip _) as [a'|] eqn:Ha; [|discriminate].
  destruct (time_clip (_ + 86399999 - tz)%Z) as [b'|] eqn:Hb; [|discriminate].
  intros [= <- <-].
  apply time_clip_some in Ha as [-> _]. apply time_clip_some in Hb as [-> _].
  split; reflexivity.
Qed.

(** A fact dated on the local day of [t] is inside the range the
    duplicate check of [t] covers. *)
Lemma same_day_in_window tz c r m t a b p :
  day_window tz (Some t) = Some (a, b) ->
  same_key_same_day tz c r m t p = true ->
  same_key_in_window c r m a b p = true.
Proof.
  intros Hw. apply day_window_bounds in Hw. destruct Hw as [-> ->].
  unfold same_key_in_window, same_key_same_day, day_start, day_end.
  rewrite !andb_true_iff, !Z.leb_le, Z.eqb_eq.
  intros [Hids Hday]. split; [split; [exact Hids|]|].
  - apply utc_date_mono.
    pose proof (local_day_bounds tz (pe_entry_date p)).
    rewrite Hday in *. lia.
  - apply utc_date_mono.
    pose proof (local_day_bounds tz (pe_entry_date p)).
    rewrite Hday in *. lia.
Qed.

Section Uniqueness.
Variable date_parse : string -> option Z.
Variable tz : Z.
Variable env : Env.

Lemma resolveCrop_keeps_names name :
  backslash_free name = true ->
  keeps names_unique (resolveCrop env name).
Proof.
  intros Hb s (Hc & Hr & Hm).
  wp; unfold names_unique; st_simpl; repeat split; try assumption.
  apply NoDup_map_snoc; [assumption|]. cbn [crop_name].
  unfold lookup_crop in *.
  eapply lookup_none_not_in; [eassumption|].
  intros c Hc'. apply ilike_same; [exact Hb | symmetry; exact Hc'].
Qed.

Lemma resolveRegion_keeps_names name :
  backslash_free name = true ->
  keeps names_unique (resolveRegion env name).
Proof.
  intros Hb s (Hc & Hr & Hm).
  wp; unfold names_unique; st_simpl; repeat split; try assumption.
  apply NoDup_map_snoc; [assumption|]. cbn [region_name].
  unfold lookup_region in *.
  eapply lookup_none_not_in; [eassumption|].
  intros r Hr'. apply ilike_same; [exact Hb | symmetry; exact Hr'].
Qed.

Lemma resolveMarket_keeps_names name rid :
  backslash_free name = true ->
  keeps names_unique (resolveMarket env name rid).
Proof.
  intros Hb s (Hc & Hr & Hm).
  wp; unfold names_unique; st_simpl; repeat split; try assumption.
  apply NoDup_map_snoc; [assumption|]. cbn [market_name market_region_id].
  unfold lookup_market in *.
  eapply lookup_none_not_in; [eassumption|].
  intros m [= Hn Hi]. cbv beta. rewrite Hi, Nat.eqb_refl, andb_true_r.
  apply ilike_same; [exact Hb | symmetry; exact Hn].
Qed.

Lemma insertUnlessDuplicate_keeps_names c r m v d :
  keeps names_unique (insertUnlessDuplicate tz env c r m v d).
Proof.
  intros s H. wp; exact H.
Qed.

Lemma resolveCrop_keeps_facts name :
  keeps (facts_unique tz) (resolveCrop env name).
Proof. intros s H. wp; exact H. Qed.

Lemma resolveRegion_keeps_facts name :
  keeps (facts_unique tz) (resolveRegion env name).
Proof. intros s H. wp; exact H. Qed.

Lemma resolveMarket_keeps_facts name rid :
  keeps (facts_unique tz) (resolveMarket env name rid).
Proof. intros s H. wp; exact H. Qed.

Lemma insertUnlessDuplicate_keeps_facts c r m v d :
  keeps (facts_unique tz) (insertUnlessDuplicate tz env c r m v d).
Proof.
  intros s HI. destruct d as [t|]; [|wp; exact HI].
  unfold insertUnlessDuplicate, price_entries_findFirst,
    price_entries_create.
  destruct (setHours tz (Some t) 0 0 0 0) as [a|] eqn:Ha; [|wp; exact HI].
  destruct (setHours tz (Some t) 23 59 59 999) as [b|] eqn:Hb;
    [|wp; exact HI].
  assert (Hw : day_window tz (Some t) = Some (a, b)).
  { unfold day_window. rewrite Ha, Hb. reflexivity. }
  cbv beta iota. wp; try exact HI.
  unfold facts_unique in *. st_simpl.
  apply NoDup_map_snoc; [exact HI|].
  unfold lookup_fact in *.
  eapply lookup_none_not_in; [eassumption|].
  intros p Hp. apply (same_day_in_window tz _ _ _ t _ _ _ Hw).
  unfold fact_key in Hp. cbn in Hp. injection Hp as K1 K2 K3 K4.
  unfold same_key_same_day. rewrite K1, K2, K3, K4.
  rewrite !Nat.eqb_refl, opt_nat_eqb_refl, Z.eqb_refl. reflexivity.
Qed.

End Uniqueness.

(** X1.  Whatever the database rejects, a batch whose crop, region and
    market names hold no backslash, run from tables in which no two
    crops and no two regions share a name ignoring case, and no two
    markets of a region do, leaves tables in which that still holds. *)
Theorem batch_keeps_names_unique :
  forall date_parse tz env rows s,
    Forall names_backslash_free rows ->
    names_unique (st_db s) ->
    names_unique
      (st_db (snd (processKamisFile date_parse tz env (Parsed rows) s))).
Proof.
  intros date_parse tz env rows s Hrows H.
  assert (T := keeps_processKamisFile names_unique date_parse tz env
                 (fun name => backslash_free name = true)
                 (resolveCrop_keeps_names env)
                 (resolveRegion_keeps_names env)
                 (resolveMarket_keeps_names env)
                 (insertUnlessDuplicate_keeps_names tz env) (Parsed rows)).
  assert (Hall : forall rows0,
             Parsed rows = Parsed rows0 ->
             Forall (names_satisfy (fun name => backslash_free name = true))
                    rows0)
    by (intros rows0 [= <-]; exact Hrows).
  specialize (T Hall s H). unfold triple in T.
  destruct (processKamisFile date_parse tz env (Parsed rows) s)
    as [[a|e] s']; exact T.
Qed.

(** X2.  Whatever the rows and whatever the database rejects, a batch
    run on a fact table in which no two facts share crop, region, market
    and local calendar day leaves a fact table in which none do. *)
Theorem batch_keeps_facts_unique :
  forall date_parse tz env parsed s,
    facts_unique tz (st_db s) ->
    facts_unique tz
      (st_db (snd (processKamisFile date_parse tz env parsed s))).
Proof.
  intros date_parse tz env parsed s H.
  assert (T := keeps_processKamisFile (facts_unique tz) date_parse tz env
                 (fun _ => True)
                 (fun name _ => resolveCrop_keeps_facts tz env name)
                 (fun name _ => resolveRegion_keeps_facts tz env name)
                 (fun name rid _ => resolveMarket_keeps_facts tz env name rid)
                 (insertUnlessDuplicate_keeps_facts tz env) parsed).
  assert (Hall : forall rows,
             parsed = Parsed rows ->
             Forall (names_satisfy (fun _ => True)) rows).
  { intros rows _. apply Forall_forall. intros r _. repeat split. }
  specialize (T Hall s H). unfold triple in T.
  destruct (processKamisFile date_parse tz env parsed s) as [[a|e] s'];
    exact T.
Qed.

Lemma batch_keeps_names_unique_witness :
  names_unique
    (st_db (snd (processKamisFile iso_date_only nairobi quiet
                   (Parsed [maize_4550; maize_4600]) seeded_store))).
Proof.
  apply (batch_keeps_names_unique iso_date_only nairobi quiet
           [maize_4550; maize_4600] seeded_store).
  - repeat constructor.
  - repeat split; repeat constructor; intros [].
Defined.

Lemma batch_keeps_facts_unique_witness :
  facts_unique nairobi
    (st_db (snd (processKamisFile iso_date_only nairobi quiet
                   (Parsed [maize_4550; maize_4600]) seeded_store))).
Proof.
  apply (batch_keeps_facts_unique iso_date_only nairobi quiet
           (Parsed [maize_4550; maize_4600]) seeded_store).
  constructor.
Defined.

(** *** Reference rows *)

Lemma reference_rows_appended_refl d : reference_rows_appended d d.
Proof. exists [], []. rewrite !app_nil_r. repeat split; constructor. Qed.

Lemma reference_rows_appended_trans d1 d2 d3 :
  reference_rows_appended d1 d2 -> reference_rows_appended d2 d3 ->
  reference_rows_appended d1 d3.
Proof.
  intros (lr & lm & Hr & Hm & Fr & Fm) (lr' & lm' & Hr' & Hm' & Fr' & Fm').
  exists (lr ++ lr'), (lm ++ lm').
  rewrite Hr', Hm', Hr, Hm, !app_assoc.
  repeat split; trivial; apply Forall_app; split; trivial.
Qed.

Ltac solve_appended :=
  unfold reference_rows_appended; st_simpl; do 2 eexists;
  repeat match goal with
         | |- _ /\ _ => split
         | |- ?l ++ _ = ?l ++ _ => reflexivity
         | |- ?l = ?l ++ _ => symmetry; apply app_nil_r
         | |- Forall _ [] => constructor
         | |- Forall _ [_] => constructor; [|constructor]
         | |- region_created_by_resolver _ =>
             unfold region_created_by_resolver; cbn; repeat split
         | |- market_is_active _ = true => reflexivity
         end.

Section Appending.
Variable date_parse : string -> option Z.
Variable tz : Z.
Variable env : Env.

Lemma processRow_appends rawRow s :
  triple (processRow date_parse tz env rawRow) s
    (fun _ s' => reference_rows_appended (st_db s) (st_db s'))
    (fun _ _ => False).
Proof. wp; solve_appended. Qed.

Lemma for_rows_appends rows : forall s,
  triple (for_rows date_parse tz env rows) s
    (fun _ s' => reference_rows_appended (st_db s) (st_db s'))
    (fun _ _ => False).
Proof.
  induction rows as [|rawRow rest IH]; intros s; cbn [for_rows].
  - apply triple_ret, reference_rows_appended_refl.
  - apply triple_bind.
    eapply triple_weaken; [apply processRow_appends | | auto].
    cbn beta. intros ? s1 H1.
    eapply triple_weaken; [apply IH | | auto].
    cbn beta. intros ? s2 H2.
    eapply reference_rows_appended_trans; eassumption.
Qed.
End Appending.

(** X3.  A batch never removes or rewrites a region or a market: it only
    appends rows, every region it appends is active and carries the code
    derived from its name (upper-cased, white space to underscores),
    every market it appends is active, and the sync log is left exactly
    as it was. *)
Theorem batch_appends_reference_rows :
  forall date_parse tz env parsed s,
    let d := st_db s in
    let d' := st_db (snd (processKamisFile date_parse tz env parsed s)) in
    (exists new_regions new_markets,
        regions d' = regions d ++ new_regions
        /\ markets d' = markets d ++ new_markets
        /\ Forall (fun r =>
                     region_code r
                     = spaces_to_underscores (toUpperCase (region_name r))
                     /\ region_is_active r = true) new_regions
        /\ Forall (fun m => market_is_active m = true) new_markets)
    /\ kamis_sync_logs d' = kamis_sync_logs d.
Proof.
  intros date_parse tz env parsed s d d'. subst d d'. split.
  - change (reference_rows_appended (st_db s)
              (st_db (snd (processKamisFile date_parse tz env parsed s)))).
    destruct parsed as [err|rows]; cbn [processKamisFile].
    + apply reference_rows_appended_refl.
    + assert (T := for_rows_appends date_parse tz env rows
                     (set_counts 0 0 0 (set_aborted false s))).
      unfold triple in T. unfold transaction, tx_callback, bind, modify, gets.
      destruct (for_rows date_parse tz env rows
                  (set_counts 0 0 0 (set_aborted false s)))
        as [[[]|e] s1]; [|contradiction].
      st_simpl.
      destruct (commit_fault env);
        [cbn [snd]; st_simpl; apply reference_rows_appended_refl|].
      destruct (st_aborted s1); cbn [snd]; st_simpl;
        [apply reference_rows_appended_refl | exact T].
  - destruct (processKamisFile_grows date_parse tz env parsed s)
      as (_ & _ & _ & _ & _ & _ & _ & _ & Hl & _). exact Hl.
Qed.

(** *** How a batch can end *)

(** X4.  A batch fails in two ways only.  If the file does not parse it
    throws "Failed to parse file: ..." without touching anything; if the
    transaction is rejected at its boundary it throws that error and
    the database is as it was.  Otherwise it returns an aggregate,
    whatever statements were rejected while its rows were processed. *)
Theorem batch_outcomes :
  forall date_parse tz env parsed s,
    let out := processKamisFile date_parse tz env parsed s in
    match parsed, commit_fault env with
    | ParseFailed err, _ =>
        out = (Throw (mkError None ("Failed to parse file: " ++ err)), s)
    | Parsed rows, Some e =>
        fst out = Throw e /\ st_db (snd out) = st_db s
    | Parsed rows, None =>
        exists agg, fst out = Ok agg
    end.
Proof.
  intros date_parse tz env [err|rows] s out; subst out; [reflexivity|].
  assert (T := tx_callback_counted date_parse tz env rows
                 (set_aborted false s)).
  unfold triple in T. cbn [processKamisFile]. unfold transaction.
  destruct (tx_callback date_parse tz env rows (set_aborted false s))
    as [[a|e] s1]; [|contradiction].
  destruct (commit_fault env) as [e|]; cbn [fst snd].
  - split; reflexivity.
  - destruct (st_aborted s1); exists a; reflexivity.
Qed.

(** *** The duplicate check *)

Lemma find_none_existsb {A} (f : A -> bool) l :
  find f l = None <-> existsb f l = false.
Proof.
  induction l as [|x l IH]; cbn; [tauto|].
  destruct (f x); cbn; [split; discriminate | exact IH].
Qed.

(** The calendar dates at the two ends of a local day. *)
Lemma utc_date_day_start tz t :
  (- msPerDay < tz < msPerDay)%Z ->
  utc_date (day_start tz t) = first_date_checked tz (local_day tz t).
Proof.
  unfold utc_date, day_start, first_date_checked, msPerDay. intros Htz.
  destruct (0 <? tz)%Z eqn:E.
  - apply Z.ltb_lt in E. symmetry.
    apply (Z.div_unique _ 86400000 _ (86400000 - tz)); lia.
  - apply Z.ltb_ge in E. symmetry.
    apply (Z.div_unique _ 86400000 _ (- tz)); lia.
Qed.

Lemma utc_date_day_end tz t :
  (- msPerDay < tz < msPerDay)%Z ->
  utc_date (day_end tz t) = last_date_checked tz (local_day tz t).
Proof.
  unfold utc_date, day_end, last_date_checked, msPerDay. intros Htz.
  destruct (tz <? 0)%Z eqn:E.
  - apply Z.ltb_lt in E. symmetry.
    apply (Z.div_unique _ 86400000 _ (- 1 - tz)); lia.
  - apply Z.ltb_ge in E. symmetry.
    apply (Z.div_unique _ 86400000 _ (86399999 - tz)); lia.
Qed.

Lemma lookup_fact_on_dates tz c r m t l :
  (- msPerDay < tz < msPerDay)%Z ->
  lookup_fact c r m (day_start tz t) (day_end tz t) l
  = option_map pe_id
      (find (same_key_on_dates c r m
               (first_date_checked tz (local_day tz t))
               (last_date_checked tz (local_day tz t))) l).
Proof.
  intros Htz. unfold lookup_fact. f_equal. apply find_pointwise.
  intros p. unfold same_key_in_window, same_key_on_dates.
  rewrite (utc_date_day_start tz t Htz), (utc_date_day_end tz t Htz).
  reflexivity.
Qed.

(** X5.  With no statement rejected, a valid entry date and a finite
    price, the duplicate check decides by crop, region, market and
    calendar date, and the dates it covers depend on the host: a row is
    counted in [skipped], the table left alone, exactly when a fact with
    the same three ids has as its calendar date (in UTC) the entry's
    local day - or, on a host ahead of UTC, the day before it; on a host
    behind UTC, the day after it.  Otherwise exactly one fact is
    appended, carrying the row's ids, price and date, and the row is
    counted in [inserted]. *)
Theorem duplicate_check_is_per_key_and_day :
  forall tz env cid rid mid priceVal t s,
    tx_fault_free env ->
    tx_open s ->
    (- msPerDay < tz < msPerDay)%Z ->
    (Z.abs t <= max_time - 86399999)%Z ->
    is_finite priceVal = true ->
    let out := insertUnlessDuplicate tz env cid rid mid priceVal (Some t) s in
    let day := local_day tz t in
    fst out = Ok tt
    /\ errorCount (snd out) = errorCount s
    /\ if existsb (same_key_on_dates cid rid mid
                     (first_date_checked tz day) (last_date_checked tz day))
                  (price_entries (st_db s))
       then price_entries (st_db (snd out)) = price_entries (st_db s)
            /\ skippedCount (snd out) = S (skippedCount s)
            /\ insertedCount (snd out) = insertedCount s
       else price_entries (st_db (snd out))
            = price_entries (st_db s)
              ++ [mkPriceEntry (st_next_id s) cid rid mid priceVal t
                               "kamis" true "kg"]
            /\ insertedCount (snd out) = S (insertedCount s)
            /\ skippedCount (snd out) = skippedCount s.
Proof.
  intros tz env cid rid mid priceVal t s Hfree Ho Htz Ht Hfin out day.
  subst out day.
  pose proof (day_window_valid tz t Ht) as Hw.
  fold (day_start tz t) (day_end tz t) in Hw.
  destruct (existsb _ _) eqn:Hdup.
  - assert (Hf : exists fid,
               lookup_fact cid rid mid (day_start tz t) (day_end tz t)
                 (price_entries (st_db s)) = Some fid).
    { rewrite (lookup_fact_on_dates _ _ _ _ _ _ Htz).
      destruct (find _ _) as [p|] eqn:Hp; [exists (pe_id p); reflexivity|].
      apply find_none_existsb in Hp. congruence. }
    destruct Hf as [fid Hf].
    rewrite (insertUnlessDuplicate_dup tz env Hfree _ _ _ _ _ _ _ _ _
               Ho Hw Hf).
    cbn [fst snd]. st_simpl. repeat split.
  - assert (Hf : lookup_fact cid rid mid (day_start tz t) (day_end tz t)
                   (price_entries (st_db s)) = None).
    { rewrite (lookup_fact_on_dates _ _ _ _ _ _ Htz).
      apply find_none_existsb in Hdup. rewrite Hdup. reflexivity. }
    assert (T := insertUnlessDuplicate_fresh tz env Hfree cid rid mid
                   priceVal t s _ _ Ho Hfin Hw Hf).
    unfold triple in T.
    destruct (insertUnlessDuplicate tz env cid rid mid priceVal (Some t) s)
      as [[[]|e] s']; [|contradiction].
    cbn [fst snd]. tauto.
Qed.

(** In Nairobi a Maize row dated 2024-01-10 is skipped on the fact of
    2024-01-09. *)
Lemma duplicate_check_is_per_key_and_day_witness :
  let out := insertUnlessDuplicate nairobi quiet 0 1 None (Dec false 46 0)
               (Some 1704844800000%Z) seeded_with_fact in
  fst out = Ok tt
  /\ errorCount (snd out) = 0
  /\ price_entries (st_db (snd out)) = price_entries (st_db seeded_with_fact)
  /\ skippedCount (snd out) = 1
  /\ insertedCount (snd out) = 0.
Proof.
  apply (duplicate_check_is_per_key_and_day nairobi quiet 0 1 None
           (Dec false 46 0) 1704844800000%Z seeded_with_fact).
  - intros n. reflexivity.
  - reflexivity.
  - unfold msPerDay, nairobi. lia.
  - unfold max_time. lia.
  - reflexivity.
Defined.

(** *** How much a batch asks of the database *)

Section Budget.
Variable date_parse : string -> option Z.
Variable tz : Z.
Variable env : Env.

Lemma processRow_budget rawRow s :
  triple (processRow date_parse tz env rawRow) s
    (fun _ s' =>
       st_tx_ops s <= st_tx_ops s' <= st_tx_ops s + 8
       /\ st_reads s <= st_reads s' <= st_reads s + 1
       /\ st_prisma_ops s' = st_prisma_ops s)
    (fun _ _ => False).
Proof. wp; repeat split; lia. Qed.

Lemma for_rows_budget rows : forall s,
  triple (for_rows date_parse tz env rows) s
    (fun _ s' =>
       st_tx_ops s <= st_tx_ops s' <= st_tx_ops s + 8 * List.length rows
       /\ st_reads s <= st_reads s' <= st_reads s + List.length rows
       /\ st_prisma_ops s' = st_prisma_ops s)
    (fun _ _ => False).
Proof.
  induction rows as [|rawRow rest IH]; intros s; cbn [for_rows List.length].
  - apply triple_ret. repeat split; lia.
  - apply triple_bind.
    eapply triple_weaken; [apply processRow_budget | | auto].
    cbn beta. intros ? s1 H1.
    eapply triple_weaken; [apply IH | | auto].
    cbn beta. intros ? s2 H2. repeat split; lia.
Qed.
End Budget.

(** X6.  A batch sends at most eight statements per parsed row through
    the transaction (two per resolver and two for the fact), reads the
    clock at most once per row, and sends nothing through the global
    client. *)
Theorem batch_statement_budget :
  forall date_parse tz env rows s,
    let s' := snd (processKamisFile date_parse tz env (Parsed rows) s) in
    st_tx_ops s <= st_tx_ops s' <= st_tx_ops s + 8 * List.length rows
    /\ st_reads s <= st_reads s' <= st_reads s + List.length rows
    /\ st_prisma_ops s' = st_prisma_ops s.
Proof.
  intros date_parse tz env rows s s'. subst s'.
  assert (T := for_rows_budget date_parse tz env rows
                 (set_counts 0 0 0 (set_aborted false s))).
  unfold triple in T. cbn [processKamisFile].
  unfold transaction, tx_callback, bind, modify, gets.
  destruct (for_rows date_parse tz env rows
              (set_counts 0 0 0 (set_aborted false s)))
    as [[[]|e] s1]; [|contradiction].
  st_simpl.
  destruct (commit_fault env); [cbn [snd]; st_simpl; exact T|].
  destruct (st_aborted s1); cbn [snd]; st_simpl; exact T.
Qed.

(** *** A rejected statement aborts the transaction *)

Lemma abort_tracked_refl env s : abort_tracked env s s.
Proof.
  unfold abort_tracked. repeat split; try lia; try congruence.
Qed.

Lemma abort_tracked_trans env s s1 s2 :
  abort_tracked env s s1 -> abort_tracked env s1 s2 ->
  abort_tracked env s s2.
Proof.
  unfold abort_tracked.
  intros (Ho1 & He1 & Hk1 & Ha1) (Ho2 & He2 & Hk2 & Ha2).
  split; [lia|]. split; [lia|]. split.
  - intros H2. destruct (Hk2 H2) as [H1 Hn2].
    destruct (Hk1 H1) as [H0 Hn1]. split; [exact H0|].
    intros n Hn. destruct (Nat.lt_ge_cases n (st_tx_ops s1)).
    + apply Hn1. lia.
    + apply Hn2. lia.
  - intros H0 H2. destruct (st_aborted s1) eqn:H1.
    + specialize (Ha1 H0 eq_refl). lia.
    + specialize (Ha2 eq_refl H2). lia.
Qed.

Section Abort.
Variable date_parse : string -> option Z.
Variable tz : Z.
Variable env : Env.

Lemma processRow_abort rawRow s :
  triple (processRow date_parse tz env rawRow) s
    (fun _ s' => abort_tracked env s s') (fun _ _ => False).
Proof.
  wp; unfold abort_tracked; st_simpl.
  all: repeat split; try lia; try congruence.
  all: try (intros; split; [congruence|]); try ops_cases.
Qed.

Lemma for_rows_abort rows : forall s,
  triple (for_rows date_parse tz env rows) s
    (fun _ s' => abort_tracked env s s') (fun _ _ => False).
Proof.
  induction rows as [|rawRow rest IH]; intros s; cbn [for_rows].
  - apply triple_ret. apply abort_tracked_refl.
  - apply triple_bind.
    eapply triple_weaken; [apply processRow_abort | | auto].
    cbn beta. intros ? s1 H1.
    eapply triple_weaken; [apply IH | | auto].
    cbn beta. intros ? s2 H2. eapply abort_tracked_trans; eassumption.
Qed.
End Abort.

(** X23.  One rejected statement undoes the whole batch.  When a
    statement that the batch sends is rejected by the database and the
    transaction is not rejected at its boundary, the batch still returns
    an aggregate, with at least one row counted in [errors], but every
    table is as it was before the batch: the rows counted in [inserted]
    are not in the database. *)
Theorem rejected_statement_rolls_the_batch_back :
  forall date_parse tz env rows s n e,
    commit_fault env = None ->
    let out := processKamisFile date_parse tz env (Parsed rows) s in
    st_tx_ops s <= n < st_tx_ops (snd out) ->
    tx_fault env n = Some e ->
    st_db (snd out) = st_db s
    /\ exists agg,
         fst out = Ok agg
         /\ 0 < errors agg
         /\ total_rows agg = List.length rows.
Proof.
  intros date_parse tz env rows s n e Hc out. subst out.
  assert (T := for_rows_abort date_parse tz env rows
                 (set_counts 0 0 0 (set_aborted false s))).
  unfold triple in T. cbn [processKamisFile].
  unfold transaction, tx_callback, bind, modify, gets.
  destruct (for_rows date_parse tz env rows
              (set_counts 0 0 0 (set_aborted false s)))
    as [[[]|e'] s1]; [|contradiction].
  st_simpl. rewrite Hc.
  destruct T as (_ & _ & Hk & Ha). st_simpl.
  destruct (st_aborted s1) eqn:H1; cbn [fst snd]; st_simpl.
  - intros _ _. split; [reflexivity|].
    eexists. split; [reflexivity|]. cbn [errors total_rows].
    split; [|reflexivity]. apply (Ha eq_refl eq_refl).
  - intros Hn He. destruct (Hk eq_refl) as [_ Hnone].
    rewrite (Hnone n Hn) in He. discriminate.
Qed.

(** A Maize row and a Beans row on the seeded store, the creation of
    the Beans crop rejected: the aggregate counts one row inserted and
    one in error, and the store holds no fact. *)
Lemma rejected_statement_rolls_the_batch_back_witness :
  let out := processKamisFile iso_date_only nairobi late_race
               (Parsed [maize_4550; beans_120]) seeded_store in
  fst out = Ok (mkAggregate 1 0 1 2)
  /\ price_entries (st_db (snd out)) = []
  /\ st_db (snd out) = st_db seeded_store.
Proof.
  cbv zeta. split; [vm_compute; reflexivity|].
  split; [vm_compute; reflexivity|].
  apply (rejected_statement_rolls_the_batch_back iso_date_only nairobi
           late_race [maize_4550; beans_120] seeded_store 5
           unique_violation).
  - reflexivity.
  - vm_compute. split; repeat constructor.
  - reflexivity.
Defined.

(** *** Regions and markets *)

(** X7.  Two region names of ASCII characters that differ only in case
    (and hold no backslash) resolve to the same id, if no statement is
    rejected, and the second resolution creates nothing.  When no
    region of the store matched the name, the first resolution appends
    exactly one active region, named as first seen, whose code is the
    name upper-cased with white space turned into underscores. *)
Theorem resolveRegion_is_case_insensitive :
  forall env s name1 name2,
    tx_fault_free env ->
    tx_open s ->
    is_ascii name1 = true ->
    backslash_free name1 = true ->
    toLowerCase name1 = toLowerCase name2 ->
    let r1 := resolveRegion env name1 s in
    let r2 := resolveRegion env name2 (snd r1) in
    exists id,
      fst r1 = Ok id
      /\ fst r2 = Ok id
      /\ regions (st_db (snd r2)) = regions (st_db (snd r1))
      /\ (lookup_region name1 (regions (st_db s)) = None ->
          regions (st_db (snd r1))
          = regions (st_db s)
            ++ [mkRegion id name1
                  (spaces_to_underscores (toUpperCase name1)) true]).
Proof.
  intros env s name1 name2 Hfree Ho _ Hb Hci r1 r2. subst r1 r2.
  unfold tx_open in Ho.
  assert (Hfind : forall l, lookup_region name2 l = lookup_region name1 l).
  { intros l. unfold lookup_region. f_equal. apply find_pointwise.
    intros c. apply ilike_lowered. symmetry. exact Hci. }
  unfold resolveRegion, regions_findFirst, regions_create, bind, tx_call,
    gets, ret.
  rewrite Ho, !Hfree. st_simpl.
  destruct (lookup_region name1 (regions (st_db s))) as [id|] eqn:Hr.
  - repeat (rewrite ?Ho, ?Hfree; st_simpl).
    rewrite Hfind, Hr. cbn [fst snd].
    exists id. repeat split. discriminate.
  - repeat (rewrite ?Ho, ?Hfree; st_simpl).
    rewrite Hfind. unfold lookup_region in *.
    rewrite (lookup_new _ region_id _ _ Hr)
      by (apply ilike_same; [exact Hb | reflexivity]).
    cbn [fst snd region_id]. st_simpl.
    exists (st_next_id s). repeat split.
Qed.

Lemma resolveRegion_is_case_insensitive_witness :
  let r1 := resolveRegion quiet "Nyanza" seeded_store in
  let r2 := resolveRegion quiet "NYANZA" (snd r1) in
  exists id,
    fst r1 = Ok id
    /\ fst r2 = Ok id
    /\ regions (st_db (snd r2)) = regions (st_db (snd r1))
    /\ (lookup_region "Nyanza" (regions (st_db seeded_store)) = None ->
        regions (st_db (snd r1))
        = regions (st_db seeded_store)
          ++ [mkRegion id "Nyanza"
                (spaces_to_underscores (toUpperCase "Nyanza")) true]).
Proof.
  apply (resolveRegion_is_case_insensitive quiet seeded_store
           "Nyanza" "NYANZA"); evaluate.
Defined.

(** X8.  Markets are looked up and created per region.  For a market
    name (ASCII, without a backslash) that matches no market of the store under
    either of two different regions, resolving it under the first and
    then under the second appends two market rows with different ids,
    one per region, and resolving it under the first region again
    returns the first id and creates nothing. *)
Theorem markets_are_scoped_by_region :
  forall env s name rid1 rid2,
    tx_fault_free env ->
    tx_open s ->
    nonempty name = true ->
    is_ascii name = true ->
    backslash_free name = true ->
    rid1 <> rid2 ->
    lookup_market name rid1 (markets (st_db s)) = None ->
    lookup_market name rid2 (markets (st_db s)) = None ->
    let o1 := resolveMarket env name rid1 s in
    let o2 := resolveMarket env name rid2 (snd o1) in
    let o3 := resolveMarket env name rid1 (snd o2) in
    exists m1 m2,
      fst o1 = Ok (Some m1)
      /\ fst o2 = Ok (Some m2)
      /\ m1 <> m2
      /\ fst o3 = Ok (Some m1)
      /\ markets (st_db (snd o3))
         = markets (st_db s)
           ++ [mkMarket m1 name rid1 true; mkMarket m2 name rid2 true].
Proof.
  intros env s name rid1 rid2 Hfree Ho Hname _ Hb Hne H1 H2 o1 o2 o3.
  subst o1 o2 o3. unfold tx_open in Ho.
  assert (Hsame : ilike name name = true)
    by (apply ilike_same; [exact Hb | reflexivity]).
  assert (E1 : resolveMarket env name rid1 s
               = (Ok (Some (st_next_id s)),
                  add_market (mkMarket (st_next_id s) name rid1 true)
                    (bump_id (bump_tx (bump_tx s))))).
  { unfold resolveMarket, markets_findFirst, markets_create, bind, tx_call,
      gets, ret.
    rewrite Hname. repeat (rewrite ?Ho, ?Hfree; st_simpl).
    rewrite H1. repeat (rewrite ?Ho, ?Hfree; st_simpl). reflexivity. }
  rewrite E1. cbn [fst snd].
  set (s1 := add_market _ _) in *.
  assert (Ho1 : st_aborted s1 = false) by exact Ho.
  assert (L2 : lookup_market name rid2 (markets (st_db s1)) = None).
  { unfold s1. st_simpl. unfold lookup_market in *.
    rewrite find_app, (find_none_of_lookup _ _ _ H2).
    cbn [find market_name market_region_id].
    rewrite Hsame. apply Nat.eqb_neq in Hne. rewrite Hne. reflexivity. }
  assert (E2 : resolveMarket env name rid2 s1
               = (Ok (Some (st_next_id s1)),
                  add_market (mkMarket (st_next_id s1) name rid2 true)
                    (bump_id (bump_tx (bump_tx s1))))).
  { unfold resolveMarket, markets_findFirst, markets_create, bind, tx_call,
      gets, ret.
    rewrite Hname. repeat (rewrite ?Ho1, ?Hfree; st_simpl).
    rewrite L2. repeat (rewrite ?Ho1, ?Hfree; st_simpl). reflexivity. }
  rewrite E2. cbn [fst snd].
  set (s2 := add_market _ (bump_id (bump_tx (bump_tx s1)))) in *.
  assert (Ho2 : tx_open s2) by exact Ho.
  assert (L3 : resolved_market name rid1 (markets (st_db s2))
               = Some (Some (st_next_id s))).
  { unfold resolved_market. rewrite Hname.
    unfold s2, s1. st_simpl. unfold lookup_market in *.
    rewrite <- app_assoc.
    rewrite find_app, (find_none_of_lookup _ _ _ H1).
    cbn [app find market_name market_region_id].
    rewrite Hsame, Nat.eqb_refl. reflexivity. }
  rewrite (resolveMarket_found env Hfree _ _ _ _ Ho2 L3). rewrite Hname.
  cbn [fst snd].
  exists (st_next_id s), (st_next_id s1).
  unfold s2, s1. st_simpl. rewrite <- app_assoc.
  repeat split. lia.
Qed.

Lemma markets_are_scoped_by_region_witness :
  let o1 := resolveMarket quiet "City Market" 1 two_region_store in
  let o2 := resolveMarket quiet "City Market" 2 (snd o1) in
  let o3 := resolveMarket quiet "City Market" 1 (snd o2) in
  exists m1 m2,
    fst o1 = Ok (Some m1)
    /\ fst o2 = Ok (Some m2)
    /\ m1 <> m2
    /\ fst o3 = Ok (Some m1)
    /\ markets (st_db (snd o3))
       = markets (st_db two_region_store)
         ++ [mkMarket m1 "City Market" 1 true;
             mkMarket m2 "City Market" 2 true].
Proof.
  apply (markets_are_scoped_by_region quiet two_region_store "City Market"
           1 2).
  - intros n. reflexivity.
  - reflexivity.
  - reflexivity.
  - reflexivity.
  - reflexivity.
  - discriminate.
  - reflexivity.
  - reflexivity.
Defined.

(** *** The sync run, path by path *)

Section SyncPaths.
Variable date_parse : string -> option Z.
Variable tz : Z.
Variable env : Env.

Lemma startSyncLog_eq s :
  prisma_fault env (st_prisma_ops s) = None ->
  startSyncLog env s = (Ok (st_next_id s), after_start env s).
Proof.
  intros Hf. unfold startSyncLog, bind, new_Date, kamis_sync_logs_create,
    prisma_call.
  st_simpl. rewrite Hf. reflexivity.
Qed.

Lemma updateSyncLog_eq id p i u status msg s :
  prisma_fault env (st_prisma_ops s) = None ->
  existsb (fun l => Nat.eqb (log_id l) id) (kamis_sync_logs (st_db s))
  = true ->
  updateSyncLog env id p i u status msg s
  = (Ok tt,
     set_sync_logs
       (map (finalize_log id p i u status (message_or_null msg)
               (time_clip (clock env (st_reads s))))
            (kamis_sync_logs (st_db s)))
       (bump_prisma (bump_reads s))).
Proof.
  intros Hf Hex. unfold updateSyncLog, bind, new_Date,
    kamis_sync_logs_update, prisma_call.
  st_simpl. rewrite Hf. st_simpl. rewrite Hex. reflexivity.
Qed.

Lemma updateSyncLog_rejected id p i u status msg s e :
  prisma_fault env (st_prisma_ops s) = Some e ->
  updateSyncLog env id p i u status msg s
  = (Throw e, bump_prisma (bump_reads s)).
Proof.
  intros Hf. unfold updateSyncLog, bind, new_Date,
    kamis_sync_logs_update, prisma_call.
  st_simpl. rewrite Hf. reflexivity.
Qed.

(** The batch leaves the sync log and the position in the global
    client's statement sequence alone. *)
Lemma batch_leaves_log parsed s :
  let s' := snd (processKamisFile date_parse tz env parsed s) in
  kamis_sync_logs (st_db s') = kamis_sync_logs (st_db s)
  /\ st_prisma_ops s' = st_prisma_ops s
  /\ st_next_id s <= st_next_id s'.
Proof.
  intros s'. subst s'. split.
  { destruct (processKamisFile_grows date_parse tz env parsed s)
      as (_ & _ & _ & _ & _ & _ & _ & _ & Hl & _). exact Hl. }
  destruct parsed as [err|rows]; cbn [processKamisFile snd throw];
    [split; [reflexivity | lia]|].
  assert (T : forall rws s0,
             triple (for_rows date_parse tz env rws) s0
               (fun _ s1 => st_prisma_ops s1 = st_prisma_ops s0
                            /\ st_next_id s0 <= st_next_id s1)
               (fun _ _ => False)).
  { induction rws as [|r rest IH]; intros s0; cbn [for_rows].
    - apply triple_ret. split; [reflexivity | lia].
    - apply triple_bind.
      assert (R : triple (processRow date_parse tz env r) s0
                    (fun _ s1 => st_prisma_ops s1 = st_prisma_ops s0
                                 /\ st_next_id s0 <= st_next_id s1)
                    (fun _ _ => False)).
      { wp; split; try reflexivity; lia. }
      eapply triple_weaken; [exact R | cbn beta | auto].
      intros ? s1 [H1 H2].
      eapply triple_weaken; [apply IH | cbn beta | auto].
      intros ? s2 [H3 H4]. split; [congruence | lia]. }
  specialize (T rows (set_counts 0 0 0 (set_aborted false s))).
  unfold triple in T.
  unfold transaction, tx_callback, bind, modify, gets.
  destruct (for_rows date_parse tz env rows
              (set_counts 0 0 0 (set_aborted false s)))
    as [[[]|e] s1]; [|contradiction].
  st_simpl.
  destruct (commit_fault env); [cbn [snd]; st_simpl; exact T|].
  destruct (st_aborted s1); cbn [snd]; st_simpl; exact T.
Qed.

Lemma finalized_run_in logs L id p i u st em t :
  log_id L = id ->
  let logs' := map (finalize_log id p i u st em t) (logs ++ [L]) in
  In (mkSyncLog id (log_sync_date L) p i u st em (log_started_at L) (Some t))
     logs'
  /\ List.length logs' = S (List.length logs).
Proof.
  intros Hid logs'. subst logs'. split.
  - rewrite map_app. apply in_or_app. right. cbn [map].
    unfold finalize_log. rewrite Hid, Nat.eqb_refl. left. reflexivity.
  - rewrite length_map, length_app. cbn. lia.
Qed.

Lemma started_log_found s s' :
  kamis_sync_logs (st_db s') = kamis_sync_logs (st_db (after_start env s)) ->
  existsb (fun l => Nat.eqb (log_id l) (st_next_id s))
          (kamis_sync_logs (st_db s')) = true.
Proof.
  intros ->. unfold after_start. st_simpl.
  rewrite existsb_app. cbn [existsb running_log log_id].
  rewrite Nat.eqb_refl, orb_true_r. reflexivity.
Qed.

(** With the log writable, a sync run is: start the log, run the inner
    step (no file, or the batch), write the final log row from the state
    the inner step left, and pass the inner step's outcome on. *)
Lemma sync_outcome path latest s :
  prisma_fault_free env ->
  exists res sfin s2 p i u st em,
    syncKamisData date_parse tz env path latest s = (res, sfin)
    /\ updateSyncLog env (st_next_id s) p i u st em s2 = (Ok tt, sfin)
    /\ kamis_sync_logs (st_db s2)
       = kamis_sync_logs (st_db (after_start env s))
    /\ match res with
       | Ok r =>
           p = total_rows (details r) /\ i = inserted (details r) /\ u = 0
           /\ st = "completed" /\ em = None
           /\ records_synced r = inserted (details r)
           /\ exists parsed,
                latest = Some parsed
                /\ processKamisFile date_parse tz env parsed
                     (after_start env s) = (Ok (details r), s2)
       | Throw e =>
           p = 0 /\ i = 0 /\ u = 0
           /\ st = "failed" /\ em = Some (message e)
           /\ ((latest = None
                /\ e = mkError None
                         ("Scraper finished but no output file found at "
                          ++ path)
                /\ s2 = after_start env s)
               \/ exists parsed,
                    latest = Some parsed
                    /\ processKamisFile date_parse tz env parsed
                         (after_start env s) = (Throw e, s2))
       end.
Proof.
  intros Hfree.
  unfold syncKamisData. unfold bind at 1.
  rewrite (startSyncLog_eq s (Hfree _)). unfold try_catch, bind.
  assert (Hup : forall s2 p i u st em,
             kamis_sync_logs (st_db s2)
             = kamis_sync_logs (st_db (after_start env s)) ->
             exists sfin,
               updateSyncLog env (st_next_id s) p i u st em s2
               = (Ok tt, sfin)).
  { intros s2 p i u st em Hl. eexists.
    apply (updateSyncLog_eq _ _ _ _ _ _ s2 (Hfree _)
             (started_log_found s s2 Hl)). }
  destruct latest as [parsed|]; cbn [ret throw].
  - pose proof (batch_leaves_log parsed (after_start env s)) as (Hl & _ & _).
    cbn zeta in Hl.
    destruct (processKamisFile date_parse tz env parsed (after_start env s))
      as [[agg|e] s2] eqn:Hbatch; cbn [snd] in Hl.
    + destruct (Hup s2 (total_rows agg) (inserted agg) 0 "completed" None Hl)
        as [sfin Hfin].
      rewrite Hfin. unfold ret.
      exists (Ok (mkSyncResult (inserted agg) agg)), sfin, s2,
        (total_rows agg), (inserted agg), 0, "completed", None.
      cbn [details records_synced]. repeat split; trivial.
      exists parsed. split; [reflexivity | exact Hbatch].
    + destruct (Hup s2 0 0 0 "failed" (Some (message e)) Hl) as [sfin Hfin].
      rewrite Hfin. unfold throw.
      exists (Throw e), sfin, s2, 0, 0, 0, "failed", (Some (message e)).
      repeat split; trivial. right. exists parsed.
      split; [reflexivity | exact Hbatch].
  - destruct (Hup (after_start env s) 0 0 0 "failed"
                (Some ("Scraper finished but no output file found at "
                       ++ path)%string) eq_refl) as [sfin Hfin].
    cbn [message]. rewrite Hfin. unfold throw.
    eexists (Throw _), sfin, (after_start env s), 0, 0, 0, "failed", _.
    repeat split; trivial. left. repeat split.
Qed.

(** What a successful final write leaves in the log. *)
Lemma final_write_in_log s s2 p i u st em sfin :
  prisma_fault_free env ->
  kamis_sync_logs (st_db s2) = kamis_sync_logs (st_db (after_start env s)) ->
  updateSyncLog env (st_next_id s) p i u st em s2 = (Ok tt, sfin) ->
  List.length (kamis_sync_logs (st_db sfin))
  = S (List.length (kamis_sync_logs (st_db s)))
  /\ In (mkSyncLog (st_next_id s) (log_sync_date (running_log env s))
           p i u st (message_or_null em)
           (log_started_at (running_log env s))
           (Some (time_clip (clock env (st_reads s2)))))
        (kamis_sync_logs (st_db sfin))
  /\ crops (st_db sfin) = crops (st_db s2)
  /\ regions (st_db sfin) = regions (st_db s2)
  /\ markets (st_db sfin) = markets (st_db s2)
  /\ price_entries (st_db sfin) = price_entries (st_db s2)
  /\ st_tx_ops sfin = st_tx_ops s2.
Proof.
  intros Hfree Hl Hup.
  rewrite (updateSyncLog_eq _ _ _ _ _ _ s2 (Hfree _)
             (started_log_found s s2 Hl)) in Hup.
  injection Hup as <-. st_simpl. rewrite Hl.
  change (kamis_sync_logs (st_db (after_start env s)))
    with (kamis_sync_logs (st_db s) ++ [running_log env s]).
  destruct (finalized_run_in (kamis_sync_logs (st_db s))
              (running_log env s) (st_next_id s) p i u st
              (message_or_null em)
              (time_clip (clock env (st_reads s2))) eq_refl) as [Hin Hlen].
  repeat split; assumption.
Qed.

End SyncPaths.


(** X9.  Whenever the sync log can be written, a sync run adds exactly
    one row to the log and never leaves it "running", whichever way the
    run ends (no file, a file that does not parse, a rejected
    transaction, or success): the row has a completion time; it is
    "completed" with [records_processed = total_rows],
    [records_inserted = inserted] and no error message exactly when
    [syncKamisData] returns, and then [records_synced] is the
    aggregate's [inserted]; it is "failed" with zero counts and the
    error's message exactly when [syncKamisData] throws. *)
Theorem sync_run_is_always_finalized :
  forall date_parse tz env path latest s,
    prisma_fault_free env ->
    let out := syncKamisData date_parse tz env path latest s in
    let logs' := kamis_sync_logs (st_db (snd out)) in
    List.length logs' = S (List.length (kamis_sync_logs (st_db s)))
    /\ exists run,
         In run logs'
         /\ log_id run = st_next_id s
         /\ log_completed_at run <> None
         /\ log_records_updated run = 0
         /\ match fst out with
            | Ok r =>
                log_status run = "completed"
                /\ log_records_processed run = total_rows (details r)
                /\ log_records_inserted run = inserted (details r)
                /\ records_synced r = inserted (details r)
                /\ log_error_message run = None
            | Throw e =>
                log_status run = "failed"
                /\ log_records_processed run = 0
                /\ log_records_inserted run = 0
                /\ log_error_message run
                   = (if nonempty (message e) then Some (message e)
                      else None)
            end.
Proof.
  intros date_parse tz env path latest s Hfree out logs'. subst out logs'.
  destruct (sync_outcome date_parse tz env path latest s Hfree)
    as (res & sfin & s2 & p & i & u & st & em & Hrun & Hup & Hl & Hres).
  rewrite Hrun. cbn [fst snd].
  destruct (final_write_in_log env s s2 p i u st em sfin Hfree Hl Hup)
    as (Hlen & Hin & _).
  split; [exact Hlen|].
  eexists. split; [exact Hin|]. cbn [log_id log_completed_at
    log_records_updated log_status log_records_processed
    log_records_inserted log_error_message].
  destruct res as [r|e].
  - destruct Hres as (-> & -> & -> & -> & -> & Hr & _).
    repeat split; trivial. discriminate.
  - destruct Hres as (-> & -> & -> & -> & -> & _).
    repeat split; trivial. discriminate.
Qed.

Lemma sync_run_is_always_finalized_witness :
  let out := syncKamisData iso_date_only nairobi racing "kamis_latest.csv"
               (Some (Parsed [maize_4550; maize_4600])) seeded_store in
  let logs' := kamis_sync_logs (st_db (snd out)) in
  List.length logs' = S (List.length (kamis_sync_logs (st_db seeded_store)))
  /\ exists run,
       In run logs'
       /\ log_id run = st_next_id seeded_store
       /\ log_completed_at run <> None
       /\ log_records_updated run = 0
       /\ match fst out with
          | Ok r =>
              log_status run = "completed"
              /\ log_records_processed run = total_rows (details r)
              /\ log_records_inserted run = inserted (details r)
              /\ records_synced r = inserted (details r)
              /\ log_error_message run = None
          | Throw e =>
              log_status run = "failed"
              /\ log_records_processed run = 0
              /\ log_records_inserted run = 0
              /\ log_error_message run
                 = (if nonempty (message e) then Some (message e)
                    else None)
          end.
Proof.
  apply (sync_run_is_always_finalized iso_date_only nairobi racing
           "kamis_latest.csv" (Some (Parsed [maize_4550; maize_4600]))
           seeded_store).
  intros n. reflexivity.
Defined.

(** X10.  When the scraper left no file, or the file does not parse, a
    sync run (with the log writable) throws an error that says so, sends
    no statement through the transaction client, leaves the reference
    and fact tables as they were, and logs the run as failed with that
    message - never with a null one. *)
Theorem run_without_rows_is_logged_with_its_reason :
  forall date_parse tz env path latest s msg,
    prisma_fault_free env ->
    no_rows_message path latest = Some msg ->
    let out := syncKamisData date_parse tz env path latest s in
    fst out = Throw (mkError None msg)
    /\ st_tx_ops (snd out) = st_tx_ops s
    /\ crops (st_db (snd out)) = crops (st_db s)
    /\ regions (st_db (snd out)) = regions (st_db s)
    /\ markets (st_db (snd out)) = markets (st_db s)
    /\ price_entries (st_db (snd out)) = price_entries (st_db s)
    /\ exists run,
         In run (kamis_sync_logs (st_db (snd out)))
         /\ log_id run = st_next_id s
         /\ log_status run = "failed"
         /\ log_error_message run = Some msg.
Proof.
  intros date_parse tz env path latest s msg Hfree Hmsg out. subst out.
  destruct (sync_outcome date_parse tz env path latest s Hfree)
    as (res & sfin & s2 & p & i & u & st & em & Hrun & Hup & Hl & Hres).
  rewrite Hrun. cbn [fst snd].
  destruct (final_write_in_log env s s2 p i u st em sfin Hfree Hl Hup)
    as (_ & Hin & Hc & Hr & Hm & Hp & Hops).
  assert (Hinner : res = Throw (mkError None msg)
                   /\ s2 = after_start env s /\ nonempty msg = true).
  { destruct latest as [[err|rows]|]; cbn in Hmsg; try discriminate;
      injection Hmsg as <-.
    - destruct res as [r|e].
      + destruct Hres as (_ & _ & _ & _ & _ & _ & parsed & [= <-] & Hb).
        discriminate Hb.
      + destruct Hres as (_ & _ & _ & _ & _
                          & [(Hnone & _) | (parsed & [= <-] & Hb)]);
          [discriminate|].
        cbn in Hb. injection Hb as <- <-. repeat split.
    - destruct res as [r|e].
      + destruct Hres as (_ & _ & _ & _ & _ & _ & parsed & Hsome & _).
        discriminate.
      + destruct Hres as (_ & _ & _ & _ & _
                          & [(_ & -> & ->) | (parsed & Hsome & _)]);
          [|discriminate].
        repeat split. }
  destruct Hinner as (-> & -> & Hne).
  destruct Hres as (-> & -> & -> & -> & -> & _).
  rewrite Hc, Hr, Hm, Hp, Hops. repeat split.
  eexists. split; [exact Hin|]. cbn. rewrite Hne. repeat split.
Qed.

Lemma run_without_rows_is_logged_with_its_reason_witness :
  let out := syncKamisData iso_date_only nairobi quiet "kamis_latest.csv"
               (Some (ParseFailed "Error: Invalid Record Length"))
               seeded_store in
  fst out = Throw (mkError None
                     "Failed to parse file: Error: Invalid Record Length")
  /\ st_tx_ops (snd out) = st_tx_ops seeded_store
  /\ crops (st_db (snd out)) = crops (st_db seeded_store)
  /\ regions (st_db (snd out)) = regions (st_db seeded_store)
  /\ markets (st_db (snd out)) = markets (st_db seeded_store)
  /\ price_entries (st_db (snd out)) = price_entries (st_db seeded_store)
  /\ exists run,
       In run (kamis_sync_logs (st_db (snd out)))
       /\ log_id run = st_next_id seeded_store
       /\ log_status run = "failed"
       /\ log_error_message run
          = Some "Failed to parse file: Error: Invalid Record Length".
Proof.
  apply (run_without_rows_is_logged_with_its_reason iso_date_only nairobi
           quiet "kamis_latest.csv"
           (Some (ParseFailed "Error: Invalid Record Length")) seeded_store).
  - intros n. reflexivity.
  - reflexivity.
Defined.

(** X11.  The completion of a run is written after the batch has
    committed.  If that write is rejected (and the next one is not),
    [syncKamisData] throws the write's error and the run is logged as
    failed with zero counts, although the rows the batch inserted stay
    in the database. *)
Theorem rejected_completion_write_reports_failure :
  forall date_parse tz env path rows s agg s2 e,
    prisma_fault env (st_prisma_ops s) = None ->
    prisma_fault env (S (st_prisma_ops s)) = Some e ->
    prisma_fault env (S (S (st_prisma_ops s))) = None ->
    processKamisFile date_parse tz env (Parsed rows) (after_start env s)
    = (Ok agg, s2) ->
    let out := syncKamisData date_parse tz env path (Some (Parsed rows)) s in
    fst out = Throw e
    /\ crops (st_db (snd out)) = crops (st_db s2)
    /\ regions (st_db (snd out)) = regions (st_db s2)
    /\ markets (st_db (snd out)) = markets (st_db s2)
    /\ price_entries (st_db (snd out)) = price_entries (st_db s2)
    /\ exists run,
         In run (kamis_sync_logs (st_db (snd out)))
         /\ log_id run = st_next_id s
         /\ log_status run = "failed"
         /\ log_records_processed run = 0
         /\ log_records_inserted run = 0
         /\ log_error_message run
            = (if nonempty (message e) then Some (message e) else None).
Proof.
  intros date_parse tz env path rows s agg s2 e H0 H1 H2 Hbatch out.
  subst out.
  pose proof (batch_leaves_log date_parse tz env (Parsed rows)
                (after_start env s)) as (Hl & Hops & _).
  rewrite Hbatch in Hl, Hops. cbn [snd] in Hl, Hops.
  change (st_prisma_ops (after_start env s)) with (S (st_prisma_ops s))
    in Hops.
  assert (E1 : updateSyncLog env (st_next_id s) (total_rows agg)
                 (inserted agg) 0 "completed" None s2
               = (Throw e, bump_prisma (bump_reads s2))).
  { apply updateSyncLog_rejected. rewrite Hops. exact H1. }
  assert (Hex : existsb (fun l => Nat.eqb (log_id l) (st_next_id s))
                  (kamis_sync_logs (st_db (bump_prisma (bump_reads s2))))
                = true).
  { apply (started_log_found env s). st_simpl. exact Hl. }
  assert (E2 := updateSyncLog_eq env (st_next_id s) 0 0 0 "failed"
                  (Some (message e)) (bump_prisma (bump_reads s2))).
  st_simpl. rewrite Hops in E2. specialize (E2 H2 Hex).
  assert (Hrun : syncKamisData date_parse tz env path (Some (Parsed rows)) s
                 = (Throw e,
                    set_sync_logs
                      (map (finalize_log (st_next_id s) 0 0 0 "failed"
                              (message_or_null (Some (message e)))
                              (time_clip (clock env (S (st_reads s2)))))
                           (kamis_sync_logs (st_db s2)))
                      (bump_prisma (bump_reads (bump_prisma (bump_reads s2)))))).
  { unfold syncKamisData. unfold bind at 1.
    rewrite (startSyncLog_eq env s H0). unfold try_catch, bind.
    cbn [ret]. rewrite Hbatch, E1, E2. reflexivity. }
  rewrite Hrun. cbn [fst snd]. st_simpl. repeat split.
  rewrite Hl.
  change (kamis_sync_logs (st_db (after_start env s)))
    with (kamis_sync_logs (st_db s) ++ [running_log env s]).
  eexists. split.
  { apply (finalized_run_in (kamis_sync_logs (st_db s)) (running_log env s)
             (st_next_id s) 0 0 0 "failed"
             (message_or_null (Some (message e)))
             (time_clip (clock env (S (st_reads s2)))) eq_refl). }
  cbn. repeat split.
Qed.

Lemma rejected_completion_write_reports_failure_witness :
  let s2 := snd (processKamisFile iso_date_only nairobi log_write_fails
                   (Parsed [maize_4550])
                   (after_start log_write_fails seeded_store)) in
  let out := syncKamisData iso_date_only nairobi log_write_fails
               "kamis_latest.csv" (Some (Parsed [maize_4550]))
               seeded_store in
  fst out = Throw (mkError (Some "P1001") "Can't reach database")
  /\ crops (st_db (snd out)) = crops (st_db s2)
  /\ regions (st_db (snd out)) = regions (st_db s2)
  /\ markets (st_db (snd out)) = markets (st_db s2)
  /\ price_entries (st_db (snd out)) = price_entries (st_db s2)
  /\ exists run,
       In run (kamis_sync_logs (st_db (snd out)))
       /\ log_id run = st_next_id seeded_store
       /\ log_status run = "failed"
       /\ log_records_processed run = 0
       /\ log_records_inserted run = 0
       /\ log_error_message run
          = (if nonempty "Can't reach database"
             then Some "Can't reach database" else None).
Proof.
  intros s2.
  apply (rejected_completion_write_reports_failure iso_date_only nairobi
           log_write_fails "kamis_latest.csv" [maize_4550] seeded_store
           (mkAggregate 1 0 0 1) s2
           (mkError (Some "P1001") "Can't reach database")).
  - reflexivity.
  - reflexivity.
  - reflexivity.
  - vm_compute. reflexivity.
Defined.

(** *** The status query *)

Lemma date_ltb_asym a b : date_ltb a b = true -> date_ltb b a = false.
Proof.
  destruct a as [x|], b as [y|]; cbn; try congruence.
  rewrite Z.ltb_lt, Z.ltb_ge. lia.
Qed.

Lemma date_ltb_not_trans a b c :
  date_ltb a b = false -> date_ltb b c = false -> date_ltb a c = false.
Proof.
  destruct a as [x|], b as [y|], c as [z|]; cbn; try congruence.
  rewrite !Z.ltb_ge. lia.
Qed.

Lemma latest_log_in l x : latest_log l = Some x -> In x l.
Proof.
  revert x. induction l as [|x0 r IH]; cbn; [discriminate|].
  intros x. destruct (latest_log r) as [y|].
  - destruct (date_ltb _ _); intros [= <-]; auto.
  - intros [= <-]. auto.
Qed.

Lemma latest_log_nil l : latest_log l = None -> l = [].
Proof.
  destruct l as [|x r]; cbn; [reflexivity|].
  destruct (latest_log r) as [y|]; [destruct (date_ltb _ _)|]; discriminate.
Qed.

(** No row of the table started strictly after the one picked. *)
Lemma latest_log_max l x :
  latest_log l = Some x ->
  forall y, In y l -> date_ltb (log_started_at x) (log_started_at y) = false.
Proof.
  revert x. induction l as [|x0 r IH]; cbn; [discriminate|].
  intros x. destruct (latest_log r) as [y0|] eqn:Hr.
  - destruct (date_ltb (log_started_at x0) (log_started_at y0)) eqn:Hlt;
      intros [= <-] y [<- | Hy].
    + apply date_ltb_asym. exact Hlt.
    + apply (IH _ eq_refl). exact Hy.
    + destruct (log_started_at x0) as [t|]; cbn; [apply Z.ltb_irrefl|trivial].
    + eapply date_ltb_not_trans; [exact Hlt | apply (IH _ eq_refl); exact Hy].
  - apply latest_log_nil in Hr. subst r.
    intros [= <-] y [<- | []].
    destruct (log_started_at x0) as [t|]; cbn; [apply Z.ltb_irrefl|trivial].
Qed.

Lemma latest_log_snoc l x :
  (forall y, In y l ->
             date_ltb (log_started_at y) (log_started_at x) = true) ->
  latest_log (l ++ [x]) = Some x.
Proof.
  induction l as [|y r IH]; intros H; cbn; [reflexivity|].
  rewrite IH by (intros z Hz; apply H; right; exact Hz).
  rewrite (H y (or_introl eq_refl)). reflexivity.
Qed.

Lemma latest_log_map (f : sync_log -> sync_log) l :
  (forall x, log_started_at (f x) = log_started_at x) ->
  latest_log (map f l) = option_map f (latest_log l).
Proof.
  intros Hf. induction l as [|x r IH]; cbn; [reflexivity|].
  rewrite IH. destruct (latest_log r) as [y|]; cbn; [|reflexivity].
  rewrite !Hf. destruct (date_ltb _ _); reflexivity.
Qed.

Lemma finalize_log_started_at id p i u st em t x :
  log_started_at (finalize_log id p i u st em t x) = log_started_at x.
Proof. unfold finalize_log. destruct (Nat.eqb _ _); reflexivity. Qed.

Lemma getKamisSyncStatus_eq env s :
  getKamisSyncStatus env s
  = (Ok match prisma_fault env (st_prisma_ops s),
              latest_log (kamis_sync_logs (st_db s)) with
        | None, Some r =>
            mkSyncStatus (log_started_at r)
              (log_records_inserted r + log_records_updated r)
              (String.eqb (log_status r) "running")
        | _, _ => mkSyncStatus None 0 false
        end,
     bump_prisma s).
Proof.
  unfold getKamisSyncStatus, try_catch, bind, kamis_sync_logs_findFirst,
    prisma_call, gets, ret.
  destruct (prisma_fault env (st_prisma_ops s)); [reflexivity|].
  st_simpl. destruct (latest_log _); reflexivity.
Qed.

(** X12.  The status query never throws and changes no table.  If its
    statement is rejected or the log is empty it answers "never synced,
    nothing synced, not active"; otherwise it answers from a row of the
    log that no other row started after: that row's start time, its
    inserted plus updated counts, and whether its status is
    "running". *)
Theorem status_reports_a_latest_run :
  forall env s,
    let out := getKamisSyncStatus env s in
    let logs := kamis_sync_logs (st_db s) in
    st_db (snd out) = st_db s
    /\ exists st,
         fst out = Ok st
         /\ match prisma_fault env (st_prisma_ops s), logs with
            | None, _ :: _ =>
                exists row,
                  In row logs
                  /\ (forall y, In y logs ->
                        date_ltb (log_started_at row) (log_started_at y)
                        = false)
                  /\ st = mkSyncStatus (log_started_at row)
                            (log_records_inserted row
                             + log_records_updated row)
                            (String.eqb (log_status row) "running")
            | _, _ => st = mkSyncStatus None 0 false
            end.
Proof.
  intros env s out logs. subst out logs.
  rewrite getKamisSyncStatus_eq. cbn [fst snd]. st_simpl.
  split; [reflexivity|]. eexists. split; [reflexivity|].
  destruct (prisma_fault env (st_prisma_ops s)); [reflexivity|].
  destruct (kamis_sync_logs (st_db s)) as [|x r] eqn:Hl; [reflexivity|].
  destruct (latest_log (x :: r)) as [row|] eqn:Hrow.
  - exists row. split; [apply latest_log_in; exact Hrow|].
    split; [apply latest_log_max; exact Hrow | reflexivity].
  - apply latest_log_nil in Hrow. discriminate.
Qed.

(** X13.  A sync run shows in the status query.  If the run's start
    time is valid and later than the start of every row already in the
    log, then a status query made once the run has ended (log writable
    throughout) answers with that start time, "not active", and as
    records synced the run's [inserted] if it returned and zero if it
    threw; a status query made while the run is under way answers
    "active". *)
Theorem status_after_a_run :
  forall date_parse tz env env' path latest s,
    prisma_fault_free env ->
    prisma_fault_free env' ->
    (forall y, In y (kamis_sync_logs (st_db s)) ->
       date_ltb (log_started_at y) (time_clip (clock env (st_reads s)))
       = true) ->
    let out := syncKamisData date_parse tz env path latest s in
    fst (getKamisSyncStatus env' (snd out))
    = Ok (mkSyncStatus (time_clip (clock env (st_reads s)))
            match fst out with
            | Ok r => records_synced r
            | Throw _ => 0
            end
            false)
    /\ fst (getKamisSyncStatus env' (after_start env s))
       = Ok (mkSyncStatus (time_clip (clock env (st_reads s))) 0 true).
Proof.
  intros date_parse tz env env' path latest s Hfree Hfree' Hlate out.
  subst out. split.
  - destruct (sync_outcome date_parse tz env path latest s Hfree)
      as (res & sfin & s2 & p & i & u & st & em & Hrun & Hup & Hl & Hres).
    rewrite Hrun. cbn [fst snd].
    rewrite (updateSyncLog_eq env _ _ _ _ _ _ s2 (Hfree _)
               (started_log_found env s s2 Hl)) in Hup.
    injection Hup as <-.
    rewrite getKamisSyncStatus_eq, Hfree'. cbn [fst]. st_simpl.
    rewrite Hl.
    change (kamis_sync_logs (st_db (after_start env s)))
      with (kamis_sync_logs (st_db s) ++ [running_log env s]).
    rewrite latest_log_map by (intros x; apply finalize_log_started_at).
    rewrite latest_log_snoc by exact Hlate.
    cbn [option_map]. unfold finalize_log. cbn [running_log log_id].
    rewrite Nat.eqb_refl.
    cbn [log_started_at log_records_inserted log_records_updated log_status].
    destruct res as [r|e].
    + destruct Hres as (-> & -> & -> & -> & -> & -> & _).
      rewrite Nat.add_0_r. reflexivity.
    + destruct Hres as (-> & -> & -> & -> & -> & _). reflexivity.
  - rewrite getKamisSyncStatus_eq, Hfree'. cbn [fst].
    change (kamis_sync_logs (st_db (after_start env s)))
      with (kamis_sync_logs (st_db s) ++ [running_log env s]).
    rewrite latest_log_snoc by exact Hlate. reflexivity.
Qed.

Lemma status_after_a_run_witness :
  let out := syncKamisData iso_date_only nairobi quiet "kamis_latest.csv"
               (Some (Parsed [maize_4550; maize_4600])) seeded_store in
  fst (getKamisSyncStatus quiet (snd out))
  = Ok (mkSyncStatus (time_clip (clock quiet (st_reads seeded_store)))
          match fst out with
          | Ok r => records_synced r
          | Throw _ => 0
          end
          false)
  /\ fst (getKamisSyncStatus quiet (after_start quiet seeded_store))
     = Ok (mkSyncStatus (time_clip (clock quiet (st_reads seeded_store)))
             0 true).
Proof.
  apply (status_after_a_run iso_date_only nairobi quiet quiet
           "kamis_latest.csv" (Some (Parsed [maize_4550; maize_4600]))
           seeded_store).
  - intros n. reflexivity.
  - intros n. reflexivity.
  - intros y [].
Defined.

(** *** Re-keying a row *)

Lemma get_define_prop o k v k' :
  get_prop (define_prop o k v) k'
  = if String.eqb k k' then Some v else get_prop o k'.
Proof.
  induction o as [|[k0 v0] o IH]; cbn [define_prop get_prop].
  - reflexivity.
  - destruct (String.eqb k0 k) eqn:E0; cbn [get_prop].
    + apply String.eqb_eq in E0. subst k0.
      destruct (String.eqb k k'); reflexivity.
    + destruct (String.eqb k0 k') eqn:E1; [|exact IH].
      apply String.eqb_eq in E1. subst k0.
      rewrite String.eqb_sym, E0. reflexivity.
Qed.

Lemma get_set_prop o k v k' :
  k' <> "__proto__" ->
  get_prop (set_prop o k v) k'
  = if String.eqb k k' then Some v else get_prop o k'.
Proof.
  intros Hk. unfold set_prop.
  destruct (String.eqb k "__proto__") eqn:E; [|apply get_define_prop].
  apply String.eqb_eq in E. subst k.
  destruct (String.eqb "__proto__" k') eqn:E'; [|reflexivity].
  apply String.eqb_eq in E'. congruence.
Qed.

Lemma get_fold_set raw key :
  key <> "__proto__" ->
  forall acc,
  get_prop
    (fold_left
       (fun row kv => set_prop row (trim (toLowerCase (fst kv))) (snd kv))
       raw acc) key
  = match last_binding raw key with
    | Some v => Some v
    | None => get_prop acc key
    end.
Proof.
  intros Hk.
  induction raw as [|[k v] rest IH]; intros acc; cbn [fold_left last_binding].
  - reflexivity.
  - rewrite IH. destruct (last_binding rest key); [reflexivity|].
    cbn [fst snd]. rewrite get_set_prop by exact Hk.
    destruct (String.eqb _ key); reflexivity.
Qed.

(** X14.  For each key the service reads, re-keying a row matches
    headers ignoring case and surrounding white space, and when several
    columns match the same key the last one wins: the re-keyed row
    holds under the key the value of the last column whose lower-cased,
    trimmed header is the key, and nothing if there is none. *)
Theorem normalize_last_column_wins :
  forall rawRow key,
    In key service_keys ->
    get_prop (normalize rawRow) key = last_binding rawRow key.
Proof.
  intros rawRow key Hin.
  assert (Hk : key <> "__proto__").
  { intros ->. unfold service_keys in Hin. cbn [In] in Hin.
    repeat (destruct Hin as [Hin | Hin]; [discriminate Hin|]).
    exact Hin. }
  unfold normalize. rewrite (get_fold_set _ _ Hk).
  destruct (last_binding rawRow key); reflexivity.
Qed.

Lemma normalize_last_column_wins_witness :
  get_prop (normalize price_twice) "price" = last_binding price_twice "price".
Proof.
  apply (normalize_last_column_wins price_twice "price").
  unfold service_keys. cbn [In]. tauto.
Defined.

(** *** The price cell *)

(** X15.  The price aliases are tried with [??], not [||].  A row whose
    [price] cell is the empty string is skipped whatever
    [unit price], [wholesale] and [retail] hold, and so is a row in
    which all four are absent or null; no statement is sent for it. *)
Theorem empty_price_hides_the_other_price_columns :
  forall date_parse tz env rawRow s,
    let row := normalize rawRow in
    get_prop row "price" = Some (JStr "")
    \/ (nullish (get_prop row "price") = true
        /\ nullish (get_prop row "unit price") = true
        /\ nullish (get_prop row "wholesale") = true
        /\ nullish (get_prop row "retail") = true) ->
    let out := processRow date_parse tz env rawRow s in
    fst out = Ok tt
    /\ skippedCount (snd out) = S (skippedCount s)
    /\ insertedCount (snd out) = insertedCount s
    /\ errorCount (snd out) = errorCount s
    /\ st_db (snd out) = st_db s
    /\ st_tx_ops (snd out) = st_tx_ops s.
Proof.
  intros date_parse tz env rawRow s row H out. subst row out.
  assert (Hnan : priceVal_of (normalize rawRow) = NaN).
  { unfold priceVal_of, priceRaw_of, coalesce.
    destruct H as [-> | (H1 & H2 & H3 & H4)].
    - reflexivity.
    - rewrite H1, H2, H3.
      destruct (get_prop (normalize rawRow) "retail") as [[|r]|];
        [reflexivity | discriminate H4 | reflexivity]. }
  assert (Hv : fails_validation (cropName_of (normalize rawRow))
                 (regionName_of (normalize rawRow))
                 (priceVal_of (normalize rawRow)) = true).
  { unfold fails_validation. rewrite Hnan. cbn [isNaN].
    apply orb_true_r. }
  assert (T := row_fails_validation date_parse tz env rawRow s Hv).
  unfold triple in T.
  destruct (processRow date_parse tz env rawRow s) as [[[]|e] s'];
    [|contradiction].
  cbn [fst snd]. tauto.
Qed.

Lemma empty_price_hides_the_other_price_columns_witness :
  let out := processRow iso_date_only nairobi quiet price_in_retail_only
               seeded_store in
  fst out = Ok tt
  /\ skippedCount (snd out) = S (skippedCount seeded_store)
  /\ insertedCount (snd out) = insertedCount seeded_store
  /\ errorCount (snd out) = errorCount seeded_store
  /\ st_db (snd out) = st_db seeded_store
  /\ st_tx_ops (snd out) = st_tx_ops seeded_store.
Proof.
  apply (empty_price_hides_the_other_price_columns iso_date_only nairobi
           quiet price_in_retail_only seeded_store).
  left. reflexivity.
Defined.

(** *** What the classifier can answer *)

(** X16.  [categorizeCrop] answers with one of fifteen categories and
    [determineUnit] with one of six units, whatever the name; the unit
    is "head" exactly for the category "livestock" and "bird" exactly
    for "poultry", whatever the name says. *)
Theorem classifier_answers_are_from_fixed_sets :
  forall name category,
    In (categorizeCrop name)
       ["farm_inputs"; "animal_feeds"; "processed_products"; "cash_crops";
        "livestock"; "poultry"; "fisheries"; "animal_products"; "cereals";
        "legumes"; "roots_tubers"; "fruits"; "vegetables"; "spices_herbs";
        "general"]
    /\ In (determineUnit category name)
          ["head"; "bird"; "litre"; "tray"; "piece"; "kg"]
    /\ (determineUnit category name = "head" <-> category = "livestock")
    /\ (determineUnit category name = "bird" <-> category = "poultry").
Proof.
  intros name category. split; [|split; [|split]].
  - unfold categorizeCrop.
    repeat match goal with
           | |- context [if js_match ?p ?s then _ else _] =>
               destruct (js_match p s)
           end;
      cbn [In]; tauto.
  - unfold determineUnit.
    repeat match goal with
           | |- context [if ?b then _ else _] => destruct b
           end;
      cbn [In]; tauto.
  - unfold determineUnit.
    destruct (String.eqb category "livestock") eqn:E1.
    { apply String.eqb_eq in E1. tauto. }
    apply String.eqb_neq in E1.
    repeat match goal with
           | |- context [if ?b then _ else _] => destruct b
           end;
      split; (discriminate || contradiction).
  - unfold determineUnit.
    destruct (String.eqb category "livestock") eqn:E1.
    { apply String.eqb_eq in E1. subst. split; discriminate. }
    destruct (String.eqb category "poultry") eqn:E2.
    { apply String.eqb_eq in E2. tauto. }
    apply String.eqb_neq in E2.
    repeat match goal with
           | |- context [if ?b then _ else _] => destruct b
           end;
      split; (discriminate || contradiction).
Qed.

(** *** Keywords that can never decide *)

Lemma prefix_app_true a b s :
  prefix (a ++ b) s = true -> prefix a s = true.
Proof.
  revert s. induction a as [|c a IH]; intros s.
  - destruct s; reflexivity.
  - destruct s as [|d s]; cbn; [discriminate|].
    destruct (ascii_dec c d); [apply IH | discriminate].
Qed.

(** A pattern matches wherever a pattern it covers, offset by offset,
    matches. *)
Lemma js_match_covered p q :
  (forall t, existsb (fun w => match_here w t) p = true ->
             existsb (fun w => match_here w t) q = true) ->
  forall s, js_match p s = true -> js_match q s = true.
Proof.
  intros Hpq. induction s as [|c s IH]; cbn [js_match];
    rewrite !orb_true_iff.
  - intros [H | H]; [left; apply Hpq; exact H | discriminate].
  - intros [H | H]; [left; apply Hpq; exact H | right; apply IH; exact H].
Qed.

Lemma js_match_word_covered (long short : string) (rest : string) q :
  long = (short ++ rest)%string ->
  In [Lit short] q ->
  forall s, js_match (words [long]) s = true -> js_match q s = true.
Proof.
  intros -> Hin. apply js_match_covered. intros t.
  cbn [words map existsb match_here]. rewrite orb_false_r, andb_true_r.
  intros H. apply prefix_app_true in H.
  apply existsb_exists. exists [Lit short]. split; [exact Hin|].
  cbn [match_here]. rewrite H. reflexivity.
Qed.

(** X17.  Two keywords of the rule list can never decide a category,
    because an earlier rule matches whenever they do: a name containing
    "cowpea" contains "cow" and is classified by the livestock rule or
    one before it, never as a legume; a name containing "pepper" is
    classified by the vegetables rule or one before it, never as a
    spice or herb. *)
Theorem shadowed_keywords_never_decide :
  forall name,
    (js_match (words ["cowpea"]) (toLowerCase name) = true ->
     In (categorizeCrop name)
        ["farm_inputs"; "animal_feeds"; "processed_products"; "cash_crops";
         "livestock"])
    /\ (js_match (words ["pepper"]) (toLowerCase name) = true ->
        categorizeCrop name <> "spices_herbs").
Proof.
  intros name. split; intros H.
  - assert (Hcow : js_match p_livestock (toLowerCase name) = true).
    { apply (js_match_word_covered "cowpea" "cow" "pea" p_livestock eq_refl);
        [|exact H].
      cbn. tauto. }
    unfold categorizeCrop. rewrite Hcow.
    repeat match goal with
           | |- context [if js_match ?p ?s then _ else _] =>
               destruct (js_match p s)
           end;
      cbn [In]; tauto.
  - assert (Hveg : js_match p_vegetables (toLowerCase name) = true).
    { apply (js_match_word_covered "pepper" "pepper" "" p_vegetables eq_refl);
        [|exact H].
      cbn. tauto. }
    unfold categorizeCrop. rewrite Hveg.
    repeat match goal with
           | |- context [if js_match ?p ?s then _ else _] =>
               destruct (js_match p s)
           end;
      discriminate.
Qed.

Lemma shadowed_keywords_never_decide_witness :
  In (categorizeCrop "Cowpeas")
     ["farm_inputs"; "animal_feeds"; "processed_products"; "cash_crops";
      "livestock"]
  /\ categorizeCrop "Black pepper" <> "spices_herbs".
Proof.
  split.
  - apply (proj1 (shadowed_keywords_never_decide "Cowpeas")). reflexivity.
  - apply (proj2 (shadowed_keywords_never_decide "Black pepper")).
    reflexivity.
Defined.

(** *** Region codes *)

Lemma upper_char_shape c :
  let u := if is_space (upper_char c) then "_"%char else upper_char c in
  negb (is_space u) && negb (is_lower u) = true.
Proof. destruct c as [[] [] [] [] [] [] [] []]; reflexivity. Qed.

Lemma upper_of_lower c : upper_char (lower_char c) = upper_char c.
Proof. destruct c as [[] [] [] [] [] [] [] []]; reflexivity. Qed.

Lemma toUpperCase_of_lowered a : forall b,
  toLowerCase a = toLowerCase b -> toUpperCase a = toUpperCase b.
Proof.
  unfold toLowerCase, toUpperCase.
  induction a as [|c a IH]; intros [|d b]; cbn [map_chars];
    try discriminate; [reflexivity|].
  intros [= Hc Hab]. rewrite (IH b Hab). f_equal.
  rewrite <- (upper_of_lower c), <- (upper_of_lower d), Hc. reflexivity.
Qed.

(** X18.  For a region name of ASCII characters, the code given to the
    created region is as long as the name, contains no white space and
    no lower-case letter, and is the same for every ASCII name that
    differs from it only in case. *)
Theorem region_code_shape :
  forall name name',
    is_ascii name = true ->
    is_ascii name' = true ->
    let code := spaces_to_underscores (toUpperCase name) in
    String.length code = String.length name
    /\ all_chars (fun c => negb (is_space c) && negb (is_lower c)) code = true
    /\ (toLowerCase name = toLowerCase name' ->
        spaces_to_underscores (toUpperCase name') = code).
Proof.
  intros name name' _ _ code. subst code. split; [|split].
  - unfold spaces_to_underscores, toUpperCase.
    induction name as [|c r IH]; cbn; [reflexivity | rewrite IH; reflexivity].
  - unfold spaces_to_underscores, toUpperCase.
    induction name as [|c r IH]; cbn [map_chars all_chars]; [reflexivity|].
    rewrite IH, andb_true_r. apply upper_char_shape.
  - intros H. rewrite (toUpperCase_of_lowered _ _ H). reflexivity.
Qed.

Lemma region_code_shape_witness :
  is_ascii "Nyanza" = true
  /\ is_ascii "NYANZA" = true
  /\ spaces_to_underscores (toUpperCase "Nyanza") = "NYANZA"
  /\ spaces_to_underscores (toUpperCase "NYANZA")
     = spaces_to_underscores (toUpperCase "Nyanza").
Proof.
  split; [reflexivity|]. split; [reflexivity|]. split; [reflexivity|].
  apply (region_code_shape "Nyanza" "NYANZA"); reflexivity.
Defined.

(* --------------------------------------------------------------------- *)
(** ** The clean-up of the sync log *)
(* --------------------------------------------------------------------- *)

Lemma insert_desc_perm x l : Permutation (insert_desc x l) (x :: l).
Proof.
  induction l as [|y r IH]; cbn; [reflexivity|].
  destruct (date_ltb _ _); [|reflexivity].
  eapply perm_trans; [apply perm_skip, IH | apply perm_swap].
Qed.

Lemma sort_desc_perm l : Permutation (sort_desc l) l.
Proof.
  induction l as [|x r IH]; cbn; [constructor|].
  eapply perm_trans; [apply insert_desc_perm|]. now apply perm_skip.
Qed.

Lemma insert_desc_sorted x l :
  StronglySorted not_older l -> StronglySorted not_older (insert_desc x l).
Proof.
  induction 1 as [|y r Hs IH Hall]; cbn.
  - repeat constructor.
  - destruct (date_ltb (log_started_at x) (log_started_at y)) eqn:E.
    + constructor; [exact IH|].
      eapply Permutation_Forall;
        [apply Permutation_sym, insert_desc_perm|].
      constructor; [|exact Hall].
      apply date_ltb_asym, E.
    + constructor; [constructor; assumption|].
      constructor; [exact E|].
      eapply Forall_impl; [|exact Hall].
      intros z Hz. eapply date_ltb_not_trans; eassumption.
Qed.

Lemma sort_desc_sorted l : StronglySorted not_older (sort_desc l).
Proof.
  induction l; cbn; [constructor|]. now apply insert_desc_sorted.
Qed.

Lemma sorted_app_inv (a b : list sync_log) :
  StronglySorted not_older (a ++ b) ->
  forall k d, In k a -> In d b -> not_older k d.
Proof.
  induction a as [|x a IH]; cbn; [tauto|].
  intros H. apply StronglySorted_inv in H. destruct H as [Hs Hall].
  intros k d [<-|Hk] Hd.
  - rewrite Forall_forall in Hall. apply Hall, in_or_app. now right.
  - now apply IH.
Qed.

Lemma filter_length_perm {A} (f : A -> bool) l l' :
  Permutation l l' ->
  List.length (filter f l) = List.length (filter f l').
Proof.
  induction 1; cbn; repeat destruct (f _); cbn; congruence.
Qed.

Lemma filter_all {A} (f : A -> bool) l :
  (forall x, In x l -> f x = true) -> filter f l = l.
Proof.
  induction l as [|x r IH]; cbn; [reflexivity|]. intros H.
  rewrite (H x (or_introl eq_refl)), IH; auto.
Qed.

Lemma filter_none {A} (f : A -> bool) l :
  (forall x, In x l -> f x = false) -> filter f l = [].
Proof.
  induction l as [|x r IH]; cbn; [reflexivity|]. intros H.
  rewrite (H x (or_introl eq_refl)), IH; auto.
Qed.

Lemma NoDup_map_inj_in {A B} (f : A -> B) l x y :
  NoDup (map f l) -> In x l -> In y l -> f x = f y -> x = y.
Proof.
  induction l as [|a r IH]; cbn; [tauto|].
  intros H. apply NoDup_cons_iff in H. destruct H as [Hn Hr].
  intros [<-|Hx] [<-|Hy] E; auto.
  - exfalso. apply Hn. rewrite E. now apply in_map.
  - exfalso. apply Hn. rewrite <- E. now apply in_map.
Qed.

Lemma NoDup_app_disjoint {A} (a b : list A) x :
  NoDup (a ++ b) -> In x a -> In x b -> False.
Proof.
  induction a as [|y a IH]; cbn; [tauto|].
  intros H. apply NoDup_cons_iff in H. destruct H as [Hn Hr].
  intros [<-|Hx] Hb.
  - apply Hn, in_or_app. now right.
  - now apply IH.
Qed.

(** What the [notIn] filter of the clean-up keeps. *)
Lemma kept_by_id_in (F : list sync_log) x :
  existsb (Nat.eqb (log_id x)) (map log_id F) = true
  <-> exists y, In y F /\ log_id y = log_id x.
Proof.
  rewrite existsb_exists. split.
  - intros (i & Hi & E). apply Nat.eqb_eq in E.
    apply in_map_iff in Hi. destruct Hi as (y & <- & Hy). eauto.
  - intros (y & Hy & E). exists (log_id y). split.
    + now apply in_map.
    + now apply Nat.eqb_eq.
Qed.

Lemma kept_iff_among_first n logs x :
  NoDup (map log_id logs) -> In x logs ->
  existsb (Nat.eqb (log_id x))
          (map log_id (firstn n (sort_desc logs))) = true
  <-> In x (firstn n (sort_desc logs)).
Proof.
  intros Hnd Hx. rewrite kept_by_id_in. split.
  - intros (y & Hy & E).
    assert (In y logs) as Hyl.
    { eapply Permutation_in; [apply sort_desc_perm|].
      rewrite <- (firstn_skipn n (sort_desc logs)).
      apply in_or_app. now left. }
    now rewrite <- (NoDup_map_inj_in log_id logs y x Hnd Hyl Hx E).
  - intros H. eauto.
Qed.

Lemma kept_length n logs :
  NoDup (map log_id logs) ->
  List.length
    (filter (fun l => existsb (Nat.eqb (log_id l))
                        (map log_id (firstn n (sort_desc logs)))) logs)
  = Nat.min n (List.length logs).
Proof.
  intros Hnd.
  pose proof (sort_desc_perm logs) as Hp.
  set (keep := fun l : sync_log => existsb _ _).
  rewrite (filter_length_perm keep _ _ (Permutation_sym Hp)).
  rewrite <- (firstn_skipn n (sort_desc logs)).
  rewrite filter_app, length_app.
  rewrite filter_all, filter_none; subst keep; cbv beta.
  - cbn. rewrite Nat.add_0_r, length_firstn.
    now rewrite (Permutation_length Hp).
  - intros x Hx.
    destruct (existsb _ _) eqn:E; [|reflexivity]. exfalso.
    assert (In x logs) as Hxl.
    { eapply Permutation_in; [exact Hp|].
      rewrite <- (firstn_skipn n (sort_desc logs)).
      apply in_or_app. now right. }
    apply (kept_iff_among_first n logs x Hnd Hxl) in E.
    assert (NoDup (sort_desc logs)) as Hs.
    { eapply Permutation_NoDup; [apply Permutation_sym, Hp|].
      eapply NoDup_map_inv, Hnd. }
    rewrite <- (firstn_skipn n (sort_desc logs)) in Hs.
    exact (NoDup_app_disjoint _ _ x Hs E Hx).
  - intros x Hx. apply kept_by_id_in. eauto.
Qed.

(** The leaves of the case analysis of a clean-up: [k] statements were
    accepted. *)
Ltac cleanup_side :=
  repeat match goal with
         | |- _ /\ _ => split
         end;
  try first [ reflexivity | assumption | lia
            | intros; first [discriminate | congruence | lia] ].

Ltac cleanup_leaf k :=
  let H := fresh in
  intros H; apply pair_equal_spec in H; destruct H as [<- <-]; st_simpl;
  split; [reflexivity|]; split; [reflexivity|];
  split; [repeat split|];
  exists k; cbn [Nat.leb Nat.add];
  split; [lia|];
  split;
  [ let j := fresh "j" in
    intros j ?; do 4 (try destruct j as [|j]); cbn [Nat.add];
    first [assumption | lia] |];
  split; [intros; first [discriminate | congruence | lia]|];
  split; [intros; first [discriminate | congruence | lia]|];
  split; [reflexivity|]; split; [reflexivity|]; split; [reflexivity|].

(** The paths of the clean-up, by the number [k] of statements that
    were accepted: each accepted statement has pruned its table; the
    clean-up ends with the rejection of the next statement, with the
    client's refusal of a cut-off that is not a date, or by returning
    after its third or fourth statement. *)
Lemma cleanup_cases tz env s out s' :
  cleanupOldLogs tz env s = (out, s') ->
  let ops := st_prisma_ops s in
  let logs := kamis_sync_logs (st_db s) in
  let idsToKeep := map log_id (firstn 100 (sort_desc logs)) in
  let c90 := sms_cutoff tz env s in
  let c30 := chat_cutoff tz env s in
  st_tx_ops s' = st_tx_ops s
  /\ st_reads s' = 2 + st_reads s
  /\ feed_tables_kept s s'
  /\ exists k,
       k <= 4
       /\ (forall j, j < k -> prisma_fault env (j + ops) = None)
       /\ (1 <= k -> c90 <> None)
       /\ (2 <= k -> c30 <> None)
       /\ sms_logs (st_db s')
          = (if Nat.leb 1 k then filter (keep_sms c90) (sms_logs (st_db s))
             else sms_logs (st_db s))
       /\ chat_conversations (st_db s')
          = (if Nat.leb 2 k
             then filter (keep_chat c30) (chat_conversations (st_db s))
             else chat_conversations (st_db s))
       /\ kamis_sync_logs (st_db s')
          = (if Nat.leb 4 k
             then filter (fun l => existsb (Nat.eqb (log_id l)) idsToKeep)
                         logs
             else logs)
       /\ ((out = Ok tt
            /\ st_prisma_ops s' = k + ops
            /\ (k = 4 /\ List.length idsToKeep = 100
                \/ k = 3 /\ List.length idsToKeep <> 100))
           \/ (exists e,
                 out = Throw e /\ k < 4
                 /\ prisma_fault env (k + ops) = Some e
                 /\ st_prisma_ops s' = S k + ops
                 /\ (k = 0 -> c90 <> None)
                 /\ (k = 1 -> c30 <> None)
                 /\ (k = 3 -> List.length idsToKeep = 100))
           \/ (out = Throw invalid_date_error
               /\ st_prisma_ops s' = k + ops
               /\ (k = 0 /\ c90 = None \/ k = 1 /\ c30 = None))).
Proof.
  unfold cleanupOldLogs, try_catch, bind, new_Date. st_simpl.
  fold (sms_cutoff tz env s). fold (chat_cutoff tz env s).
  cbv zeta.
  unfold sms_logs_deleteMany_lt, chat_conversations_deleteMany_anonymous_lt,
    kamis_sync_logs_findMany_ids, kamis_sync_logs_deleteMany_notIn,
    prisma_call, gets, modify, ret, throw.
  destruct (sms_cutoff tz env s) as [t90|] eqn:E90.
  2:{ cleanup_leaf 0. right. right. auto. }
  st_simpl.
  destruct (prisma_fault env (st_prisma_ops s)) as [e0|] eqn:F0.
  { cleanup_leaf 0. right. left. exists e0. cleanup_side. }
  st_simpl.
  destruct (chat_cutoff tz env s) as [t30|] eqn:E30.
  2:{ cleanup_leaf 1. right. right. auto. }
  st_simpl.
  destruct (prisma_fault env (S (st_prisma_ops s))) as [e1|] eqn:F1.
  { cleanup_leaf 1. right. left. exists e1. cleanup_side. }
  st_simpl.
  destruct (prisma_fault env (S (S (st_prisma_ops s)))) as [e2|] eqn:F2.
  { cleanup_leaf 2. right. left. exists e2. cleanup_side. }
  st_simpl.
  destruct (Nat.eqb _ 100) eqn:L.
  - apply Nat.eqb_eq in L. st_simpl.
    destruct (prisma_fault env (S (S (S (st_prisma_ops s))))) as [e3|] eqn:F3.
    { cleanup_leaf 3. right. left. exists e3. cleanup_side. }
    cleanup_leaf 4. left. cleanup_side.
  - apply Nat.eqb_neq in L.
    cleanup_leaf 3. left. cleanup_side.
Qed.


Lemma ids_to_keep_length n logs :
  List.length (map log_id (firstn n (sort_desc logs)))
  = Nat.min n (List.length logs).
Proof.
  rewrite length_map, length_firstn.
  now rewrite (Permutation_length (sort_desc_perm logs)).
Qed.

Lemma NoDup_map_filter {A B} (f : A -> B) (g : A -> bool) l :
  NoDup (map f l) -> NoDup (map f (filter g l)).
Proof.
  induction l as [|a r IH]; cbn; [auto|].
  intros H. apply NoDup_cons_iff in H. destruct H as [Hn Hr].
  destruct (g a); cbn; auto.
  constructor; auto.
  intros Hin. apply Hn.
  apply in_map_iff in Hin. destruct Hin as (y & E & Hy).
  apply filter_In in Hy. rewrite <- E. apply in_map. tauto.
Qed.

Lemma kept_rows_not_older logs k d :
  NoDup (map log_id logs) ->
  let keep := fun l => existsb (Nat.eqb (log_id l))
                         (map log_id (firstn 100 (sort_desc logs))) in
  In k (filter keep logs) -> In d logs -> ~ In d (filter keep logs) ->
  not_older k d.
Proof.
  intros Hnd keep Hk Hd Hnd'.
  apply filter_In in Hk. destruct Hk as [Hkl Hk].
  apply (kept_iff_among_first 100 logs k Hnd Hkl) in Hk.
  assert (In d (skipn 100 (sort_desc logs))) as Hds.
  { assert (In d (sort_desc logs)) as Hs.
    { eapply Permutation_in; [apply Permutation_sym, sort_desc_perm|].
      exact Hd. }
    rewrite <- (firstn_skipn 100 (sort_desc logs)) in Hs.
    apply in_app_or in Hs. destruct Hs as [Hs|Hs]; [|exact Hs].
    exfalso. apply Hnd'. apply filter_In. split; [exact Hd|].
    now apply (kept_iff_among_first 100 logs d Hnd Hd). }
  eapply sorted_app_inv; [|exact Hk|exact Hds].
  rewrite firstn_skipn. apply sort_desc_sorted.
Qed.

(** X19.  Whatever statements are rejected, the clean-up leaves the
    crops, the regions, the markets and the price entries as they were,
    and from the sync log it only removes rows: what is left are rows
    of the old log, unchanged and in their order, still with distinct
    identifiers.  Either nothing is removed from the sync log or exactly
    a hundred rows are left; when the clean-up returns, the log holds
    the smaller of a hundred and its old number of rows.  No removed
    row started later than a row that was kept. *)
Theorem cleanup_keeps_the_latest_hundred :
  forall tz env s,
    log_ids_unique s ->
    let out := cleanupOldLogs tz env s in
    let logs := kamis_sync_logs (st_db s) in
    let logs' := kamis_sync_logs (st_db (snd out)) in
    feed_tables_kept s (snd out)
    /\ (exists keep, logs' = filter keep logs)
    /\ (logs' = logs \/ List.length logs' = 100)
    /\ (fst out = Ok tt ->
        List.length logs' = Nat.min 100 (List.length logs))
    /\ (forall k d, In k logs' -> In d logs -> ~ In d logs' ->
                    not_older k d)
    /\ log_ids_unique (snd out).
Proof.
  intros tz env s Hnd. cbv zeta.
  destruct (cleanupOldLogs tz env s) as [out s'] eqn:Hrun. cbn [fst snd].
  destruct (cleanup_cases tz env s out s' Hrun)
    as (_ & _ & Hother & k & Hk & _ & _ & _ & _ & _ & Hlogs & Hc).
  cbv zeta in Hlogs, Hc. rewrite ids_to_keep_length in Hc.
  unfold log_ids_unique in *.
  split; [exact Hother|].
  destruct (Nat.leb 4 k) eqn:K;
    [apply Nat.leb_le in K | apply Nat.leb_gt in K]; rewrite Hlogs.
  - assert (Nat.min 100 (List.length (kamis_sync_logs (st_db s))) = 100)
      as Hlen.
    { destruct Hc as [(_ & _ & [[_ H]|[H _]])
                     |[(e & _ & H & _)|(_ & _ & [[H _]|[H _]])]]; lia. }
    split; [eauto|]. split; [|split; [|split]].
    + right. rewrite kept_length; [exact Hlen | exact Hnd].
    + intros _. now apply kept_length.
    + intros x d. now apply kept_rows_not_older.
    + now apply NoDup_map_filter.
  - split; [|split; [|split; [|split]]].
    + exists (fun _ => true). symmetry. now apply filter_all.
    + now left.
    + intros ->.
      destruct Hc as [(_ & _ & [[H _]|[_ H]])
                     |[(e & [=] & _)|([=] & _)]]; lia.
    + intros x d _ Hd Hd'. contradiction.
    + exact Hnd.
Qed.

Lemma store_with_runs_ids_unique n : log_ids_unique (store_with_runs n).
Proof.
  unfold log_ids_unique, store_with_runs. st_simpl.
  rewrite map_map. cbn [past_run log_id].
  rewrite map_id. apply seq_NoDup.
Qed.

Lemma cleanup_keeps_the_latest_hundred_witness :
  log_ids_unique (store_with_runs 101)
  /\ List.length
       (kamis_sync_logs
          (st_db (snd (cleanupOldLogs 0 quiet (store_with_runs 101)))))
     = 100.
Proof.
  split; [apply store_with_runs_ids_unique|].
  destruct (cleanup_keeps_the_latest_hundred 0%Z quiet (store_with_runs 101)
              (store_with_runs_ids_unique 101))
    as (_ & _ & _ & H & _).
  rewrite H; vm_compute; reflexivity.
Defined.

Lemma setDate_back_some tz d n t :
  setDate_back tz d n = Some t ->
  exists now, d = Some now /\ t = (now - n * msPerDay)%Z.
Proof.
  destruct d as [now|]; cbn [setDate_back]; [|discriminate].
  intros H. apply time_clip_some in H. destruct H as [-> _].
  exists now. split; [reflexivity|]. lia.
Qed.

Lemma sms_cutoff_some tz env s t :
  sms_cutoff tz env s = Some t ->
  t = (clock env (st_reads s) - 90 * msPerDay)%Z.
Proof.
  intros H. apply setDate_back_some in H. destruct H as (now & H & ->).
  apply time_clip_some in H. destruct H as [-> _]. reflexivity.
Qed.

Lemma chat_cutoff_some tz env s t :
  chat_cutoff tz env s = Some t ->
  t = (clock env (S (st_reads s)) - 30 * msPerDay)%Z.
Proof.
  intros H. apply setDate_back_some in H. destruct H as (now & H & ->).
  apply time_clip_some in H. destruct H as [-> _]. reflexivity.
Qed.

Lemma created_before_spec n now created_at :
  created_before (now - n * msPerDay) created_at = true
  <-> older_than_days n now created_at.
Proof.
  unfold created_before, older_than_days.
  destruct created_at as [c|].
  - rewrite Z.ltb_lt. split.
    + intros H. exists c. split; [reflexivity | exact H].
    + intros (c' & [= <-] & H). exact H.
  - split; [discriminate | intros (c' & [=] & _)].
Qed.

(** What the first statement of the clean-up removes and what it
    leaves. *)
Lemma keep_sms_spec tz env s l :
  sms_cutoff tz env s <> None ->
  keep_sms (sms_cutoff tz env s) l = false
  <-> older_than_days 90 (clock env (st_reads s)) (sms_created_at l).
Proof.
  destruct (sms_cutoff tz env s) as [t|] eqn:E; [intros _ | congruence].
  apply sms_cutoff_some in E. subst t. cbn [keep_sms].
  rewrite negb_false_iff. apply created_before_spec.
Qed.

Lemma keep_chat_spec tz env s c :
  chat_cutoff tz env s <> None ->
  keep_chat (chat_cutoff tz env s) c = false
  <-> chat_user_id c = None
      /\ older_than_days 30 (clock env (S (st_reads s)))
                         (chat_created_at c).
Proof.
  destruct (chat_cutoff tz env s) as [t|] eqn:E; [intros _ | congruence].
  apply chat_cutoff_some in E. subst t. cbn [keep_chat].
  rewrite negb_false_iff, andb_true_iff, created_before_spec.
  destruct (chat_user_id c); cbn [is_null]; intuition congruence.
Qed.

Lemma removed_by_filter {A} (f : A -> bool) l x :
  In x l -> ~ In x (filter f l) -> f x = false.
Proof.
  intros Hx Hn. destruct (f x) eqn:E; [|reflexivity].
  exfalso. apply Hn, filter_In. now split.
Qed.

Lemma left_by_filter {A} (f : A -> bool) l :
  Forall (fun x => f x <> false) (filter f l).
Proof.
  apply Forall_forall. intros x Hx. apply filter_In in Hx.
  destruct Hx as [_ ->]. discriminate.
Qed.

(** X22.  What the clean-up removes from the SMS log and from the chat
    conversations.  Whatever statements are rejected, what is left of
    either table are rows of the old table, unchanged and in their
    order.  Every SMS row removed was created more than ninety days
    before the first reading of the clock; every chat removed has no
    user and was created more than thirty days before the second
    reading.  When the clean-up returns, no such SMS row and no such
    chat is left.  A row without a creation time is never removed. *)
Theorem cleanup_removes_only_old_messages :
  forall tz env s,
    let out := cleanupOldLogs tz env s in
    let now90 := clock env (st_reads s) in
    let now30 := clock env (S (st_reads s)) in
    let sms := sms_logs (st_db s) in
    let sms' := sms_logs (st_db (snd out)) in
    let chats := chat_conversations (st_db s) in
    let chats' := chat_conversations (st_db (snd out)) in
    (exists keep, sms' = filter keep sms)
    /\ (exists keep, chats' = filter keep chats)
    /\ (forall l, In l sms -> ~ In l sms' ->
          older_than_days 90 now90 (sms_created_at l))
    /\ (forall c, In c chats -> ~ In c chats' ->
          chat_user_id c = None
          /\ older_than_days 30 now30 (chat_created_at c))
    /\ (fst out = Ok tt ->
        Forall (fun l => ~ older_than_days 90 now90 (sms_created_at l))
               sms'
        /\ Forall (fun c => ~ (chat_user_id c = None
                               /\ older_than_days 30 now30
                                                  (chat_created_at c)))
                  chats').
Proof.
  intros tz env s. cbv zeta.
  destruct (cleanupOldLogs tz env s) as [out s'] eqn:Hrun. cbn [fst snd].
  destruct (cleanup_cases tz env s out s' Hrun)
    as (_ & _ & _ & k & Hk & _ & H90 & H30 & Hsms & Hchat & _ & Hc).
  cbv zeta in *.
  assert (forall {A} (l : list A), exists keep, l = filter keep l) as Hid.
  { intros A l. exists (fun _ => true). symmetry. now apply filter_all. }
  split; [|split; [|split; [|split]]].
  - rewrite Hsms. destruct (Nat.leb 1 k); eauto.
  - rewrite Hchat. destruct (Nat.leb 2 k); eauto.
  - intros l Hl Hn. rewrite Hsms in Hn.
    destruct (Nat.leb 1 k) eqn:K; [|contradiction].
    apply Nat.leb_le in K.
    apply (keep_sms_spec tz env s l (H90 K)).
    eapply removed_by_filter; eassumption.
  - intros c Hc' Hn. rewrite Hchat in Hn.
    destruct (Nat.leb 2 k) eqn:K; [|contradiction].
    apply Nat.leb_le in K.
    apply (keep_chat_spec tz env s c (H30 K)).
    eapply removed_by_filter; eassumption.
  - intros ->.
    assert (3 <= k) as K.
    { destruct Hc as [(_ & _ & [[H _]|[H _]])
                     |[(e & [=] & _)|([=] & _)]]; lia. }
    rewrite Hsms, Hchat.
    replace (Nat.leb 1 k) with true by (symmetry; apply Nat.leb_le; lia).
    replace (Nat.leb 2 k) with true by (symmetry; apply Nat.leb_le; lia).
    split.
    + eapply Forall_impl; [|apply left_by_filter].
      intros l Hl Hold. apply Hl.
      apply (keep_sms_spec tz env s l); [apply H90; lia | exact Hold].
    + eapply Forall_impl; [|apply left_by_filter].
      intros c Hl Hold. apply Hl.
      apply (keep_chat_spec tz env s c); [apply H30; lia | exact Hold].
Qed.

Lemma cleanup_removes_only_old_messages_witness :
  let out := cleanupOldLogs 0 quiet store_with_messages in
  fst out = Ok tt
  /\ sms_logs (st_db (snd out))
     = [mkSmsLog 3 (Some 1700000000000000%Z); mkSmsLog 4 None]
  /\ chat_conversations (st_db (snd out))
     = [mkChat 6 (Some 9) (Some 1690000000000000%Z);
        mkChat 7 None (Some 1704000000000000%Z)]
  /\ Forall (fun l => ~ older_than_days 90 (clock quiet 0)
                                        (sms_created_at l))
            (sms_logs (st_db (snd out))).
Proof.
  cbv zeta. split; [vm_compute; reflexivity|].
  split; [vm_compute; reflexivity|].
  split; [vm_compute; reflexivity|].
  apply (cleanup_removes_only_old_messages 0%Z quiet store_with_messages).
  vm_compute; reflexivity.
Defined.

Lemma db_ext (d d' : DB) :
  crops d' = crops d -> regions d' = regions d ->
  markets d' = markets d -> price_entries d' = price_entries d ->
  kamis_sync_logs d' = kamis_sync_logs d ->
  sms_logs d' = sms_logs d ->
  chat_conversations d' = chat_conversations d ->
  d' = d.
Proof.
  destruct d, d'; cbn. intros. subst. reflexivity.
Qed.

(** X20.  The clean-up reads the clock twice, sends at most four
    statements through the global client and none through a
    transaction.  It fails only when one of those statements is
    rejected, with that rejection as its error, or when a cut-off is
    not a date, with the client's refusal.  A clean-up that fails has
    not changed the sync log, and if its first statement is rejected no
    table has changed; but nothing is undone: once a later statement
    has been sent, the SMS rows older than ninety days are gone,
    however the clean-up ends.  If both cut-offs are dates and none of
    the next four statements is rejected, the clean-up returns.  While
    the sync log holds fewer than a hundred rows, no delete is sent for
    it and it stays as it was. *)
Theorem cleanup_fails_only_on_a_rejected_statement :
  forall tz env s,
    let out := cleanupOldLogs tz env s in
    let ops := st_prisma_ops s in
    let ops' := st_prisma_ops (snd out) in
    st_tx_ops (snd out) = st_tx_ops s
    /\ st_reads (snd out) = 2 + st_reads s
    /\ ops <= ops' <= 4 + ops
    /\ (forall e, fst out = Throw e ->
          kamis_sync_logs (st_db (snd out)) = kamis_sync_logs (st_db s)
          /\ (ops < ops' /\ prisma_fault env (ops' - 1) = Some e
              \/ e = invalid_date_error /\ ~ cutoffs_valid tz env s))
    /\ (prisma_fault env ops <> None -> st_db (snd out) = st_db s)
    /\ (1 + ops < ops' ->
        Forall (fun l => ~ older_than_days 90 (clock env (st_reads s))
                                           (sms_created_at l))
               (sms_logs (st_db (snd out))))
    /\ (cutoffs_valid tz env s ->
        (forall j, j < 4 -> prisma_fault env (j + ops) = None) ->
        fst out = Ok tt)
    /\ (List.length (kamis_sync_logs (st_db s)) < 100 ->
        kamis_sync_logs (st_db (snd out)) = kamis_sync_logs (st_db s)
        /\ ops' <= 3 + ops).
Proof.
  intros tz env s. cbv zeta.
  destruct (cleanupOldLogs tz env s) as [out s'] eqn:Hrun. cbn [fst snd].
  destruct (cleanup_cases tz env s out s' Hrun)
    as (Htx & Hrd & Hother & k & Hk & Hf & H90 & H30 & Hsms & Hchat
        & Hlogs & Hc).
  cbv zeta in *. rewrite ids_to_keep_length in Hc.
  split; [exact Htx|]. split; [exact Hrd|].
  assert (k < 4 ->
          kamis_sync_logs (st_db s') = kamis_sync_logs (st_db s)) as Hsame.
  { intros K. rewrite Hlogs.
    replace (Nat.leb 4 k) with false; [reflexivity|].
    symmetry. apply Nat.leb_gt. exact K. }
  split; [|split; [|split; [|split; [|split]]]].
  - destruct Hc as [(_ & -> & _)|[(e & _ & K & _ & -> & _)|(_ & -> & _)]];
      lia.
  - intros e ->.
    destruct Hc as [([=] & _)
                   |[(e' & [= <-] & K & Hfault & -> & _)
                    |([= ->] & -> & Hbad)]].
    + split; [apply Hsame; exact K|]. left. split; [lia|].
      replace (S k + st_prisma_ops s - 1) with (k + st_prisma_ops s) by lia.
      exact Hfault.
    + split; [apply Hsame; lia|]. right. split; [reflexivity|].
      unfold cutoffs_valid. intros [Ha Hb].
      destruct Hbad as [[_ H]|[_ H]]; congruence.
  - intros Hfault.
    assert (k = 0) as ->.
    { destruct k as [|k]; [reflexivity|].
      exfalso. apply Hfault. apply (Hf 0). lia. }
    cbn [Nat.leb] in Hsms, Hchat, Hlogs.
    destruct Hother as (H1 & H2 & H3 & H4).
    now apply db_ext.
  - intros Hops.
    assert (1 <= k) as K.
    { destruct Hc as [(_ & H & _)|[(e & _ & _ & _ & H & _)|(_ & H & _)]];
        lia. }
    rewrite Hsms.
    replace (Nat.leb 1 k) with true by (symmetry; apply Nat.leb_le; lia).
    eapply Forall_impl; [|apply left_by_filter].
    intros l Hl Hold. apply Hl.
    apply (keep_sms_spec tz env s l); [apply H90; lia | exact Hold].
  - intros [Ha Hb] Hnone.
    destruct Hc as [(-> & _)
                   |[(e & _ & K & Hfault & _)|(_ & _ & [[_ H]|[_ H]])]];
      [reflexivity | | congruence | congruence].
    rewrite (Hnone k K) in Hfault. discriminate.
  - intros Hlt.
    assert (k < 4) as K.
    { destruct Hc as [(_ & _ & [[_ H]|[H _]])
                     |[(e & _ & H & _)|(_ & _ & [[H _]|[H _]])]]; lia. }
    split; [apply Hsame; exact K|].
    destruct Hc as [(_ & -> & _)
                   |[(e & _ & _ & _ & -> & _ & _ & H)|(_ & -> & _)]];
      [lia | | lia].
    assert (k <> 3) by (intros E; specialize (H E); lia). lia.
Qed.

Lemma cleanup_fails_only_on_a_rejected_statement_witness :
  let out := cleanupOldLogs 0 log_write_fails store_with_messages in
  (exists e, fst out = Throw e)
  /\ st_prisma_ops (snd out) = 2
  /\ sms_logs (st_db (snd out))
     = [mkSmsLog 3 (Some 1700000000000000%Z); mkSmsLog 4 None]
  /\ chat_conversations (st_db (snd out))
     = chat_conversations (st_db store_with_messages)
  /\ Forall (fun l => ~ older_than_days 90 (clock log_write_fails 0)
                                        (sms_created_at l))
            (sms_logs (st_db (snd out))).
Proof.
  cbv zeta. split; [eexists; vm_compute; reflexivity|].
  split; [vm_compute; reflexivity|].
  split; [vm_compute; reflexivity|].
  split; [vm_compute; reflexivity|].
  apply (cleanup_fails_only_on_a_rejected_statement
           0%Z log_write_fails store_with_messages).
  vm_compute. lia.
Defined.

Lemma date_ltb_antisym a b :
  date_ltb a b = false -> date_ltb b a = false -> a = b.
Proof.
  destruct a as [x|], b as [y|]; cbn; try congruence.
  rewrite !Z.ltb_ge. intros. f_equal. lia.
Qed.

(** X21.  The clean-up does not change the time of the last sync that
    the status query reports: whatever statements of the clean-up are
    rejected, a status query whose own statement goes through answers
    with the same [last_sync] after the clean-up as before it. *)
Theorem cleanup_keeps_the_last_sync_time :
  forall tz env env' s,
    prisma_fault_free env' ->
    log_ids_unique s ->
    exists before after,
      fst (getKamisSyncStatus env' s) = Ok before
      /\ fst (getKamisSyncStatus env' (snd (cleanupOldLogs tz env s)))
         = Ok after
      /\ last_sync after = last_sync before.
Proof.
  intros tz env env' s Hfree Hnd.
  rewrite !getKamisSyncStatus_eq, !Hfree. cbn [fst].
  eexists. eexists. split; [reflexivity|]. split; [reflexivity|].
  destruct (cleanupOldLogs tz env s) as [out s'] eqn:Hrun. cbn [snd].
  destruct (cleanup_cases tz env s out s' Hrun)
    as (_ & _ & _ & k & _ & _ & _ & _ & _ & _ & Hlogs & Hc).
  cbv zeta in Hlogs, Hc. rewrite ids_to_keep_length in Hc.
  destruct (Nat.leb 4 k) eqn:K;
    [apply Nat.leb_le in K | rewrite Hlogs; reflexivity].
  assert (Nat.min 100 (List.length (kamis_sync_logs (st_db s))) = 100)
    as Hlen.
  { destruct Hc as [(_ & _ & [[_ H]|[H _]])
                   |[(e & _ & H & _)|(_ & _ & [[H _]|[H _]])]]; lia. }
  pose proof (kept_length 100 _ Hnd) as Hkept.
  rewrite <- Hlogs, Hlen in Hkept.
  destruct (latest_log (kamis_sync_logs (st_db s'))) as [y|] eqn:Ha;
    destruct (latest_log (kamis_sync_logs (st_db s))) as [x|] eqn:Hb;
    cbn [last_sync].
  - assert (In y (kamis_sync_logs (st_db s'))) as Hy
        by (apply latest_log_in; exact Ha).
    assert (In x (kamis_sync_logs (st_db s))) as Hx
        by (apply latest_log_in; exact Hb).
    apply date_ltb_antisym.
    + destruct (in_dec (fun a b : sync_log =>
                          ltac:(repeat decide equality)
                          : {a = b} + {a <> b})
                       x (kamis_sync_logs (st_db s'))) as [Hin|Hout].
      * exact (latest_log_max _ _ Ha x Hin).
      * rewrite Hlogs in Hy, Hout.
        exact (kept_rows_not_older _ y x Hnd Hy Hx Hout).
    + apply (latest_log_max _ _ Hb).
      rewrite Hlogs in Hy. apply filter_In in Hy. tauto.
  - apply latest_log_nil in Hb. rewrite Hb in Hlogs. cbn in Hlogs.
    rewrite Hlogs in Hkept. discriminate.
  - apply latest_log_nil in Ha. rewrite Ha in Hkept. discriminate.
  - reflexivity.
Qed.

Lemma cleanup_keeps_the_last_sync_time_witness :
  exists before after,
    fst (getKamisSyncStatus quiet (store_with_runs 101)) = Ok before
    /\ fst (getKamisSyncStatus quiet
              (snd (cleanupOldLogs 0 quiet (store_with_runs 101))))
       = Ok after
    /\ last_sync after = last_sync before.
Proof.
  apply (cleanup_keeps_the_last_sync_time 0%Z quiet quiet
           (store_with_runs 101)).
  - intros n. reflexivity.
  - apply store_with_runs_ids_unique.
Defined.
